(** * Balance reconciliation and amount normalisation of the Kontoauszug analysers

    A shallow embedding of the deterministic core of
    [analyze_kontoauszuege_v6.py], [analyze_kontoauszuege_v7.py] and
    [analyze_kontoauszuege_v8.py]:

    - [parse_german_amount]            (v7 and v8, the same text)
    - [validate_number_conversion]     (v8)
    - [classify_transaction_type]      (v6 and v7, the same text)
    - [validate_with_python]           (v7; v8 ends in the same arithmetic)
    - [check_continuity]               (v7), [check_continuity_v8] (v8),
      [validate_statement_continuity]  (v6)
    - [parse_german_amount]            (v6, the parser of the earlier versions)
    - the balance check of v6          (in [ask_llm_v6_analysis])
    - [extract_valuta_date], [extract_wkn_isin]   (v6 and v7, the same text)
    - the German text of a balance     (v7, in [ask_llm_v7_analysis])

    Python values are modelled as the interpreter has them: [str] is a list
    of Unicode code points, [int] is [Z], [decimal.Decimal] is a
    sign/coefficient/exponent triple (or an infinity or a NaN) with the
    arithmetic of the default context (precision 28, ROUND_HALF_EVEN, traps on
    InvalidOperation and Overflow), [float] is IEEE binary64, [bool] is the
    subclass of [int] that it is.  The analyses that v6 sorts are decoded
    JSON values, read through [int], [get] and subtraction as the code
    reads them.  Exceptions are values of an error monad, so that "does not
    raise" is a theorem and not a consequence of typing. *)

From Stdlib Require Import ZArith NArith List Bool Lia String Ascii.
From Stdlib Require Import Permutation.
From Stdlib Require Import Floats.
Import ListNotations.

(* ================================================================== *)
(** * Part I: definitions                                              *)
(* ================================================================== *)

(** ** Exceptions *)

Inductive pyexc : Type :=
| ValueError
| KeyError
| IndexError
| InvalidOperation
| Overflow
| TypeError
| AttributeError
| OverflowError.

Inductive exc (A : Type) : Type :=
| Ok (a : A)
| Raise (e : pyexc).

Arguments Ok {A} a.
Arguments Raise {A} e.

Definition bind {A B : Type} (m : exc A) (k : A -> exc B) : exc B :=
  match m with
  | Ok a => k a
  | Raise e => Raise e
  end.

Declare Scope exc_scope.
Delimit Scope exc_scope with exc.
Notation "x <- m ;; k" := (bind m (fun x => k))
  (at level 61, m at next level, right associativity) : exc_scope.
Open Scope exc_scope.

(** ** Python [str] *)

Module Str.

(** A character is a Unicode code point. *)
Abbreviation char := N (only parsing).
Abbreviation str := (list N) (only parsing).

Local Open Scope N_scope.

(** Decoding of the UTF-8 text of a literal of this file into code
    points; a byte that does not start a well-formed sequence is kept. *)
Definition is_cont (b : N) : bool := (128 <=? b) && (b <? 192).

Fixpoint utf8_decode (bs : list N) : str :=
  match bs with
  | [] => []
  | b0 :: t0 =>
      if b0 <? 128 then b0 :: utf8_decode t0
      else match t0 with
      | b1 :: t1 =>
          if (192 <=? b0) && (b0 <? 224) && is_cont b1
          then ((b0 - 192) * 64 + (b1 - 128)) :: utf8_decode t1
          else match t1 with
          | b2 :: t2 =>
              if (224 <=? b0) && (b0 <? 240) && is_cont b1 && is_cont b2
              then ((b0 - 224) * 4096 + (b1 - 128) * 64 + (b2 - 128))
                     :: utf8_decode t2
              else match t2 with
              | b3 :: t3 =>
                  if (240 <=? b0) && (b0 <? 248)
                     && is_cont b1 && is_cont b2 && is_cont b3
                  then ((b0 - 240) * 262144 + (b1 - 128) * 4096
                        + (b2 - 128) * 64 + (b3 - 128)) :: utf8_decode t3
                  else b0 :: utf8_decode t0
              | [] => b0 :: utf8_decode t0
              end
          | [] => b0 :: utf8_decode t0
          end
      | [] => [b0]
      end
  end.

Fixpoint bytes_of (s : string) : list N :=
  match s with
  | EmptyString => []
  | String a t => N_of_ascii a :: bytes_of t
  end.

(** [py "text"] is the Python string written [text]. *)
Definition py (s : string) : str := utf8_decode (bytes_of s).

Fixpoint eqb (a b : str) : bool :=
  match a, b with
  | [], [] => true
  | x :: a', y :: b' => (x =? y) && eqb a' b'
  | _, _ => false
  end.

(** [s.startswith(p)] *)
Fixpoint startswith (p s : str) : bool :=
  match p, s with
  | [], _ => true
  | x :: p', y :: s' => (x =? y) && startswith p' s'
  | _ :: _, [] => false
  end.

(** [sub in s] *)
Fixpoint contains (sub s : str) : bool :=
  startswith sub s
  || match s with
     | [] => false
     | _ :: t => contains sub t
     end.

(** [s.count(c)] for a one-character [c] *)
Fixpoint count (c : char) (s : str) : nat :=
  match s with
  | [] => O
  | x :: t => if x =? c then S (count c t) else count c t
  end.

(** [s.index(c)] for a one-character [c]; ValueError when absent *)
Fixpoint index (c : char) (s : str) : exc nat :=
  match s with
  | [] => Raise ValueError
  | x :: t => if x =? c then Ok O
              else match index c t with
                   | Ok i => Ok (S i)
                   | Raise e => Raise e
                   end
  end.

(** [s.replace(old, new)]: the occurrences of [old] are found from the
    left and do not overlap; [skip] counts the characters of a found
    occurrence that are still to be dropped. *)
Fixpoint replace_from (old new : str) (skip : nat) (s : str) : str :=
  match s with
  | [] => []
  | c :: t =>
      match skip with
      | S k => replace_from old new k t
      | O => if startswith old s
             then new ++ replace_from old new (List.length old - 1) t
             else c :: replace_from old new 0 t
      end
  end.

Definition replace (old new s : str) : str :=
  match old with
  | [] => new ++ flat_map (fun c => c :: new) s
  | _ :: _ => replace_from old new 0 s
  end.

(** [c.isspace()] *)
Definition isspace (c : char) : bool :=
  ((9 <=? c) && (c <=? 13)) || ((28 <=? c) && (c <=? 32))
  || (c =? 133) || (c =? 160) || (c =? 5760)
  || ((8192 <=? c) && (c <=? 8202))
  || (c =? 8232) || (c =? 8233) || (c =? 8239) || (c =? 8287)
  || (c =? 12288).

Fixpoint lstrip (s : str) : str :=
  match s with
  | [] => []
  | c :: t => if isspace c then lstrip t else s
  end.

Definition rstrip (s : str) : str := rev (lstrip (rev s)).

(** [s.strip()] *)
Definition strip (s : str) : str := rstrip (lstrip s).

(** [s.split(c)] for a one-character separator [c] *)
Fixpoint split (c : char) (s : str) : list str :=
  match s with
  | [] => [[]]
  | x :: t =>
      if x =? c then [] :: split c t
      else match split c t with
           | p :: ps => (x :: p) :: ps
           | [] => [[x]]
           end
  end.

(** [s.lower()] on Basic Latin and Latin-1: A-Z and the capital letters
    U+00C0-U+00DE (without the multiplication sign U+00D7) move down by
    32; the model leaves every other code point in place. *)
Definition lower_char (c : char) : char :=
  if ((65 <=? c) && (c <=? 90))
     || ((192 <=? c) && (c <=? 222) && negb (c =? 215))
  then c + 32 else c.

Definition lower (s : str) : str := map lower_char s.

(** [s.upper()] on the same range: a-z and U+00E0-U+00FE (without the
    division sign U+00F7) move up by 32.  The sharp s and the y with
    diaeresis, whose capitals lie outside Latin-1, stay in place in
    the model. *)
Definition upper_char (c : char) : char :=
  if ((97 <=? c) && (c <=? 122))
     || ((224 <=? c) && (c <=? 254) && negb (c =? 247))
  then c - 32 else c.

Definition upper (s : str) : str := map upper_char s.

Definition is_digit (c : char) : bool := (48 <=? c) && (c <=? 57).

Fixpoint all_digits (s : str) : bool :=
  match s with
  | [] => true
  | c :: t => is_digit c && all_digits t
  end.

(** The leading digits of [s] and what follows them. *)
Fixpoint span_digits (s : str) : str * str :=
  match s with
  | [] => ([], [])
  | c :: t => if is_digit c
              then let (d, r) := span_digits t in (c :: d, r)
              else ([], s)
  end.

(** [int(ds)] for a string of digits, most significant first. *)
Fixpoint digits_value (acc : N) (ds : str) : N :=
  match ds with
  | [] => acc
  | c :: t => digits_value (10 * acc + (c - 48)) t
  end.

(** [str(n)] for a Python [int] *)
Fixpoint digits_of_fuel (fuel : nat) (n : N) (acc : str) : str :=
  match fuel with
  | O => acc
  | S f => let acc' := (48 + n mod 10) :: acc in
           if n <? 10 then acc' else digits_of_fuel f (n / 10) acc'
  end.

Definition digits_of (n : N) : str :=
  digits_of_fuel (S (N.to_nat (N.size n))) n [].

Definition str_of_int (z : Z) : str :=
  match z with
  | Z0 => digits_of 0
  | Zpos p => digits_of (Npos p)
  | Zneg p => 45 :: digits_of (Npos p)
  end.

End Str.

Import Str.

(** ** [decimal.Decimal] *)

Module Dec.

(** A finite number is [(-1)^sign * coeff * 10^exp]. *)
Inductive Decimal : Type :=
| Finite (sign : bool) (coeff : N) (exp : Z)
| Infinity (sign : bool)
| NaN (sign : bool) (signaling : bool) (payload : N).

Local Open Scope Z_scope.

(** The default context. *)
Definition prec : Z := 28.
Definition Emax : Z := 999999.
Definition Emin : Z := -999999.
Definition Etiny : Z := Emin - prec + 1.
Definition Etop : Z := Emax - prec + 1.

Definition signed (s : bool) (c : N) : Z :=
  if s then - Z.of_N c else Z.of_N c.

(** [len(str(c))] *)
Fixpoint ndigits_fuel (fuel : nat) (c : Z) : Z :=
  match fuel with
  | O => 1
  | S f => if c <? 10 then 1 else 1 + ndigits_fuel f (c / 10)
  end.

Definition ndigits (c : Z) : Z := ndigits_fuel (Z.to_nat (Z.log2 c)) c.

(** [c / 10^k] rounded to the nearest integer, ties to even. *)
Definition round_half_even (c k : Z) : Z :=
  let p := 10 ^ k in
  let q := c / p in
  let r := c mod p in
  if 2 * r <? p then q
  else if p <? 2 * r then q + 1
  else if Z.even q then q else q + 1.

(** [Decimal._fix]: the rounding every arithmetic result goes through.
    Of the signals it can raise only Overflow is trapped. *)
Definition fix_ (s : bool) (c : Z) (e : Z) : exc Decimal :=
  if c =? 0 then Ok (Finite s 0 (Z.min (Z.max e Etiny) Emax))
  else
    let exp_min := ndigits c + e - prec in
    if Etop <? exp_min then Raise Overflow
    else
      let exp_min := Z.max exp_min Etiny in
      if e <? exp_min then
        let q := round_half_even c (exp_min - e) in
        if prec <? ndigits q then
          if Etop <? exp_min + 1 then Raise Overflow
          else Ok (Finite s (Z.to_N (q / 10)) (exp_min + 1))
        else Ok (Finite s (Z.to_N q) exp_min)
      else Ok (Finite s (Z.to_N c) e).

(** [Decimal._fix_nan]: a payload keeps its last [prec] digits. *)
Definition fix_nan (s : bool) (payload : N) : Decimal :=
  NaN s false (Z.to_N (Z.of_N payload mod 10 ^ prec)).

(** [Decimal._check_nans] of a binary operation: a signaling NaN raises,
    a quiet one is the result. *)
Definition check_nans (a b : Decimal) : exc (option Decimal) :=
  match a, b with
  | NaN _ true _, _ => Raise InvalidOperation
  | _, NaN _ true _ => Raise InvalidOperation
  | NaN s false p, _ => Ok (Some (fix_nan s p))
  | _, NaN s false p => Ok (Some (fix_nan s p))
  | _, _ => Ok None
  end.

(** [a + b] *)
Definition add (a b : Decimal) : exc Decimal :=
  n <- check_nans a b ;;
  match n with
  | Some r => Ok r
  | None =>
      match a, b with
      | Infinity s1, Infinity s2 =>
          if Bool.eqb s1 s2 then Ok a else Raise InvalidOperation
      | Infinity _, _ => Ok a
      | _, Infinity _ => Ok b
      | Finite s1 c1 e1, Finite s2 c2 e2 =>
          let e := Z.min e1 e2 in
          let v := signed s1 c1 * 10 ^ (e1 - e)
                   + signed s2 c2 * 10 ^ (e2 - e) in
          if v =? 0
          then fix_ (if (c1 =? 0)%N && (c2 =? 0)%N then s1 && s2 else false)
                    0 e
          else fix_ (v <? 0) (Z.abs v) e
      | _, _ => Ok a
      end
  end.

(** [d.copy_negate()] *)
Definition copy_negate (d : Decimal) : Decimal :=
  match d with
  | Finite s c e => Finite (negb s) c e
  | Infinity s => Infinity (negb s)
  | NaN s g p => NaN (negb s) g p
  end.

(** [a - b] *)
Definition sub (a b : Decimal) : exc Decimal :=
  n <- check_nans a b ;;
  match n with
  | Some r => Ok r
  | None => add a (copy_negate b)
  end.

(** [abs(d)] *)
Definition abs (d : Decimal) : exc Decimal :=
  match d with
  | NaN _ true _ => Raise InvalidOperation
  | NaN s false p => Ok (fix_nan s p)
  | Infinity _ => Ok (Infinity false)
  | Finite _ c e => fix_ false (Z.of_N c) e
  end.

(** [Decimal._cmp] on numbers: the exact order of the two values. *)
Definition cmp (a b : Decimal) : comparison :=
  match a, b with
  | Finite s1 c1 e1, Finite s2 c2 e2 =>
      let e := Z.min e1 e2 in
      Z.compare (signed s1 c1 * 10 ^ (e1 - e)) (signed s2 c2 * 10 ^ (e2 - e))
  | Infinity s1, Infinity s2 =>
      if Bool.eqb s1 s2 then Eq else if s1 then Lt else Gt
  | Infinity s1, _ => if s1 then Lt else Gt
  | _, Infinity s2 => if s2 then Gt else Lt
  | _, _ => Eq
  end.

Definition is_nan (d : Decimal) : bool :=
  match d with
  | NaN _ _ _ => true
  | _ => false
  end.

(** [a < b]: an ordering comparison that involves a NaN signals
    InvalidOperation, which the default context traps. *)
Definition lt (a b : Decimal) : exc bool :=
  if is_nan a || is_nan b then Raise InvalidOperation
  else Ok (match cmp a b with Lt => true | _ => false end).

(** [a > b] *)
Definition gt (a b : Decimal) : exc bool :=
  if is_nan a || is_nan b then Raise InvalidOperation
  else Ok (match cmp a b with Gt => true | _ => false end).

(** [a == b]: never signals for a quiet NaN, which equals nothing. *)
Definition eq (a b : Decimal) : bool :=
  if is_nan a || is_nan b then false
  else match cmp a b with Eq => true | _ => false end.

(** [Decimal(n)] for a Python [int] *)
Definition of_int (z : Z) : Decimal := Finite (z <? 0) (Z.to_N (Z.abs z)) 0.

(** *** The constructor [Decimal(s)] for a string

    The text is stripped and its underscores removed; what is left is an
    optional sign followed by digits with an optional point and an optional
    exponent, or by [Inf], [Infinity], [NaN] or [sNaN] in any letter case.
    The conversion is exact: the context does not round a constructed
    value.  The model reads the ASCII digits and letters. *)

Definition ascii_lower (s : str) : str :=
  map (fun c => if ((65 <=? c) && (c <=? 90))%N then (c + 32)%N else c) s.

Definition parse_sign (s : str) : bool * str :=
  match s with
  | 45%N :: t => (true, t)
  | 43%N :: t => (false, t)
  | _ => (false, s)
  end.

Definition parse_exponent (s : str) : option Z :=
  match s with
  | [] => Some 0
  | c :: t =>
      if ((c =? 101) || (c =? 69))%N then
        let (neg, ds) := parse_sign t in
        match ds with
        | [] => None
        | _ :: _ =>
            if all_digits ds
            then Some (signed neg (digits_value 0 ds))
            else None
        end
      else None
  end.

Definition parse_number (s : str) : option (N * Z) :=
  let (ip, r1) := span_digits s in
  let (fp, r2) := match r1 with
                  | 46%N :: t => span_digits t
                  | _ => ([], r1)
                  end in
  match ip ++ fp with
  | [] => None
  | ds =>
      match parse_exponent r2 with
      | Some e => Some (digits_value 0 ds, e - Z.of_nat (List.length fp))
      | None => None
      end
  end.

Definition parse_special (neg : bool) (s : str) : option Decimal :=
  let l := ascii_lower s in
  if Str.eqb l (py "inf") || Str.eqb l (py "infinity")
  then Some (Infinity neg)
  else if startswith (py "nan") l && all_digits (skipn 3 l)
  then Some (NaN neg false (digits_value 0 (skipn 3 l)))
  else if startswith (py "snan") l && all_digits (skipn 4 l)
  then Some (NaN neg true (digits_value 0 (skipn 4 l)))
  else None.

(** [None] stands for the InvalidOperation (ConversionSyntax) that the
    constructor raises on any other text. *)
Definition of_str (s : str) : option Decimal :=
  let (neg, body) := parse_sign (replace (py "_") [] (strip s)) in
  match parse_number body with
  | Some (c, e) => Some (Finite neg c e)
  | None => parse_special neg body
  end.

End Dec.

Import Dec.

(** ** Python [float] *)

Module Flt.

(** The arithmetic of [float] is that of binary64, for which the primitive
    floats stand.  [0.01] is not a binary64 number; the literal denotes its
    nearest neighbour, written here in hexadecimal. *)
Definition cent : float := 0x1.47ae147ae147bp-7%float.

(** [float(d)] of a finite [Decimal] is [float(str(d))]: the binary64
    number nearest to the exact decimal value, ties to even.  For a
    negative exponent the quotient is taken with at least 64 significant
    bits and a sticky bit below them, which [binary_normalize] then rounds
    once. *)
Definition nearest_binary64 (s : bool) (c : N) (e : Z) : spec_float :=
  (if (c =? 0)%N then S754_zero s
   else if 0 <=? e
   then binary_normalize 53 1024 (signed s c * 10 ^ e) 0 s
   else
     let p := 10 ^ (- e) in
     let sh := Z.log2 p + 64 in
     let n := Z.of_N c * 2 ^ sh in
     let m := 2 * (n / p) + (if n mod p =? 0 then 0 else 1) in
     binary_normalize 53 1024 (if s then - m else m) (- sh - 1) s)%Z.

(** [Decimal.__float__]: a signaling NaN cannot be converted. *)
Definition of_Decimal (d : Decimal) : exc float :=
  match d with
  | NaN _ true _ => Raise ValueError
  | NaN _ false _ => Ok nan
  | Infinity s => Ok (if s then neg_infinity else infinity)
  | Finite s c e => Ok (SF2Prim (nearest_binary64 s c e))
  end.

(** What [str(x)] can be for a float [x]: [nan], [inf], [-inf], a fixed
    notation with a point ([-23700.0], [0.001]) or a scientific one
    ([1e+16], [1.5e-07]).  A digit [d] is written [48 + d mod 10]. *)
Inductive float_repr : Type :=
| repr_nan
| repr_inf (neg : bool)
| repr_fixed (neg : bool) (i0 : N) (i : list N) (f0 : N) (f : list N)
| repr_sci (neg : bool) (d0 : N) (f : list N)
           (eneg : bool) (e0 e1 : N) (e : list N).

Definition digit_chars (ds : list N) : str :=
  map (fun d => (48 + d mod 10)%N) ds.

Definition sign_chars (neg : bool) : str := if neg then [45%N] else [].

Definition str_of_float (r : float_repr) : str :=
  match r with
  | repr_nan => py "nan"
  | repr_inf neg => sign_chars neg ++ py "inf"
  | repr_fixed neg i0 i f0 f =>
      sign_chars neg ++ digit_chars (i0 :: i) ++ [46%N]
      ++ digit_chars (f0 :: f)
  | repr_sci neg d0 f eneg e0 e1 e =>
      sign_chars neg ++ digit_chars [d0]
      ++ match f with
         | [] => []
         | _ :: _ => 46%N :: digit_chars f
         end
      ++ [101%N] ++ [if eneg then 45%N else 43%N]
      ++ digit_chars (e0 :: e1 :: e)
  end.

End Flt.

Import Flt.

(** ** Values handed to the analysers

    The draft extraction is decoded JSON: an amount arrives as a string, an
    [int], a [float] or a [bool], the values [v] for which
    [isinstance(v, (int, float, str))] holds ([bool] is a subclass of
    [int]); a float is known to [parse_german_amount] only through [str]. *)

Inductive PyValue : Type :=
| PyStr (s : str)
| PyInt (n : Z)
| PyFloat (x : float_repr)
| PyBool (b : bool).

(** The text of [v]. *)
Definition str_ (v : PyValue) : str :=
  match v with
  | PyStr s => s
  | PyInt n => str_of_int n
  | PyFloat x => str_of_float x
  | PyBool true => py "True"
  | PyBool false => py "False"
  end.

(** The interpreter's default limit on the digits of an [int] that is
    turned into text or read from it ([sys.int_info.default_max_str_digits]). *)
Definition int_max_str_digits : Z := 4300.

(** [str(v)]: the text of [v]; for an [int] of more digits than the limit
    the conversion raises ValueError. *)
Definition str_of (v : PyValue) : exc str :=
  match v with
  | PyInt n =>
      if (10 ^ int_max_str_digits <=? Z.abs n)%Z then Raise ValueError
      else Ok (str_ v)
  | _ => Ok (str_ v)
  end.

(** [Decimal(s)], raising on a text the constructor rejects. *)
Definition Decimal_ (s : str) : exc Decimal :=
  match Dec.of_str s with
  | Some d => Ok d
  | None => Raise InvalidOperation
  end.

(** [Decimal(str(v))] *)
Definition Decimal_str (v : PyValue) : exc Decimal :=
  s <- str_of v ;;
  Decimal_ s.

(** ** [parse_german_amount] (v7 lines 23-76, v8 lines 23-74)

    The result is the returned [Decimal] together with the warnings the
    call sends to the logger. *)

Definition dot : char := 46%N.
Definition comma : char := 44%N.

(** The text of [amount_str] after the format detection. *)
Definition detect_format (amount_str : str) : exc str :=
  let num_dots := count dot amount_str in
  let num_commas := count comma amount_str in
  if (num_commas =? 1)%nat && (num_dots <=? 1)%nat then
    if (num_dots =? 1)%nat then
      dot_pos <- index dot amount_str ;;
      comma_pos <- index comma amount_str ;;
      if (dot_pos <? comma_pos)%nat
      then Ok (replace [comma] [dot] (replace [dot] [] amount_str))
      else Ok (replace [comma] [] amount_str)
    else Ok (replace [comma] [dot] amount_str)
  else if (num_dots =? 1)%nat && (num_commas =? 0)%nat then
    let parts := split dot amount_str in
    if (List.length parts =? 2)%nat
       && (List.length (nth 1 parts []) =? 2)%nat
    then Ok amount_str
    else if (List.length parts =? 2)%nat
            && (List.length (nth 1 parts []) =? 3)%nat
    then Ok (replace [dot] [] amount_str)
    else Ok amount_str
  else if (1 <? num_dots)%nat then
    Ok (replace [comma] [dot] (replace [dot] [] amount_str))
  else Ok amount_str.

(** [str(amount_str).replace('EUR', '').strip().replace('+', '').replace(' ', '')] *)
Definition clean (s : str) : str :=
  replace (py " ") [] (replace (py "+") [] (strip (replace (py "EUR") [] s))).

Definition warning_text (amount_str : str) : str :=
  py "Konnte Betrag nicht parsen: " ++ amount_str.

Definition parse_german_amount (amount_str : PyValue)
  : exc (Decimal * list str) :=
  match amount_str with
  | PyInt _ | PyFloat _ | PyBool _ =>
      s <- str_of amount_str ;;
      d <- Decimal_ s ;;
      Ok (d, [])
  | PyStr _ =>
      amount_str <- detect_format (clean (str_ amount_str)) ;;
      match Decimal_ amount_str with
      | Ok d => Ok (d, [])
      | Raise _ => Ok (Finite false 0 0, [warning_text amount_str])
      end
  end.

(** The value of a call whose warnings go to the logger. *)
Definition returned {A L : Type} (m : exc (A * L)) : exc A :=
  r <- m ;; Ok (fst r).

(** ** [validate_number_conversion] (v8 lines 77-97) *)

Inductive conversion_report : Type :=
| Checked (original_string : str) (llm_converted python_converted : float)
          (conversion_match : bool) (difference : float)
| Failed (original_string : str) (llm_converted : float) (error : pyexc).

Definition python_converted (r : conversion_report) : option float :=
  match r with
  | Checked _ _ p _ _ => Some p
  | Failed _ _ _ => None
  end.

Definition conversion_match (r : conversion_report) : bool :=
  match r with
  | Checked _ _ _ m _ => m
  | Failed _ _ _ => false
  end.

Definition validate_number_conversion (original : str) (converted : float)
  : conversion_report :=
  match (d <- returned (parse_german_amount (PyStr original)) ;;
         Flt.of_Decimal d) with
  | Ok python_converted =>
      let diff := PrimFloat.abs (PrimFloat.sub python_converted converted) in
      let match_ := PrimFloat.ltb diff cent in
      Checked original converted python_converted match_
              (if negb match_ then diff else 0%float)
  | Raise e => Failed original converted e
  end.

(** ** [classify_transaction_type] (v6 lines 52-84, v7 lines 94-126) *)

Inductive Art : Type :=
| Wertpapierverkauf
| Wertpapierkauf
| Wertpapierabrechnung
| Wertpapier_Sperrbetraege
| Ueberweisung_ausgehend
| Ueberweisung_eingehend
| Gutschrift
| Lastschrift
| Depotentgelt
| Entgeltabrechnung
| Verwahrentgelt
| Abrechnung
| Eingang
| Ausgang.

(** The string the function returns for each case. *)
Definition art_text (a : Art) : str :=
  match a with
  | Wertpapierverkauf => py "Wertpapierverkauf"
  | Wertpapierkauf => py "Wertpapierkauf"
  | Wertpapierabrechnung => py "Wertpapierabrechnung"
  | Wertpapier_Sperrbetraege => py "Wertpapier-Sperrbeträge"
  | Ueberweisung_ausgehend => py "Überweisung ausgehend"
  | Ueberweisung_eingehend => py "Überweisung eingehend"
  | Gutschrift => py "Gutschrift"
  | Lastschrift => py "Lastschrift"
  | Depotentgelt => py "Depotentgelt"
  | Entgeltabrechnung => py "Entgeltabrechnung"
  | Verwahrentgelt => py "Verwahrentgelt"
  | Abrechnung => py "Abrechnung"
  | Eingang => py "Eingang"
  | Ausgang => py "Ausgang"
  end.

Definition classify_transaction_type (description : str) (betrag : Decimal)
  : exc Art :=
  let desc_lower := lower description in
  if contains (py "wertpapierabrechnung") desc_lower
     || contains (py "wertp.") desc_lower then
    if contains (py "vv") description || contains (py "verkauf") desc_lower
    then Ok Wertpapierverkauf
    else if contains (py "kv") description || contains (py "kauf") desc_lower
    then Ok Wertpapierkauf
    else Ok Wertpapierabrechnung
  else if contains (py "durchlfd") desc_lower
          && contains (py "sperrbetr") desc_lower then
    Ok Wertpapier_Sperrbetraege
  else if contains (py "überweisung") desc_lower
          || contains (py "übertrag") desc_lower then
    neg <- Dec.lt betrag (Dec.of_int 0) ;;
    Ok (if neg then Ueberweisung_ausgehend else Ueberweisung_eingehend)
  else if contains (py "gutschriftseingang") desc_lower then Ok Gutschrift
  else if contains (py "lastschr") desc_lower then Ok Lastschrift
  else if contains (py "depotentgelt") desc_lower then Ok Depotentgelt
  else if contains (py "entgeltabrechnung") desc_lower then
    Ok Entgeltabrechnung
  else if contains (py "abrechnung") desc_lower then
    if contains (py "verwahrentgelt") desc_lower
    then Ok Verwahrentgelt
    else Ok Abrechnung
  else
    pos <- Dec.gt betrag (Dec.of_int 0) ;;
    Ok (if pos then Eingang else Ausgang).

(** ** The balance check: [validate_with_python] (v7 lines 346-388) and
       [validate_with_python_v8] (v8 lines 289-356) *)

(** A balance of the draft is an amount or a mapping whose entry
    [betrag] is the amount. *)
Inductive saldo_data : Type :=
| Scalar (v : PyValue)
| Mapping (betrag : option PyValue).

(** [data] if it is an [int], a [float] or a [str], else
    [data.get("betrag", 0)] *)
Definition saldo_betrag (data : saldo_data) : PyValue :=
  match data with
  | Scalar v => v
  | Mapping (Some v) => v
  | Mapping None => PyInt 0
  end.

(** The draft extraction of one statement.  A transaction is given by its
    entry [betrag]; [None] stands for a transaction without one. *)
Record llm_result : Type := {
  auszug_nummer : option PyValue;
  anfangssaldo : saldo_data;
  endsaldo : saldo_data;
  transaktionen : list (option PyValue)
}.

(** [t.get("betrag", 0)] *)
Definition get_betrag (t : option PyValue) : PyValue :=
  match t with
  | Some v => v
  | None => PyInt 0
  end.

(** The local variables of the check when it reaches its [return]. *)
Record salden : Type := {
  l_anfangssaldo : Decimal;
  l_endsaldo : Decimal;
  l_summe : Decimal;
  l_berechneter_saldo : Decimal;
  l_differenz : Decimal
}.

(** The returned mapping, without its text entry [formel]. *)
Record pruefung : Type := {
  pv_anfangssaldo : float;
  endsaldo_aus_dokument : float;
  transaktionen_summe : float;
  berechneter_endsaldo : float;
  differenz : float;
  validierung_ok : bool
}.

Inductive python_validierung : Type :=
| Validiert (p : pruefung)
| Fehler (error : pyexc).

(** [summe = Decimal('0'); for t in ...: summe += parse_german_amount(...)] *)
Fixpoint summiere (summe : Decimal) (ts : list (option PyValue))
  : exc Decimal :=
  match ts with
  | [] => Ok summe
  | t :: rest =>
      betrag <- returned (parse_german_amount (get_betrag t)) ;;
      summe' <- Dec.add summe betrag ;;
      summiere summe' rest
  end.

(** v7 lines 370-372, v8 lines 333-335 *)
Definition berechne (anfangssaldo endsaldo summe : Decimal) : exc salden :=
  berechneter_saldo <- Dec.add anfangssaldo summe ;;
  d <- Dec.sub berechneter_saldo endsaldo ;;
  differenz <- Dec.abs d ;;
  Ok {| l_anfangssaldo := anfangssaldo; l_endsaldo := endsaldo;
        l_summe := summe; l_berechneter_saldo := berechneter_saldo;
        l_differenz := differenz |}.

(** [Decimal('0.01')] *)
Definition tolerance : Decimal := Finite false 1 (-2).

(** v7 lines 374-382, v8 lines 340-347: the mapping built from the local
    variables. *)
Definition bericht (l : salden) : exc pruefung :=
  a <- Flt.of_Decimal (l_anfangssaldo l) ;;
  e <- Flt.of_Decimal (l_endsaldo l) ;;
  s <- Flt.of_Decimal (l_summe l) ;;
  b <- Flt.of_Decimal (l_berechneter_saldo l) ;;
  d <- Flt.of_Decimal (l_differenz l) ;;
  ok <- Dec.lt (l_differenz l) tolerance ;;
  Ok {| pv_anfangssaldo := a; endsaldo_aus_dokument := e;
        transaktionen_summe := s; berechneter_endsaldo := b;
        differenz := d; validierung_ok := ok |}.

(** [try: ... except Exception as e: return {"error": ..., "validierung_ok": False}] *)
Definition try_pruefung (m : exc pruefung) : python_validierung :=
  match m with
  | Ok p => Validiert p
  | Raise e => Fehler e
  end.

Definition validate_locals (r : llm_result) : exc salden :=
  anfangssaldo <- returned (parse_german_amount (saldo_betrag (anfangssaldo r))) ;;
  endsaldo <- returned (parse_german_amount (saldo_betrag (endsaldo r))) ;;
  summe <- summiere (Finite false 0 0) (transaktionen r) ;;
  berechne anfangssaldo endsaldo summe.

Definition validate_with_python (r : llm_result) : python_validierung :=
  try_pruefung (l <- validate_locals r ;; bericht l).

(** In v8 each amount is first resolved against the audited conversions
    (lines 296-330, through [str] of a float); the embedding takes the
    resolved [Decimal]s and starts at the summation. *)
Fixpoint summiere_v8 (summe : Decimal) (betraege : list Decimal)
  : exc Decimal :=
  match betraege with
  | [] => Ok summe
  | betrag :: rest =>
      summe' <- Dec.add summe betrag ;;
      summiere_v8 summe' rest
  end.

Definition validate_locals_v8 (anfangssaldo endsaldo : Decimal)
    (betraege : list Decimal) : exc salden :=
  summe <- summiere_v8 (Finite false 0 0) betraege ;;
  berechne anfangssaldo endsaldo summe.

Record pruefung_v8 : Type := {
  pruefung_of : pruefung;
  conversion_errors : nat;
  total_conversions : nat
}.

Inductive python_validierung_v8 : Type :=
| Validiert_v8 (p : pruefung_v8)
| Fehler_v8 (error : pyexc).

Definition validate_with_python_v8 (anfangssaldo endsaldo : Decimal)
    (betraege : list Decimal) (conversions : list conversion_report)
  : python_validierung_v8 :=
  match (l <- validate_locals_v8 anfangssaldo endsaldo betraege ;;
         bericht l) with
  | Ok p =>
      Validiert_v8
        {| pruefung_of := p;
           conversion_errors :=
             List.length
               (filter (fun c => negb (conversion_match c)) conversions);
           total_conversions := List.length conversions |}
  | Raise e => Fehler_v8 e
  end.

(** ** Continuity between consecutive statements *)

(** [l[i]] *)
Definition item {A : Type} (l : list A) (i : nat) : exc A :=
  match nth_error l i with
  | Some a => Ok a
  | None => Raise IndexError
  end.

(** [range(n)], empty when [n] is not positive *)
Definition range (n : Z) : list nat := seq 0 (Z.to_nat n).

(** A loop that appends one result per element and stops at the first
    exception. *)
Fixpoint for_each {A B : Type} (body : A -> exc B) (l : list A)
  : exc (list B) :=
  match l with
  | [] => Ok []
  | a :: rest =>
      b <- body a ;;
      bs <- for_each body rest ;;
      Ok (b :: bs)
  end.

Record kontinuitaet_check : Type := {
  auszug_von : PyValue;
  auszug_nach : PyValue;
  endsaldo_von : float;
  anfangssaldo_nach : float;
  kontinuitaet_ok : bool;
  k_differenz : float
}.

Record kontinuitaet : Type := {
  kontinuitaet_pruefungen : list kontinuitaet_check;
  alle_ok : bool
}.

(** [a.get("auszug_nummer", "?")] *)
Definition nummer_or_unknown (n : option PyValue) : PyValue :=
  match n with
  | Some v => v
  | None => PyStr (py "?")
  end.

(** *** [check_continuity] (v7 lines 391-428) *)

Definition check_pair (current next_stmt : llm_result)
  : exc kontinuitaet_check :=
  current_end <-
    returned (parse_german_amount (saldo_betrag (endsaldo current))) ;;
  next_start <-
    returned (parse_german_amount (saldo_betrag (anfangssaldo next_stmt))) ;;
  d <- Dec.sub current_end next_start ;;
  diff <- Dec.abs d ;;
  kontinuitaet_ok <- Dec.lt diff tolerance ;;
  von <- Flt.of_Decimal current_end ;;
  nach <- Flt.of_Decimal next_start ;;
  differenz <- Flt.of_Decimal diff ;;
  Ok {| auszug_von := nummer_or_unknown (auszug_nummer current);
        auszug_nach := nummer_or_unknown (auszug_nummer next_stmt);
        endsaldo_von := von;
        anfangssaldo_nach := nach;
        kontinuitaet_ok := kontinuitaet_ok;
        k_differenz := differenz |}.

Definition check_continuity (analysen : list llm_result) : exc kontinuitaet :=
  checks <-
    for_each (fun i =>
                current <- item analysen i ;;
                next_stmt <- item analysen (i + 1) ;;
                check_pair current next_stmt)
             (range (Z.of_nat (List.length analysen) - 1)) ;;
  Ok {| kontinuitaet_pruefungen := checks;
        alle_ok := forallb kontinuitaet_ok checks |}.

(** *** [check_continuity_v8] (v8 lines 359-386) *)

Record analyse_v8 : Type := {
  auszug_nummer_v8 : option PyValue;
  python_validierung_of : python_validierung_v8
}.

(** [a["python_validierung"][key]]: the mapping of a failed check has
    neither balance. *)
Definition validated (a : analyse_v8) : exc pruefung :=
  match python_validierung_of a with
  | Validiert_v8 p => Ok (pruefung_of p)
  | Fehler_v8 _ => Raise KeyError
  end.

Definition check_pair_v8 (current next_stmt : analyse_v8)
  : exc kontinuitaet_check :=
  pc <- validated current ;;
  pn <- validated next_stmt ;;
  let current_end := endsaldo_aus_dokument pc in
  let next_start := pv_anfangssaldo pn in
  let diff := PrimFloat.abs (PrimFloat.sub current_end next_start) in
  let kontinuitaet_ok := PrimFloat.ltb diff cent in
  Ok {| auszug_von := nummer_or_unknown (auszug_nummer_v8 current);
        auszug_nach := nummer_or_unknown (auszug_nummer_v8 next_stmt);
        endsaldo_von := current_end;
        anfangssaldo_nach := next_start;
        kontinuitaet_ok := kontinuitaet_ok;
        k_differenz := diff |}.

Definition check_continuity_v8 (analysen : list analyse_v8)
  : exc kontinuitaet :=
  checks <-
    for_each (fun i =>
                current <- item analysen i ;;
                next_stmt <- item analysen (i + 1) ;;
                check_pair_v8 current next_stmt)
             (range (Z.of_nat (List.length analysen) - 1)) ;;
  Ok {| kontinuitaet_pruefungen := checks;
        alle_ok := forallb kontinuitaet_ok checks |}.

(** *** Sorting

    [sorted(l, key=...)] on keys that are [int]s: stable, so an insertion
    from the right that puts an element before the first one that is not
    smaller. *)
Fixpoint insert_by {A : Type} (key : A -> Z) (x : A) (l : list A) : list A :=
  match l with
  | [] => [x]
  | y :: t => if (key x <=? key y)%Z then x :: l else y :: insert_by key x t
  end.

Definition sorted_by {A : Type} (key : A -> Z) (l : list A) : list A :=
  fold_right (insert_by key) [] l.

(** ** Vocabulary of the statements *)

(** An amount with at most [k] decimal places: a finite number whose
    exponent lies between [-k] and [0]. *)
Definition amount (k : Z) (d : Decimal) : Prop :=
  match d with
  | Finite _ _ e => (- k <= e <= 0)%Z
  | _ => False
  end.

(** The exact value of an amount in units of [10^-k]. *)
Definition units (k : Z) (d : Decimal) : Z :=
  match d with
  | Finite s c e => (signed s c * 10 ^ (e + k))%Z
  | _ => 0%Z
  end.

Definition exponent (d : Decimal) : Z :=
  match d with
  | Finite _ _ e => e
  | _ => 0%Z
  end.

(** The exact sum of a list of amounts, and the sum of their magnitudes. *)
Definition sum_units (k : Z) (es : list Decimal) : Z :=
  fold_right (fun d a => (units k d + a)%Z) 0%Z es.

Definition sum_abs (k : Z) (es : list Decimal) : Z :=
  fold_right (fun d a => (Z.abs (units k d) + a)%Z) 0%Z es.

Definition min_exp (e0 : Z) (es : list Decimal) : Z :=
  fold_right (fun d m => Z.min (exponent d) m) e0 es.

(** The number [v * 10^e] as arithmetic produces it: a zero is positive. *)
Definition mk (v e : Z) : Decimal :=
  Finite (v <? 0)%Z (Z.to_N (Z.abs v)) e.

(** The largest number of decimal places for which every exponent stays
    above [Etiny]. *)
Definition max_places : Z := 1000026.

(** The magnitude below which a coefficient needs no rounding. *)
Definition exact_bound : Z := (10 ^ 28)%Z.

(** The amount [parse_german_amount] returns for [v]; where the call
    raises, no amount: a NaN. *)
Definition parsed (v : PyValue) : Decimal :=
  match returned (parse_german_amount v) with
  | Ok d => d
  | Raise _ => NaN false false 0
  end.

(** A string, a float, or an [int] that is not a [bool] and whose text
    stays within the digit limit. *)
Definition within_limit (v : PyValue) : Prop :=
  match v with
  | PyBool _ => False
  | PyInt n => (Z.abs n < 10 ^ int_max_str_digits)%Z
  | _ => True
  end.

(** The float [float(d)] of a number. *)
Definition to_float (d : Decimal) : float :=
  match Flt.of_Decimal d with
  | Ok x => x
  | Raise _ => nan
  end.

(** ** Statements used as examples *)

Definition betrag_text (s : string) : option PyValue := Some (PyStr (py s)).

(** The statement that the v8 prompt works through: opening balance
    391214.64, eleven entries, closing balance 405107.75. *)
Definition auszug_beispiel : llm_result :=
  {| auszug_nummer := Some (PyInt 3);
     anfangssaldo := Mapping (betrag_text "391.214,64");
     endsaldo := Mapping (betrag_text "405.107,75");
     transaktionen :=
       map betrag_text
           ["-170,86"; "-1,95"; "37.000,00"; "-101.046,00"; "-100.480,00";
            "103.924,60"; "10.000,00"; "-11,25"; "41.989,54"; "-20.000,00";
            "42.689,03"]%string |}.

(** The same statement with its entries in another order. *)
Definition auszug_beispiel_umgestellt : llm_result :=
  {| auszug_nummer := Some (PyInt 3);
     anfangssaldo := Mapping (betrag_text "391.214,64");
     endsaldo := Mapping (betrag_text "405.107,75");
     transaktionen :=
       map betrag_text
           ["-1,95"; "-170,86"; "37.000,00"; "-101.046,00"; "-100.480,00";
            "103.924,60"; "10.000,00"; "-11,25"; "41.989,54"; "-20.000,00";
            "42.689,03"]%string |}.

(** A statement without entries whose document closing balance lies one
    unit below its opening balance. *)
Definition auszug_minus_eins : llm_result :=
  {| auszug_nummer := None;
     anfangssaldo := Scalar (PyInt 0);
     endsaldo := Scalar (PyInt (-1));
     transaktionen := [] |}.

(** Two entries whose exact sum has 29 digits. *)
Definition auszug_29_stellen : llm_result :=
  {| auszug_nummer := None;
     anfangssaldo := Scalar (PyInt 0);
     endsaldo := Scalar (PyInt 0);
     transaktionen :=
       [Some (PyInt 9999999999999999999999999999); Some (PyInt 2)] |}.

(** Three entries that cancel, of which two have 29 digits, in two orders. *)
Definition auszug_gross_a : llm_result :=
  {| auszug_nummer := None;
     anfangssaldo := Scalar (PyInt 0);
     endsaldo := Scalar (PyInt 0);
     transaktionen :=
       [Some (PyInt 10000000000000000000000000000); Some (PyInt 1);
        Some (PyInt (-10000000000000000000000000000))] |}.

Definition auszug_gross_b : llm_result :=
  {| auszug_nummer := None;
     anfangssaldo := Scalar (PyInt 0);
     endsaldo := Scalar (PyInt 0);
     transaktionen :=
       [Some (PyInt 10000000000000000000000000000);
        Some (PyInt (-10000000000000000000000000000)); Some (PyInt 1)] |}.

(** The result of the check, when it has one. *)
Definition pruefung_von (v : python_validierung) : option pruefung :=
  match v with
  | Validiert p => Some p
  | Fehler _ => None
  end.

Definition pruefung_von_v8 (v : python_validierung_v8) : option pruefung :=
  match v with
  | Validiert_v8 p => Some (pruefung_of p)
  | Fehler_v8 _ => None
  end.

(** The entries sum among the local values of a check that returned. *)
Definition l_summe_of (m : exc salden) : option Decimal :=
  match m with
  | Ok l => Some (l_summe l)
  | Raise _ => None
  end.

(** The pairs of neighbours of a list, from the left. *)
Fixpoint adjacent {A : Type} (l : list A) : list (A * A) :=
  match l with
  | [] => []
  | a :: t =>
      match t with
      | [] => []
      | b :: _ => (a, b) :: adjacent t
      end
  end.

(** The check of a pair of statements with checked balances [pa], [pb]. *)
Definition paar_check (a b : analyse_v8 * pruefung) : kontinuitaet_check :=
  let diff :=
    PrimFloat.abs (PrimFloat.sub (endsaldo_aus_dokument (snd a))
                                 (pv_anfangssaldo (snd b))) in
  {| auszug_von := nummer_or_unknown (auszug_nummer_v8 (fst a));
     auszug_nach := nummer_or_unknown (auszug_nummer_v8 (fst b));
     endsaldo_von := endsaldo_aus_dokument (snd a);
     anfangssaldo_nach := pv_anfangssaldo (snd b);
     kontinuitaet_ok := PrimFloat.ltb diff cent;
     k_differenz := diff |}.

(** A v8 analysis with a checked statement of the given balances. *)
Definition analyse_von (nr : Z) (o c : Decimal) (es : list Decimal)
  : analyse_v8 :=
  {| auszug_nummer_v8 := Some (PyInt nr);
     python_validierung_of := validate_with_python_v8 o c es [] |}.

(** Statement 4 closes at 450107.75; statement 5 opens at 450107.75;
    a variant of it opens at 450105.96. *)
Definition analyse_4 : analyse_v8 :=
  analyse_von 4 (Finite false 40510775 (-2)) (Finite false 45010775 (-2))
              [Finite false 4500000 (-2)].

Definition analyse_5 : analyse_v8 :=
  analyse_von 5 (Finite false 45010775 (-2)) (Finite false 45010580 (-2))
              [Finite true 195 (-2)].

Definition analyse_5_luecke : analyse_v8 :=
  analyse_von 5 (Finite false 45010596 (-2)) (Finite false 45010401 (-2))
              [Finite true 195 (-2)].




(** An analysis paired with the result of its balance check. *)
Definition checked (a : analyse_v8) : analyse_v8 * pruefung :=
  (a, match validated a with
      | Ok p => p
      | Raise _ =>
          {| pv_anfangssaldo := nan; endsaldo_aus_dokument := nan;
             transaktionen_summe := nan; berechneter_endsaldo := nan;
             differenz := nan; validierung_ok := false |}
      end).

(** The tests of [classify_transaction_type], by rule: the two rules
    that come before the transfers. *)
Definition security_rule (d : str) : bool :=
  contains (py "wertpapierabrechnung") (lower d)
  || contains (py "wertp.") (lower d)
  || (contains (py "durchlfd") (lower d)
      && contains (py "sperrbetr") (lower d)).

(** The rules that come before the one for [abrechnung]. *)
Definition earlier_rule (d : str) : bool :=
  security_rule d
  || contains (py "überweisung") (lower d)
  || contains (py "übertrag") (lower d)
  || contains (py "gutschriftseingang") (lower d)
  || contains (py "lastschr") (lower d)
  || contains (py "depotentgelt") (lower d)
  || contains (py "entgeltabrechnung") (lower d).

(** The amounts of the examples: -101046.00, 68700.16 and -11.25. *)
Definition betrag_kauf : Decimal := Finite true 10104600 (-2).
Definition betrag_eingang : Decimal := Finite false 6870016 (-2).
Definition betrag_entgelt : Decimal := Finite true 1125 (-2).

(** ** The German wire format of an amount

    An optional sign, groups of digits separated by points, a comma, the
    decimal digits, and an optional unit marker. *)

Inductive sign_mark : Type := NoSign | PlusSign | MinusSign.

Inductive unit_mark : Type := NoUnit | UnitEUR | SpaceUnitEUR.

Definition sign_text (m : sign_mark) : str :=
  match m with
  | NoSign => []
  | PlusSign => [43%N]
  | MinusSign => [45%N]
  end.

Definition unit_text (u : unit_mark) : str :=
  match u with
  | NoUnit => []
  | UnitEUR => py "EUR"
  | SpaceUnitEUR => py " EUR"
  end.

Fixpoint join_dot (groups : list str) : str :=
  match groups with
  | [] => []
  | g :: rest =>
      match rest with
      | [] => g
      | _ :: _ => g ++ dot :: join_dot rest
      end
  end.

(** The digits of an amount: [101.046,00] *)
Definition german_body (groups : list str) (frac : str) : str :=
  join_dot groups ++ comma :: frac.

(** [1.234,56], [-101.046,00 EUR] *)
Definition german_text (m : sign_mark) (groups : list str) (frac : str)
    (u : unit_mark) : str :=
  sign_text m ++ german_body groups frac ++ unit_text u.

(** [1234.56], [-101046.00] *)
Definition american_text (m : sign_mark) (groups : list str) (frac : str)
  : str :=
  sign_text m ++ List.concat groups ++ dot :: frac.

(** A non-empty run of digits. *)
Definition digit_group (g : str) : bool :=
  all_digits g && negb (Nat.eqb (List.length g) 0).

(** The characters of the groups and the decimals of an amount. *)
Definition amount_char (c : N) : bool :=
  is_digit c || (c =? dot)%N || (c =? comma)%N.

Definition is_minus (m : sign_mark) : bool :=
  match m with
  | MinusSign => true
  | _ => false
  end.

(** The sign that the cleaning keeps: it removes a plus. *)
Definition sign_kept (m : sign_mark) : str :=
  if is_minus m then [45%N] else [].

(** Characters that stripping and the removal of underscores leave alone. *)
Definition tight (c : N) : bool := negb (isspace c) && negb (c =? 95)%N.

(** The float nearest to -23.7, the claimed number of the audit example. *)
Definition claimed_23_7 : float := to_float (Finite true 237 (-1)).

Definition is_signaling (d : Decimal) : bool :=
  match d with
  | NaN _ true _ => true
  | _ => false
  end.

(** ** Proof automation *)

(** Evaluation of the side conditions of an example. *)
Ltac amount_by_computation :=
  lazymatch goal with
  | |- amount ?k ?d =>
      let d' := eval vm_compute in d in
      change (amount k d'); cbn [amount]; lia
  end.

Ltac amounts_by_computation :=
  repeat (first [ apply Forall_nil
                | apply Forall_cons; [amount_by_computation|] ]).

(** ** [parse_german_amount] of v6 (lines 22-34)

    The parser of the earlier versions: no format detection, every point
    is dropped and every comma becomes a point. *)

Definition parse_german_amount_v6 (amount_str : PyValue)
  : exc (Decimal * list str) :=
  match amount_str with
  | PyInt _ | PyFloat _ | PyBool _ =>
      s <- str_of amount_str ;;
      d <- Decimal_ s ;;
      Ok (d, [])
  | PyStr _ =>
      let amount_str := strip (replace (py "EUR") [] (str_ amount_str)) in
      let amount_str := replace [comma] [dot] (replace [dot] [] amount_str) in
      match Decimal_ amount_str with
      | Ok d => Ok (d, [])
      | Raise _ => Ok (Finite false 0 0, [warning_text amount_str])
      end
  end.

(** ** The balance check of v6 ([ask_llm_v6_analysis], lines 306-334)

    The balances of the draft are mappings, as the v6 prompt asks for
    them, given here by their entry [betrag]; each amount is read by
    [Decimal(str(...))]. *)

Record auszug_v6 : Type := {
  anfangssaldo_v6 : option PyValue;
  endsaldo_v6 : option PyValue;
  transaktionen_v6 : list (option PyValue)
}.

(** [trans_summe = Decimal('0'); for trans in ...: trans_summe += Decimal(str(trans.get('betrag', 0)))] *)
Fixpoint summiere_v6 (trans_summe : Decimal) (ts : list (option PyValue))
  : exc Decimal :=
  match ts with
  | [] => Ok trans_summe
  | trans :: rest =>
      betrag <- Decimal_str (get_betrag trans) ;;
      trans_summe' <- Dec.add trans_summe betrag ;;
      summiere_v6 trans_summe' rest
  end.

(** The body of the [try], without the text entry [formel]; an exception
    becomes the mapping [{'fehler': str(e)}]. *)
Definition validierung_v6 (r : auszug_v6) : exc pruefung :=
  anfang <- Decimal_str (get_betrag (anfangssaldo_v6 r)) ;;
  ende <- Decimal_str (get_betrag (endsaldo_v6 r)) ;;
  trans_summe <- summiere_v6 (Finite false 0 0) (transaktionen_v6 r) ;;
  berechnet <- Dec.add anfang trans_summe ;;
  differenz <- Dec.sub ende berechnet ;;
  a <- Flt.of_Decimal anfang ;;
  e <- Flt.of_Decimal ende ;;
  s <- Flt.of_Decimal trans_summe ;;
  b <- Flt.of_Decimal berechnet ;;
  d <- Flt.of_Decimal differenz ;;
  betrag_differenz <- Dec.abs differenz ;;
  ok <- Dec.lt betrag_differenz tolerance ;;
  Ok {| pv_anfangssaldo := a; endsaldo_aus_dokument := e;
        transaktionen_summe := s; berechneter_endsaldo := b;
        differenz := d; validierung_ok := ok |}.

(** ** Regular expressions: [re.search]

    The patterns of the analysers are sequences of single characters,
    character classes, greedy repetitions of a class and one capturing
    group.  The matcher tries the alternatives of a repetition from the
    longest to the shortest, and the search tries the start positions
    from the left, as the backtracking matcher of [re] does. *)

Module Re.

Inductive piece : Type :=
| One (p : N -> bool)
| Many (p : N -> bool)
| Open
| Close.

(** The match of a pattern at the start of [s]: the text of group 1.
    [on] tells whether the group is open, [g] holds its text so far, last
    character first. *)
Fixpoint match_here (p : list piece) (on : bool) (g : str) (s : str)
  : option str :=
  match p with
  | [] => Some (rev g)
  | One c :: p' =>
      match s with
      | x :: t =>
          if c x then match_here p' on (if on then x :: g else g) t else None
      | [] => None
      end
  | Many c :: p' =>
      (fix many (g : str) (s : str) {struct s} : option str :=
         match s with
         | x :: t =>
             if c x then
               match many (if on then x :: g else g) t with
               | Some r => Some r
               | None => match_here p' on g s
               end
             else match_here p' on g s
         | [] => match_here p' on g s
         end) g s
  | Open :: p' => match_here p' true g s
  | Close :: p' => match_here p' false g s
  end.

(** [re.search(p, s).group(1)], or [None] without a match *)
Fixpoint search (p : list piece) (s : str) : option str :=
  match match_here p false [] s with
  | Some g => Some g
  | None =>
      match s with
      | [] => None
      | _ :: t => search p t
      end
  end.

(** A literal text. *)
Definition lit (s : str) : list piece := map (fun c => One (N.eqb c)) s.

(** [c{n}] *)
Definition times (n : nat) (c : N -> bool) : list piece := repeat (One c) n.

(** [\d]: the decimal digits of Unicode 14.0, which come in runs of ten
    from the code points listed, and the mathematical digits
    U+1D7CE-U+1D7FF. *)
Definition decimal_runs : list N :=
  [48; 1632; 1776; 1984; 2406; 2534; 2662; 2790; 2918; 3046; 3174; 3302;
   3430; 3558; 3664; 3792; 3872; 4160; 4240; 6112; 6160; 6470; 6608; 6784;
   6800; 6992; 7088; 7232; 7248; 42528; 43216; 43264; 43472; 43504; 43600;
   44016; 65296; 66720; 68912; 69734; 69872; 69942; 70096; 70384; 70736;
   70864; 71248; 71360; 71472; 71904; 72016; 72784; 73040; 73120; 92768;
   92864; 93008; 123200; 123632; 125264; 130032]%N.

Definition isdecimal (c : N) : bool :=
  (existsb (fun lo => (lo <=? c) && (c <? lo + 10)) decimal_runs
   || ((120782 <=? c) && (c <? 120832)))%N.

(** [[A-Z]] and [[A-Z0-9]] *)
Definition capital (c : N) : bool := ((65 <=? c) && (c <=? 90))%N.

Definition capital_or_digit (c : N) : bool :=
  (capital c || ((48 <=? c) && (c <=? 57)))%N.

End Re.

Import Re.

(** ** [validate_statement_continuity] (v6 lines 348-382)

    The analyses are decoded JSON.  The function reads the entry
    [auszug_nummer] and the entries [betrag] of the two balances, which can
    hold any JSON value; a list or a mapping in their place is [JOther]. *)

Inductive json : Type :=
| JNull
| JBool (b : bool)
| JInt (n : Z)
| JFloat (x : float)
| JStr (s : str)
| JOther.

(** The entry [endsaldo] or [anfangssaldo] of an analysis: missing, a
    mapping with or without an entry [betrag], or a value that is no
    mapping. *)
Inductive saldo_v6 : Type :=
| Missing
| Betrag (betrag : option json)
| NoMapping.

(** An analysis: whether it has an entry [fehler], its entry
    [auszug_nummer] if it has one, and its two balances. *)
Record analyse_v6 : Type := {
  fehler : bool;
  a_auszug_nummer : option json;
  a_endsaldo : saldo_v6;
  a_anfangssaldo : saldo_v6
}.

(** *** [int(x)] *)

(** The value of a decimal digit of Unicode. *)
Definition decimal_value (c : N) : option N :=
  match find (fun lo => (lo <=? c) && (c <? lo + 10))%N decimal_runs with
  | Some lo => Some (c - lo)%N
  | None =>
      if ((120782 <=? c) && (c <? 120832))%N
      then Some ((c - 120782) mod 10)%N
      else None
  end.

(** The text that [int] reads: a character below U+007F stays, further
    white space becomes a space and a further decimal digit its ASCII
    digit; any other character ends the text with a question mark. *)
Fixpoint ascii_decimal (s : str) : str :=
  match s with
  | [] => []
  | c :: t =>
      if (c <? 127)%N then c :: ascii_decimal t
      else if isspace c then 32%N :: ascii_decimal t
      else match decimal_value c with
           | Some d => (48 + d)%N :: ascii_decimal t
           | None => [63%N]
           end
  end.

(** White space of the ASCII text. *)
Definition ascii_space (c : N) : bool :=
  (((9 <=? c) && (c <=? 13)) || (c =? 32))%N.

Fixpoint lstrip_ascii (s : str) : str :=
  match s with
  | [] => []
  | c :: t => if ascii_space c then lstrip_ascii t else s
  end.

(** The digits and underscores at the head of a text, and the rest. *)
Fixpoint span_int (s : str) : str * str :=
  match s with
  | [] => ([], [])
  | c :: t =>
      if is_digit c || (c =? 95)%N
      then let (d, r) := span_int t in (c :: d, r)
      else ([], s)
  end.

(** Digits in groups: at least one digit, every underscore between two
    digits. *)
Fixpoint grouped (after_digit : bool) (s : str) : bool :=
  match s with
  | [] => after_digit
  | c :: t =>
      if (c =? 95)%N then after_digit && grouped false t
      else grouped true t
  end.

(** [int(s)] for a string: an optional sign and grouped decimal digits,
    within white space; at most [int_max_str_digits] digits. *)
Definition int_of_str (s : str) : exc Z :=
  let (neg, b) := parse_sign (lstrip_ascii (ascii_decimal s)) in
  let (body, rest) := span_int b in
  let ds := filter is_digit body in
  if grouped false body && forallb ascii_space rest
     && (Z.of_nat (List.length ds) <=? int_max_str_digits)%Z
  then let v := Z.of_N (digits_value 0 ds) in
       Ok (if neg then (- v)%Z else v)
  else Raise ValueError.

(** [int(x)] for a float: the integer part; a NaN gives ValueError, an
    infinity OverflowError. *)
Definition int_of_float (x : float) : exc Z :=
  match Prim2SF x with
  | S754_zero _ => Ok 0%Z
  | S754_infinity _ => Raise OverflowError
  | S754_nan => Raise ValueError
  | S754_finite sign m e =>
      let v := Z.shiftl (Zpos m) e in
      Ok (if sign then (- v)%Z else v)
  end.

Definition int_ (v : json) : exc Z :=
  match v with
  | JInt n => Ok n
  | JBool b => Ok (Z.b2z b)
  | JFloat x => int_of_float x
  | JStr s => int_of_str s
  | JNull | JOther => Raise TypeError
  end.

(** *** Arithmetic on the values of the draft *)

Inductive number : Type :=
| NInt (n : Z)
| NFloat (x : float).

(** The operand of a subtraction: a [bool] is an [int]; a string, [None],
    a list or a mapping has no subtraction. *)
Definition operand (v : json) : exc number :=
  match v with
  | JInt n => Ok (NInt n)
  | JBool b => Ok (NInt (Z.b2z b))
  | JFloat x => Ok (NFloat x)
  | JNull | JStr _ | JOther => Raise TypeError
  end.

(** [float(n)] for an [int]: the nearest float, OverflowError beyond the
    largest one. *)
Definition float_of_int (n : Z) : exc float :=
  match binary_normalize 53 1024 n 0 false with
  | S754_infinity _ => Raise OverflowError
  | x => Ok (SF2Prim x)
  end.

(** [a - b] *)
Definition py_sub (a b : json) : exc number :=
  x <- operand a ;;
  y <- operand b ;;
  match x, y with
  | NInt m, NInt n => Ok (NInt (m - n))
  | NFloat u, NFloat v => Ok (NFloat (PrimFloat.sub u v))
  | NInt m, NFloat v => u <- float_of_int m ;; Ok (NFloat (PrimFloat.sub u v))
  | NFloat u, NInt n => v <- float_of_int n ;; Ok (NFloat (PrimFloat.sub u v))
  end.

(** [abs(x)] *)
Definition py_abs (x : number) : number :=
  match x with
  | NInt n => NInt (Z.abs n)
  | NFloat u => NFloat (PrimFloat.abs u)
  end.

(** [x < 0.01]: an [int] is compared by its exact value, and is below 0.01
    when it is not positive. *)
Definition lt_cent (x : number) : bool :=
  match x with
  | NInt n => (n <=? 0)%Z
  | NFloat u => PrimFloat.ltb u cent
  end.

(** *** The report *)

Record kontinuitaet_check_v6 : Type := {
  auszug_von_v6 : json;
  auszug_nach_v6 : json;
  endsaldo_von_v6 : json;
  anfangssaldo_nach_v6 : json;
  kontinuitaet_ok_v6 : bool;
  differenz_v6 : number
}.

Record kontinuitaet_v6 : Type := {
  kontinuitaet_pruefungen_v6 : list kontinuitaet_check_v6;
  alle_ok_v6 : bool
}.

(** [int(x.get('auszug_nummer', 0))] *)
Definition nummer (x : analyse_v6) : exc Z :=
  int_ (match a_auszug_nummer x with
        | Some v => v
        | None => JInt 0
        end).

(** [a.get('auszug_nummer')] *)
Definition get_nummer (a : analyse_v6) : json :=
  match a_auszug_nummer a with
  | Some v => v
  | None => JNull
  end.

(** [saldo.get('betrag', 0)] for the entry [saldo] of an analysis, whose
    default is the empty mapping. *)
Definition get_saldo_betrag (saldo : saldo_v6) : exc json :=
  match saldo with
  | Missing => Ok (JInt 0)
  | Betrag (Some v) => Ok v
  | Betrag None => Ok (JInt 0)
  | NoMapping => Raise AttributeError
  end.

(** [sorted(l, key=key)] for a key that can raise: the keys are computed
    first, in the order of the list. *)
Definition sorted_key {A : Type} (key : A -> exc Z) (l : list A)
  : exc (list A) :=
  keys <- for_each key l ;;
  Ok (map snd (sorted_by fst (combine keys l))).

Definition check_pair_v6 (current next_stmt : analyse_v6)
  : exc kontinuitaet_check_v6 :=
  current_end <- get_saldo_betrag (a_endsaldo current) ;;
  next_start <- get_saldo_betrag (a_anfangssaldo next_stmt) ;;
  d <- py_sub current_end next_start ;;
  let matches := lt_cent (py_abs d) in
  differenz <- py_sub next_start current_end ;;
  Ok {| auszug_von_v6 := get_nummer current;
        auszug_nach_v6 := get_nummer next_stmt;
        endsaldo_von_v6 := current_end;
        anfangssaldo_nach_v6 := next_start;
        kontinuitaet_ok_v6 := matches;
        differenz_v6 := differenz |}.

Definition validate_statement_continuity (analyses : list analyse_v6)
  : exc kontinuitaet_v6 :=
  sorted_analyses <-
    sorted_key nummer (filter (fun a => negb (fehler a)) analyses) ;;
  checks <-
    for_each (fun i =>
                current <- item sorted_analyses i ;;
                next_stmt <- item sorted_analyses (i + 1) ;;
                check_pair_v6 current next_stmt)
             (range (Z.of_nat (List.length sorted_analyses) - 1)) ;;
  Ok {| kontinuitaet_pruefungen_v6 := checks;
        alle_ok_v6 := forallb kontinuitaet_ok_v6 checks |}.

(** Two statements as the v6 prompt asks for them, with the number as a
    string: one that closes at 0.0 and one that opens at 1.0. *)
Definition v6_null : analyse_v6 :=
  {| fehler := false; a_auszug_nummer := Some (JStr (py "1"));
     a_endsaldo := Betrag (Some (JFloat 0%float));
     a_anfangssaldo := Betrag (Some (JFloat 0%float)) |}.

Definition v6_eins : analyse_v6 :=
  {| fehler := false; a_auszug_nummer := Some (JStr (py "2"));
     a_endsaldo := Betrag (Some (JFloat 1%float));
     a_anfangssaldo := Betrag (Some (JFloat 1%float)) |}.


(** ** [extract_valuta_date] (v6 lines 37-49, v7 lines 79-91) *)

(** [\d{2}\.\d{2}\.\d{4}] in a group *)
Definition date_group : list piece :=
  [Open] ++ times 2 isdecimal ++ lit (py ".") ++ times 2 isdecimal
  ++ lit (py ".") ++ times 4 isdecimal ++ [Close].

Definition wert_pattern : list piece :=
  lit (py "Wert:") ++ [Many isspace] ++ date_group.

Definition valuta_pattern : list piece :=
  lit (py "Valuta:") ++ [Many isspace] ++ date_group.

Definition slash_wert_pattern : list piece :=
  lit (py "/") ++ [Many isspace] ++ lit (py "Wert:") ++ [Many isspace]
  ++ date_group.

(** [for pattern in patterns: match = re.search(...); if match: return match.group(1)] *)
Fixpoint first_match (patterns : list (list piece)) (description : str)
  : option str :=
  match patterns with
  | [] => None
  | pattern :: rest =>
      match search pattern description with
      | Some g => Some g
      | None => first_match rest description
      end
  end.

Definition extract_valuta_date (description : str) : option str :=
  first_match [wert_pattern; valuta_pattern; slash_wert_pattern] description.

(** ** [extract_wkn_isin] (v6 lines 87-107, v7 lines 129-149) *)

Definition wkn_pattern : list piece :=
  lit (py "WKN") ++ [One isspace; Many isspace; Open]
  ++ times 6 capital_or_digit ++ [Close].

Definition isin_pattern : list piece :=
  [Open] ++ times 2 capital ++ times 10 capital_or_digit ++ [Close].

Definition extract_wkn_isin (description : str)
  : option str * option str * option str :=
  let wkn := search wkn_pattern description in
  let isin := search isin_pattern description in
  let name := if contains (py "TESLA INC") (upper description)
              then Some (py "TESLA INC.") else None in
  (wkn, isin, name).

(** ** The German text of a numeric balance (v7 lines 308 and 320)

    [f"{x:,.2f} EUR".replace(",", "X").replace(".", ",").replace("X", ".")],
    from the formatted text on. *)
Definition german_separators (formatted : str) : str :=
  replace (py "X") (py ".")
          (replace (py ".") (py ",") (replace (py ",") (py "X") formatted)).

(** ** Vocabulary of the further properties *)

(** A statement whose balance check failed. *)
Definition failed (a : analyse_v8) : bool :=
  match python_validierung_of a with
  | Validiert_v8 _ => false
  | Fehler_v8 _ => true
  end.

(** The closing and the opening balance that [check_continuity] reads
    from a statement. *)
Definition schluss (r : llm_result) : Decimal :=
  parsed (saldo_betrag (endsaldo r)).

Definition eroeffnung (r : llm_result) : Decimal :=
  parsed (saldo_betrag (anfangssaldo r)).

(** [abs(a - b)], where it is computed. *)
Definition abs_diff (a b : Decimal) : Decimal :=
  match (d <- Dec.sub a b ;; Dec.abs d) with
  | Ok r => r
  | Raise _ => Finite false 0 0
  end.

(** The check of a pair of statements by their exact balances, in units of
    [10^-k]. *)
Definition paar_check_v7 (k : Z) (ab : llm_result * llm_result)
  : kontinuitaet_check :=
  let e := schluss (fst ab) in
  let s := eroeffnung (snd ab) in
  {| auszug_von := nummer_or_unknown (auszug_nummer (fst ab));
     auszug_nach := nummer_or_unknown (auszug_nummer (snd ab));
     endsaldo_von := to_float e;
     anfangssaldo_nach := to_float s;
     kontinuitaet_ok := (Z.abs (units k e - units k s) <? 10 ^ (k - 2))%Z;
     k_differenz := to_float (abs_diff e s) |}.

(** A balance with at most [k] decimal places and below half the bound
    of exact arithmetic. *)
Definition saldo_in_range (k : Z) (d : Decimal) : Prop :=
  amount k d /\ (2 * Z.abs (units k d) < exact_bound)%Z.

(** A computation that raises or yields a NaN. *)
Definition nan_or_raise (m : exc Decimal) : Prop :=
  match m with
  | Ok r => is_nan r = true
  | Raise _ => True
  end.

(** The analyses of v6 without an entry [fehler]. *)
Definition kept (analyses : list analyse_v6) : list analyse_v6 :=
  filter (fun a => negb (fehler a)) analyses.

(** The number of an analysis whose [auszug_nummer] converts. *)
Definition nummer_of (a : analyse_v6) : Z :=
  match nummer a with
  | Ok n => n
  | Raise _ => 0%Z
  end.

(** The analyses in the order of their numbers. *)
Definition sorted_analyses (analyses : list analyse_v6) : list analyse_v6 :=
  map snd (sorted_by fst (map (fun a => (nummer_of a, a)) (kept analyses))).



(** The amount that [Decimal(str(v))] reads. *)
Definition reads (v : PyValue) (d : Decimal) : Prop :=
  Decimal_str v = Ok d.

(** The statement that follows the example: it opens at 405107.75. *)
Definition auszug_folge : llm_result :=
  {| auszug_nummer := Some (PyInt 4);
     anfangssaldo := Mapping (betrag_text "405.107,75");
     endsaldo := Mapping (betrag_text "450.107,75");
     transaktionen := [betrag_text "45.000,00"] |}.

(** A statement with an entry that is not a number, and one whose closing
    balance is not a number. *)
Definition auszug_nan_buchung : llm_result :=
  {| auszug_nummer := Some (PyInt 5);
     anfangssaldo := Mapping (betrag_text "450.107,75");
     endsaldo := Mapping (betrag_text "450.107,75");
     transaktionen := [betrag_text "10,00"; betrag_text "NaN"] |}.

Definition auszug_nan_saldo : llm_result :=
  {| auszug_nummer := Some (PyInt 2);
     anfangssaldo := Mapping (betrag_text "391.214,64");
     endsaldo := Mapping (betrag_text "NaN");
     transaktionen := [] |}.

(** A v8 analysis whose balance check failed on its opening balance. *)
Definition analyse_fehler : analyse_v8 :=
  analyse_von 6 (NaN false false 0) (Finite false 45010580 (-2)) [].

(** Opening balance 100.00, one entry 5.00, closing balance 90.00. *)
Definition auszug_v6_beispiel : auszug_v6 :=
  {| anfangssaldo_v6 := Some (PyStr (py "100.00"));
     endsaldo_v6 := Some (PyStr (py "90.00"));
     transaktionen_v6 := [Some (PyStr (py "5.00"))] |}.

(** The statement of the v8 prompt with its amounts in the German
    format. *)
Definition auszug_v6_deutsch : auszug_v6 :=
  {| anfangssaldo_v6 := Some (PyStr (py "391.214,64"));
     endsaldo_v6 := Some (PyStr (py "405.107,75"));
     transaktionen_v6 := [Some (PyStr (py "13.893,11"))] |}.

(** [dd.dd.dddd] *)
Definition date_shape (g : str) : bool :=
  match g with
  | [a; b; p; c; d; q; e; f; h; i] =>
      isdecimal a && isdecimal b && (p =? 46)%N
      && isdecimal c && isdecimal d && (q =? 46)%N
      && isdecimal e && isdecimal f && isdecimal h && isdecimal i
  | _ => false
  end.

(** The description holds [key], white space and the date [g]. *)
Definition dated (key description g : str) : Prop :=
  exists pre ws post : str,
    description = pre ++ key ++ ws ++ g ++ post
    /\ forallb isspace ws = true /\ date_shape g = true.

(** Two capital letters and ten capital letters or digits. *)
Definition isin_shape (g : str) : bool :=
  match g with
  | [a; b; c; d; e; f; h; i; j; k; l; m] =>
      capital a && capital b
      && forallb capital_or_digit [c; d; e; f; h; i; j; k; l; m]
  | _ => false
  end.

(** Six capital letters or digits. *)
Definition wkn_shape (g : str) : bool :=
  match g with
  | [a; b; c; d; e; f] => forallb capital_or_digit g
  | _ => false
  end.

(** The first two components of the result of [extract_wkn_isin]. *)
Definition wkn_of (description : str) : option str :=
  fst (fst (extract_wkn_isin description)).

Definition isin_of (description : str) : option str :=
  snd (fst (extract_wkn_isin description)).

(** A comma for a point and a point for a comma. *)
Definition swap_separator (c : N) : N :=
  if (c =? comma)%N then dot else if (c =? dot)%N then comma else c.

(** [1,234,567]: the groups of an amount as [:,] writes them. *)
Fixpoint join_comma (groups : list str) : str :=
  match groups with
  | [] => []
  | g :: rest =>
      match rest with
      | [] => g
      | _ :: _ => g ++ comma :: join_comma rest
      end
  end.

(** The classes that [classify_transaction_type] chooses by the sign of
    the amount. *)
Definition classified_by_amount (a : Art) : bool :=
  match a with
  | Ueberweisung_ausgehend | Ueberweisung_eingehend => true
  | Eingang | Ausgang => true
  | _ => false
  end.

(** A float that is a number: neither an infinity nor a NaN. *)
Definition finite_float (x : float) : bool :=
  match Prim2SF x with
  | S754_zero _ | S754_finite _ _ _ => true
  | S754_infinity _ | S754_nan => false
  end.

(** The example statement with one more entry, which carries its sign
    behind the number. *)
Definition auszug_beispiel_nachgestellt : llm_result :=
  {| auszug_nummer := Some (PyInt 3);
     anfangssaldo := Mapping (betrag_text "391.214,64");
     endsaldo := Mapping (betrag_text "405.107,75");
     transaktionen :=
       map betrag_text
           ["-170,86"; "-1,95"; "37.000,00"; "-101.046,00"; "-100.480,00";
            "103.924,60"; "10.000,00"; "11,25-"; "-11,25"; "41.989,54";
            "-20.000,00"; "42.689,03"]%string |}.

(** The texts that end in a minus sign. *)
Definition ends_minus (s : str) : Prop := exists v : str, s = v ++ [45%N].

(** An entry of the draft without a number to read: it has no [betrag], or
    its [betrag] is a string that ends in a minus sign or holds two or more
    commas. *)
Definition unreadable_entry (t : option PyValue) : Prop :=
  match t with
  | None => True
  | Some (PyStr s) => ends_minus s \/ (2 <= count comma s)%nat
  | Some _ => False
  end.

(* ================================================================== *)
(** * Part II: properties                                              *)
(* ================================================================== *)

(** ** Decimal arithmetic is exact on amounts of bounded magnitude *)

Lemma ndigits_fuel_le (fuel : nat) :
  forall c k : Z, (1 <= k -> c < 10 ^ k -> ndigits_fuel fuel c <= k)%Z.
Proof.
  induction fuel as [|fuel IH]; intros c k Hk Hc; cbn [ndigits_fuel].
  - lia.
  - destruct (Z.ltb_spec c 10) as [Hlt|Hge]; [lia|].
    assert (Hk2 : (2 <= k)%Z).
    { destruct (Z.eq_dec k 1) as [->|]; [rewrite Z.pow_1_r in Hc; lia|lia]. }
    assert (Hdiv : (c / 10 < 10 ^ (k - 1))%Z).
    { apply Z.div_lt_upper_bound; [lia|].
      replace (10 * 10 ^ (k - 1))%Z with (10 ^ k)%Z; [exact Hc|].
      rewrite <- Z.pow_succ_r by lia. f_equal. lia. }
    specialize (IH (c / 10)%Z (k - 1)%Z ltac:(lia) Hdiv). lia.
Qed.

Lemma ndigits_le (c : Z) : (c < exact_bound -> ndigits c <= prec)%Z.
Proof.
  intros H. unfold ndigits. apply ndigits_fuel_le; [unfold prec; lia|exact H].
Qed.

Lemma fix_exact (s : bool) (c e : Z) :
  (0 < c < exact_bound)%Z -> (Etiny <= e <= 0)%Z ->
  fix_ s c e = Ok (Finite s (Z.to_N c) e).
Proof.
  intros Hc He. unfold fix_.
  pose proof (ndigits_le c (proj2 Hc)) as Hd.
  destruct (Z.eqb_spec c 0) as [?|_]; [lia|].
  unfold Etop, Emax, Etiny, Emin, prec in *.
  destruct (Z.ltb_spec (999999 - 28 + 1) (ndigits c + e - 28)) as [?|_]; [lia|].
  destruct (Z.ltb_spec e (Z.max (ndigits c + e - 28) (-999999 - 28 + 1)))
    as [?|_]; [lia|reflexivity].
Qed.

Lemma fix_zero (s : bool) (e : Z) :
  (Etiny <= e <= 0)%Z -> fix_ s 0 e = Ok (Finite s 0 e).
Proof.
  intros He. unfold fix_. simpl.
  unfold Etiny, Emax, Emin, prec in *. do 2 f_equal. lia.
Qed.

Lemma signed_mk (v : Z) : signed (v <? 0)%Z (Z.to_N (Z.abs v)) = v.
Proof.
  unfold signed. destruct (Z.ltb_spec v 0); lia.
Qed.

Lemma units_mk (k v e : Z) : units k (mk v e) = (v * 10 ^ (e + k))%Z.
Proof. unfold mk, units. now rewrite signed_mk. Qed.

Lemma pow10_pos (n : Z) : (0 <= n -> 1 <= 10 ^ n)%Z.
Proof.
  intros H. pose proof (Z.pow_pos_nonneg 10 n ltac:(lia) H). lia.
Qed.

Lemma pow10_split (a b : Z) :
  (0 <= a -> 0 <= b -> 10 ^ (a + b) = 10 ^ a * 10 ^ b)%Z.
Proof. intros. now apply Z.pow_add_r. Qed.

Section ExactArithmetic.

Variable k : Z.
Hypothesis k_range : (0 <= k <= max_places)%Z.

Local Open Scope Z_scope.

(** The value two amounts add up to, at the smaller exponent. *)
Lemma aligned_units (x1 x2 e1 e2 : Z) :
  - k <= e1 <= 0 -> - k <= e2 <= 0 ->
  let e := Z.min e1 e2 in
  (x1 * 10 ^ (e1 - e) + x2 * 10 ^ (e2 - e)) * 10 ^ (e + k)
  = x1 * 10 ^ (e1 + k) + x2 * 10 ^ (e2 + k).
Proof.
  intros H1 H2 e.
  replace (e1 + k) with ((e1 - e) + (e + k)) by lia.
  replace (e2 + k) with ((e2 - e) + (e + k)) by lia.
  rewrite (pow10_split (e1 - e) (e + k)) by (subst e; lia).
  rewrite (pow10_split (e2 - e) (e + k)) by (subst e; lia). ring.
Qed.

Lemma small_of_units (v e : Z) :
  - k <= e -> Z.abs (v * 10 ^ (e + k)) < exact_bound -> Z.abs v < exact_bound.
Proof.
  intros He H. pose proof (pow10_pos (e + k) ltac:(lia)) as Hp.
  rewrite Z.abs_mul in H. rewrite (Z.abs_eq (10 ^ (e + k))) in H by lia.
  nia.
Qed.

(** [a + b] when the exact sum needs no rounding. *)
Lemma add_exact (s1 s2 : bool) (c1 c2 : N) (e1 e2 : Z) :
  - k <= e1 <= 0 -> - k <= e2 <= 0 ->
  let e := Z.min e1 e2 in
  let v := signed s1 c1 * 10 ^ (e1 - e) + signed s2 c2 * 10 ^ (e2 - e) in
  Z.abs (v * 10 ^ (e + k)) < exact_bound ->
  Dec.add (Finite s1 c1 e1) (Finite s2 c2 e2)
  = Ok (Finite (if v =? 0
                then (if (c1 =? 0)%N && (c2 =? 0)%N then s1 && s2 else false)
                else v <? 0)
               (Z.to_N (Z.abs v)) e).
Proof.
  intros H1 H2 e v Hv.
  assert (Hsmall : Z.abs v < exact_bound).
  { apply (small_of_units v e); [subst e; lia|exact Hv]. }
  assert (He : Etiny <= e <= 0).
  { unfold Etiny, Emin, prec, max_places in *. subst e. lia. }
  unfold Dec.add. cbn [check_nans bind].
  fold e. fold v.
  destruct (Z.eqb_spec v 0) as [Hz|Hnz].
  - rewrite Hz. cbn [Z.abs Z.to_N]. now apply fix_zero.
  - rewrite fix_exact; [reflexivity|lia|exact He].
Qed.

(** Adding an amount to a running sum. *)
Lemma add_mk (v0 e0 : Z) (s : bool) (c : N) (e : Z) :
  - k <= e0 <= 0 -> - k <= e <= 0 ->
  let e' := Z.min e0 e in
  let v' := v0 * 10 ^ (e0 - e') + signed s c * 10 ^ (e - e') in
  Z.abs (v' * 10 ^ (e' + k)) < exact_bound ->
  Dec.add (mk v0 e0) (Finite s c e) = Ok (mk v' e').
Proof.
  intros H0 H1 e' v' Hv. unfold mk at 1.
  rewrite add_exact by (try assumption; rewrite signed_mk; exact Hv).
  rewrite signed_mk. fold e'. fold v'. unfold mk. do 2 f_equal.
  destruct (Z.eqb_spec v' 0) as [Hz|Hnz].
  - rewrite Hz. cbn.
    destruct (N.eqb_spec (Z.to_N (Z.abs v0)) 0) as [Hc|Hc]; [|reflexivity].
    assert (v0 = 0) by lia. subst v0. cbn.
    now destruct (c =? 0)%N.
  - reflexivity.
Qed.

(** Adding a running sum to an amount, as in [anfangssaldo + summe]. *)
Lemma add_amount_mk (s : bool) (c : N) (e v0 e0 : Z) :
  - k <= e0 <= 0 -> - k <= e <= 0 ->
  let e' := Z.min e e0 in
  let v' := signed s c * 10 ^ (e - e') + v0 * 10 ^ (e0 - e') in
  Z.abs (v' * 10 ^ (e' + k)) < exact_bound ->
  Dec.add (Finite s c e) (mk v0 e0) = Ok (mk v' e').
Proof.
  intros H0 H1 e' v' Hv. unfold mk at 1.
  rewrite add_exact by (try assumption; rewrite signed_mk; exact Hv).
  rewrite signed_mk. fold e'. fold v'. unfold mk. do 2 f_equal.
  destruct (Z.eqb_spec v' 0) as [Hz|Hnz].
  - rewrite Hz. cbn.
    destruct (c =? 0)%N; [|reflexivity]. cbn.
    destruct (N.eqb_spec (Z.to_N (Z.abs v0)) 0) as [Hc|Hc]; [|reflexivity].
    assert (v0 = 0) by lia. subst v0. cbn. now destruct s.
  - reflexivity.
Qed.

End ExactArithmetic.

Lemma min_exp_push (e0 e : Z) (es : list Decimal) :
  min_exp (Z.min e0 e) es = Z.min e (min_exp e0 es).
Proof.
  induction es as [|d es IH]; simpl; [lia|]. rewrite IH. lia.
Qed.

Lemma min_exp_perm (e0 : Z) (es es' : list Decimal) :
  Permutation es es' -> min_exp e0 es = min_exp e0 es'.
Proof.
  induction 1; simpl; try congruence; lia.
Qed.

Lemma sum_units_perm (k : Z) (es es' : list Decimal) :
  Permutation es es' -> sum_units k es = sum_units k es'.
Proof.
  induction 1; simpl; try congruence; lia.
Qed.

Lemma sum_abs_perm (k : Z) (es es' : list Decimal) :
  Permutation es es' -> sum_abs k es = sum_abs k es'.
Proof.
  induction 1; simpl; try congruence; lia.
Qed.

Lemma sum_abs_nonneg (k : Z) (es : list Decimal) : (0 <= sum_abs k es)%Z.
Proof. induction es; simpl; lia. Qed.

Lemma sum_units_le_abs (k : Z) (es : list Decimal) :
  (Z.abs (sum_units k es) <= sum_abs k es)%Z.
Proof. induction es; simpl; lia. Qed.

Lemma min_exp_range (k e0 : Z) (es : list Decimal) :
  (- k <= e0 <= 0)%Z -> Forall (amount k) es ->
  (- k <= min_exp e0 es <= 0)%Z.
Proof.
  intros H0 Hes. induction Hes as [|d es Hd _ IH]; simpl; [exact H0|].
  destruct d; simpl in *; try contradiction. lia.
Qed.

Section ExactSums.

Variable k : Z.
Hypothesis k_range : (0 <= k <= max_places)%Z.

Local Open Scope Z_scope.

(** The summation loop on amounts: the running sum is the exact sum, at
    the smallest exponent met so far. *)
Lemma summiere_v8_exact (es : list Decimal) :
  forall v0 e0 : Z,
    - k <= e0 <= 0 ->
    Forall (amount k) es ->
    Z.abs (v0 * 10 ^ (e0 + k)) + sum_abs k es < exact_bound ->
    exists V : Z,
      summiere_v8 (mk v0 e0) es = Ok (mk V (min_exp e0 es))
      /\ V * 10 ^ (min_exp e0 es + k) = v0 * 10 ^ (e0 + k) + sum_units k es.
Proof.
  induction es as [|d es IH]; intros v0 e0 H0 Hes Hb.
  - exists v0. simpl. split; [reflexivity|lia].
  - inversion Hes as [|d' es' Hd Hes']; subst.
    destruct d as [s c e| |]; simpl in Hd; try contradiction.
    pose proof (sum_abs_nonneg k es) as Hnn.
    pose proof (aligned_units k v0 (signed s c) e0 e H0 Hd) as Hal.
    cbv zeta in Hal.
    cbn [sum_abs sum_units fold_right units] in Hb |- *.
    fold (sum_abs k es) in Hb. fold (sum_units k es).
    cbn [summiere_v8].
    rewrite (add_mk k k_range v0 e0 s c e H0 Hd) by (rewrite Hal; lia).
    cbn [bind].
    destruct (IH (v0 * 10 ^ (e0 - Z.min e0 e)
                  + signed s c * 10 ^ (e - Z.min e0 e))
                 (Z.min e0 e) ltac:(lia) Hes' ltac:(rewrite Hal; lia))
      as [V [HV HVal]].
    exists V. cbn [min_exp fold_right exponent].
    fold (min_exp e0 es). rewrite <- min_exp_push.
    split; [exact HV|]. rewrite HVal, Hal. lia.
Qed.

(** The loop does not depend on the order of the amounts. *)
Lemma summiere_v8_perm (es es' : list Decimal) :
  Permutation es es' ->
  Forall (amount k) es ->
  sum_abs k es < exact_bound ->
  summiere_v8 (Finite false 0 0) es = summiere_v8 (Finite false 0 0) es'.
Proof.
  intros Hp Ham Hb.
  assert (Ham' : Forall (amount k) es').
  { rewrite Forall_forall in *. intros x Hx. apply Ham.
    now apply (Permutation_in _ (Permutation_sym Hp)). }
  change (Finite false 0 0) with (mk 0 0).
  destruct (summiere_v8_exact es 0 0 ltac:(lia) Ham ltac:(simpl; lia))
    as [V [HV HVal]].
  destruct (summiere_v8_exact es' 0 0 ltac:(lia) Ham'
              ltac:(rewrite <- (sum_abs_perm k es es' Hp); simpl; lia))
    as [V' [HV' HVal']].
  rewrite HV, HV'.
  rewrite <- (min_exp_perm 0 es es' Hp) in HVal' |- *.
  rewrite <- (sum_units_perm k es es' Hp) in HVal'.
  pose proof (min_exp_range k 0 es ltac:(lia) Ham) as Hr.
  pose proof (pow10_pos (min_exp 0 es + k) ltac:(lia)) as Hpos.
  assert (V = V') by nia. now subst.
Qed.

(** [a < b] on amounts compares the exact values. *)
Lemma lt_units (a b : Decimal) :
  amount k a -> amount k b ->
  Dec.lt a b = Ok (units k a <? units k b).
Proof.
  destruct a as [s1 c1 e1| |], b as [s2 c2 e2| |]; simpl;
    try contradiction.
  intros H1 H2. unfold Dec.lt. cbn [is_nan orb cmp]. f_equal.
  pose proof (aligned_units k (signed s1 c1) 0 e1 e2 H1 H2) as A1.
  pose proof (aligned_units k 0 (signed s2 c2) e1 e2 H1 H2) as A2.
  cbv zeta in A1, A2.
  pose proof (pow10_pos (Z.min e1 e2 + k) ltac:(lia)) as Hpos.
  set (x := signed s1 c1 * 10 ^ (e1 - Z.min e1 e2)) in *.
  set (y := signed s2 c2 * 10 ^ (e2 - Z.min e1 e2)) in *.
  set (P := 10 ^ (Z.min e1 e2 + k)) in *.
  assert (Hx : units k (Finite s1 c1 e1) = x * P) by (simpl; lia).
  assert (Hy : units k (Finite s2 c2 e2) = y * P) by (simpl; lia).
  simpl in Hx, Hy. rewrite Hx, Hy.
  destruct (Z.compare_spec x y); destruct (Z.ltb_spec (x * P) (y * P));
    try reflexivity; nia.
Qed.

End ExactSums.

(** ** Strings *)

Module StrFacts.

Local Open Scope N_scope.

Lemma index_found (c : char) (s : str) :
  count c s <> O -> exists i : nat, index c s = Ok i.
Proof.
  induction s as [|x t IH]; simpl; [congruence|].
  destruct (x =? c).
  - intros _. now exists O.
  - intros H. destruct (IH H) as [i Hi]. rewrite Hi. now exists (S i).
Qed.

Lemma index_app_first (c : char) (a b : str) :
  count c a = O -> index c (a ++ c :: b) = Ok (List.length a).
Proof.
  induction a as [|x t IH]; simpl.
  - now rewrite N.eqb_refl.
  - destruct (x =? c); [discriminate|]. intros H. now rewrite IH.
Qed.

Lemma count_app (c : char) (a b : str) :
  count c (a ++ b) = (count c a + count c b)%nat.
Proof.
  induction a as [|x t IH]; simpl; [reflexivity|].
  destruct (x =? c); simpl; now rewrite IH.
Qed.

(** Replacing a one-character pattern works character by character. *)
Lemma replace_char (c : char) (new s : str) :
  replace [c] new s = flat_map (fun x => if x =? c then new else [x]) s.
Proof.
  unfold replace. induction s as [|x t IH]; [reflexivity|].
  cbn [replace_from startswith flat_map List.length Nat.sub].
  rewrite (N.eqb_sym c x). destruct (x =? c); cbn [andb].
  - destruct t; now rewrite IH.
  - now rewrite IH.
Qed.

Lemma replace_char_app (c : char) (new a b : str) :
  replace [c] new (a ++ b) = replace [c] new a ++ replace [c] new b.
Proof. rewrite !replace_char. apply flat_map_app. Qed.

Lemma replace_char_absent (c : char) (new s : str) :
  count c s = O -> replace [c] new s = s.
Proof.
  rewrite replace_char. induction s as [|x t IH]; simpl; [reflexivity|].
  destruct (x =? c); [discriminate|]. intros H. simpl. now rewrite IH.
Qed.

(** A pattern cannot start inside a text without its first character. *)
Lemma replace_skip_prefix (h : char) (o new a r : str) :
  count h a = O ->
  replace (h :: o) new (a ++ r) = a ++ replace (h :: o) new r.
Proof.
  unfold replace. induction a as [|x t IH]; simpl; [reflexivity|].
  rewrite (N.eqb_sym h x). destruct (x =? h); [discriminate|].
  intros H. simpl. now rewrite IH.
Qed.

Lemma lstrip_head (c : char) (s : str) :
  isspace c = false -> lstrip (c :: s) = c :: s.
Proof. intros H. simpl. now rewrite H. Qed.

Lemma rstrip_last (s : str) (d : char) :
  isspace d = false -> rstrip (s ++ [d]) = s ++ [d].
Proof.
  intros Hd. unfold rstrip. rewrite rev_app_distr. cbn [rev app].
  rewrite lstrip_head by exact Hd. cbn [rev]. now rewrite rev_involutive.
Qed.

Lemma rstrip_space (s : str) : rstrip (s ++ [32]) = rstrip s.
Proof.
  unfold rstrip. rewrite rev_app_distr. reflexivity.
Qed.

Lemma digit_not_space (c : char) : is_digit c = true -> isspace c = false.
Proof.
  unfold is_digit, isspace. intros H.
  apply andb_true_iff in H as [H1 H2].
  apply N.leb_le in H1. apply N.leb_le in H2.
  repeat match goal with
         | |- context [?a <=? ?b] => destruct (N.leb_spec a b); try lia
         | |- context [?a =? ?b] => destruct (N.eqb_spec a b); try lia
         end; reflexivity.
Qed.

Lemma digit_not (c x : char) :
  is_digit c = true -> (x < 48 \/ 57 < x) -> (c =? x) = false.
Proof.
  unfold is_digit. intros H Hx.
  apply andb_true_iff in H as [H1 H2].
  apply N.leb_le in H1. apply N.leb_le in H2.
  apply N.eqb_neq. lia.
Qed.

Lemma count_digits (x : char) (d : str) :
  all_digits d = true -> (x < 48 \/ 57 < x) -> count x d = O.
Proof.
  intros Hd Hx. induction d as [|c t IH]; simpl; [reflexivity|].
  simpl in Hd. apply andb_true_iff in Hd as [Hc Ht].
  rewrite (digit_not c x Hc Hx). now apply IH.
Qed.

Lemma all_digits_app (a b : str) :
  all_digits (a ++ b) = all_digits a && all_digits b.
Proof.
  induction a as [|c t IH]; simpl; [reflexivity|].
  now rewrite IH, andb_assoc.
Qed.

(** The digits at the head of a text are read up to the first other
    character. *)
Lemma span_digits_app (d r : str) :
  all_digits d = true ->
  match r with [] => true | c :: _ => negb (is_digit c) end = true ->
  span_digits (d ++ r) = (d, r).
Proof.
  intros Hd Hr. induction d as [|c t IH]; simpl.
  - destruct r as [|c r']; [reflexivity|]. simpl.
    apply negb_true_iff in Hr. now rewrite Hr.
  - simpl in Hd. apply andb_true_iff in Hd as [Hc Ht].
    rewrite Hc, (IH Ht). reflexivity.
Qed.

Lemma span_digits_all (d : str) :
  all_digits d = true -> span_digits d = (d, []).
Proof.
  intros Hd. rewrite <- (app_nil_r d) at 1. now apply span_digits_app.
Qed.

Lemma digits_value_app (a b : str) :
  forall acc : N,
    digits_value acc (a ++ b) = digits_value (digits_value acc a) b.
Proof.
  induction a as [|c t IH]; intros acc; simpl; [reflexivity|apply IH].
Qed.

Lemma is_digit_char (m : N) : m < 10 -> is_digit (48 + m) = true.
Proof.
  intros H. unfold is_digit.
  destruct (N.leb_spec 48 (48 + m)); [|lia].
  destruct (N.leb_spec (48 + m) 57); [reflexivity|lia].
Qed.

Lemma single_digit (n : N) (x : N) :
  n < 10 ->
  all_digits [48 + n] = true
  /\ [48 + n] <> []
  /\ digits_value x [48 + n] = x * 10 ^ N.of_nat (List.length [48 + n]) + n.
Proof.
  intros Hn. split.
  { cbn [all_digits]. now rewrite is_digit_char. }
  split; [discriminate|].
  cbn [digits_value List.length]. change (10 ^ N.of_nat 1) with 10. lia.
Qed.

Lemma digits_of_fuel_S (f : nat) (n : N) (acc : str) :
  digits_of_fuel (S f) n acc
  = if n <? 10 then (48 + n mod 10) :: acc
    else digits_of_fuel f (n / 10) ((48 + n mod 10) :: acc).
Proof. reflexivity. Qed.

(** [str(n)] is the digits of [n]. *)
Lemma digits_of_fuel_spec (f : nat) :
  forall (n : N) (acc : str),
    n < 10 ^ N.of_nat (S f) ->
    exists D : str,
      digits_of_fuel (S f) n acc = D ++ acc
      /\ all_digits D = true
      /\ D <> []
      /\ forall x : N, digits_value x D = x * 10 ^ N.of_nat (List.length D) + n.
Proof.
  induction f as [|f IH]; intros n acc Hn.
  - change (10 ^ N.of_nat 1) with 10 in Hn.
    exists [48 + n mod 10]. rewrite digits_of_fuel_S.
    destruct (N.ltb_spec n 10) as [_|?]; [|lia].
    rewrite N.mod_small by lia.
    split; [reflexivity|].
    split; [apply (single_digit n 0 Hn)|].
    split; [discriminate|]. intros x. apply (single_digit n x Hn).
  - rewrite digits_of_fuel_S.
    assert (Hm : n mod 10 < 10) by (apply N.mod_lt; lia).
    destruct (N.ltb_spec n 10) as [Hlt|Hge].
    + exists [48 + n mod 10]. rewrite N.mod_small by lia.
      split; [reflexivity|].
      split; [apply (single_digit n 0 Hlt)|].
      split; [discriminate|]. intros x. apply (single_digit n x Hlt).
    + assert (Hdiv : n / 10 < 10 ^ N.of_nat (S f)).
      { apply N.Div0.div_lt_upper_bound.
        replace (10 * 10 ^ N.of_nat (S f)) with (10 ^ N.of_nat (S (S f)));
          [exact Hn|].
        rewrite (Nat2N.inj_succ (S f)), N.pow_succ_r'. reflexivity. }
      destruct (IH (n / 10) ((48 + n mod 10) :: acc) Hdiv)
        as [D [HD [Hall [Hne Hval]]]].
      exists (D ++ [48 + n mod 10]).
      split; [rewrite HD, <- app_assoc; reflexivity|].
      split.
      { rewrite all_digits_app, Hall. cbn [all_digits andb].
        now rewrite is_digit_char. }
      split; [destruct D; discriminate|].
      intros x. rewrite digits_value_app, Hval. cbn [digits_value].
      rewrite length_app. cbn [List.length].
      rewrite Nat.add_1_r, Nat2N.inj_succ, N.pow_succ_r'.
      pose proof (N.div_mod n 10 ltac:(lia)) as Hdm.
      set (p := 10 ^ N.of_nat (List.length D)).
      set (q := n / 10) in *. set (r := n mod 10) in *.
      clearbody p q r. nia.
Qed.

Lemma digits_of_spec (n : N) :
  exists D : str,
    digits_of n = D
    /\ all_digits D = true
    /\ D <> []
    /\ digits_value 0 D = n.
Proof.
  unfold digits_of.
  assert (Hn : n < 10 ^ N.of_nat (S (N.to_nat (N.size n)))).
  { rewrite Nat2N.inj_succ, N2Nat.id.
    destruct n as [|p]; [reflexivity|].
    pose proof (N.size_gt (N.pos p)) as Hs.
    assert (H2 : 2 ^ N.size (N.pos p) <= 10 ^ N.size (N.pos p))
      by (apply N.pow_le_mono_l; lia).
    rewrite N.pow_succ_r'.
    assert (0 < 10 ^ N.size (N.pos p))
      by (apply N.neq_0_lt_0, N.pow_nonzero; lia).
    lia. }
  destruct (digits_of_fuel_spec (N.to_nat (N.size n)) n [] Hn)
    as [D [HD [Hall [Hne Hval]]]].
  exists D. rewrite app_nil_r in HD.
  repeat split; try assumption.
  rewrite Hval. lia.
Qed.

End StrFacts.

Import StrFacts.

(** ** The constructor [Decimal(s)] on numeric texts *)

Module CtorFacts.

Local Open Scope N_scope.

Lemma tight_digit (c : char) : is_digit c = true -> tight c = true.
Proof.
  intros H. unfold tight. rewrite (digit_not_space c H).
  rewrite (digit_not c 95 H) by lia. reflexivity.
Qed.

Lemma tight_digits (d : str) : all_digits d = true -> forallb tight d = true.
Proof.
  induction d as [|c t IH]; simpl; [reflexivity|].
  intros H. apply andb_true_iff in H as [Hc Ht].
  now rewrite (tight_digit c Hc), IH.
Qed.

Lemma strip_tight_text (t : str) : forallb tight t = true -> strip t = t.
Proof.
  intros H. unfold strip.
  assert (Hl : lstrip t = t).
  { destruct t as [|c m]; [reflexivity|]. simpl in H.
    apply andb_true_iff in H as [Hc _]. unfold tight in Hc.
    apply andb_true_iff in Hc as [Hc _]. apply negb_true_iff in Hc.
    now apply lstrip_head. }
  rewrite Hl. destruct t as [|c m] using rev_ind; [reflexivity|].
  rewrite forallb_app in H. apply andb_true_iff in H as [_ Hc].
  simpl in Hc. rewrite andb_true_r in Hc. unfold tight in Hc.
  apply andb_true_iff in Hc as [Hc _]. apply negb_true_iff in Hc.
  now apply rstrip_last.
Qed.

Lemma no_underscore (t : str) : forallb tight t = true -> count 95 t = O.
Proof.
  induction t as [|c m IH]; simpl; [reflexivity|].
  intros H. apply andb_true_iff in H as [Hc Hm]. unfold tight in Hc.
  apply andb_true_iff in Hc as [_ Hc]. apply negb_true_iff in Hc.
  rewrite Hc. now apply IH.
Qed.

Lemma of_str_tight (t : str) :
  forallb tight t = true ->
  Dec.of_str t
  = let (neg, body) := parse_sign t in
    match parse_number body with
    | Some (c, e) => Some (Finite neg c e)
    | None => parse_special neg body
    end.
Proof.
  intros H. unfold Dec.of_str. rewrite (strip_tight_text t H).
  replace (replace (py "_") [] t) with t; [reflexivity|].
  symmetry. exact (replace_char_absent 95 [] t (no_underscore t H)).
Qed.

(** Digits, an optional point with more digits, and no exponent. *)
Lemma parse_number_plain (I F : str) (point : bool) :
  all_digits I = true -> all_digits F = true ->
  I ++ F <> [] -> (point = false -> F = []) ->
  parse_number (I ++ (if point then 46 :: F else []))
  = Some (digits_value 0 (I ++ F), (- Z.of_nat (List.length F))%Z).
Proof.
  intros HI HF Hne Hp. unfold parse_number.
  destruct point.
  - rewrite (span_digits_app I (46 :: F) HI eq_refl).
    rewrite (span_digits_all F HF).
    destruct (I ++ F) eqn:E; [congruence|]. reflexivity.
  - rewrite (Hp eq_refl) in *. rewrite app_nil_r in *.
    rewrite (span_digits_all I HI). cbn [app].
    destruct I; [congruence|]. rewrite app_nil_r. reflexivity.
Qed.

(** The same, followed by an exponent. *)
Lemma parse_number_exp (I F : str) (point eneg : bool) (E : str) :
  all_digits I = true -> all_digits F = true -> all_digits E = true ->
  I ++ F <> [] -> E <> [] -> (point = false -> F = []) ->
  parse_number (I ++ (if point then 46 :: F else [])
                  ++ 101 :: (if eneg then 45 else 43) :: E)
  = Some (digits_value 0 (I ++ F),
          (signed eneg (digits_value 0 E) - Z.of_nat (List.length F))%Z).
Proof.
  intros HI HF HE Hne HEne Hp. unfold parse_number.
  assert (Hexp : parse_exponent (101 :: (if eneg then 45 else 43) :: E)
                 = Some (signed eneg (digits_value 0 E))).
  { unfold parse_exponent. cbn [N.eqb Pos.eqb orb].
    destruct eneg; cbn [parse_sign]; destruct E; try congruence;
      now rewrite HE. }
  set (X := 101 :: (if eneg then 45 else 43) :: E) in *.
  destruct point.
  - cbn [app].
    rewrite (span_digits_app I (46 :: F ++ X) HI eq_refl).
    rewrite (span_digits_app F X HF eq_refl).
    destruct (I ++ F) eqn:Eq; [congruence|]. now rewrite Hexp.
  - rewrite (Hp eq_refl) in *. rewrite app_nil_r in *. cbn [app].
    rewrite (span_digits_app I X HI eq_refl). subst X. cbv iota.
    destruct I; [congruence|]. rewrite app_nil_r.
    cbn [List.length Z.of_nat]. now rewrite Hexp.
Qed.

Lemma parse_sign_digit (c : char) (t : str) :
  is_digit c = true -> parse_sign (c :: t) = (false, c :: t).
Proof.
  intros H. unfold parse_sign.
  pose proof (digit_not c 45 H ltac:(lia)) as H45.
  pose proof (digit_not c 43 H ltac:(lia)) as H43.
  apply N.eqb_neq in H45, H43.
  destruct c as [|p]; [reflexivity|].
  do 6 (destruct p as [p|p|]; try reflexivity); congruence.
Qed.

(** [Decimal(str(n))] is [n]. *)
Lemma of_str_int (z : Z) : Dec.of_str (str_of_int z) = Some (Dec.of_int z).
Proof.
  assert (Hnum : forall n : N,
             forallb tight (digits_of n) = true
             /\ parse_number (digits_of n) = Some (n, 0%Z)
             /\ exists c t, digits_of n = c :: t /\ is_digit c = true).
  { intros n. destruct (digits_of_spec n) as [D [HD [Hall [Hne Hval]]]].
    rewrite HD. split; [now apply tight_digits|]. split.
    - pose proof (parse_number_plain D [] false Hall eq_refl) as P.
      rewrite !app_nil_r in P. rewrite P, Hval; auto.
    - destruct D as [|c t]; [congruence|]. exists c, t.
      simpl in Hall. apply andb_true_iff in Hall as [Hc _]. auto. }
  destruct z as [|p|p]; unfold str_of_int, Dec.of_int.
  - reflexivity.
  - destruct (Hnum (N.pos p)) as [Ht [Hp [c [t [Hd Hc]]]]].
    rewrite of_str_tight by exact Ht.
    rewrite Hd, (parse_sign_digit c t Hc), <- Hd, Hp. reflexivity.
  - destruct (Hnum (N.pos p)) as [Ht [Hp _]].
    rewrite of_str_tight by (cbn [forallb]; rewrite Ht; reflexivity).
    cbn [parse_sign]. rewrite Hp. reflexivity.
Qed.

Lemma digit_chars_digits (ds : list N) : all_digits (digit_chars ds) = true.
Proof.
  induction ds as [|d t IH]; [reflexivity|].
  cbn [digit_chars map all_digits].
  rewrite is_digit_char by (apply N.mod_lt; lia). exact IH.
Qed.

(** [Decimal(str(x))] succeeds for a float [x]. *)
Lemma of_str_float (x : float_repr) :
  exists d : Decimal, Dec.of_str (str_of_float x) = Some d.
Proof.
  destruct x as [|neg|neg i0 i f0 f|neg d0 f eneg e0 e1 e].
  - eexists. reflexivity.
  - destruct neg; eexists; reflexivity.
  - pose proof (digit_chars_digits (i0 :: i)) as HI.
    pose proof (digit_chars_digits (f0 :: f)) as HF.
    cbn [str_of_float].
    change ([46] ++ digit_chars (f0 :: f)) with (46 :: digit_chars (f0 :: f)).
    pose proof (parse_number_plain _ _ true HI HF) as P.
    assert (Ht : forallb tight
                   (sign_chars neg ++ digit_chars (i0 :: i)
                      ++ 46 :: digit_chars (f0 :: f)) = true).
    { rewrite !forallb_app. cbn [forallb].
      rewrite (tight_digits _ HI), (tight_digits _ HF).
      now destruct neg. }
    rewrite of_str_tight by exact Ht.
    destruct neg; cbn [sign_chars app].
    + cbn [parse_sign]. rewrite P; [eexists; reflexivity|discriminate|discriminate].
    + change (digit_chars (i0 :: i)) with
        ((48 + i0 mod 10) :: digit_chars i) at 1.
      cbn [app]. rewrite parse_sign_digit
        by (apply is_digit_char, N.mod_lt; lia).
      change ((48 + i0 mod 10) :: digit_chars i ++ 46 :: digit_chars (f0 :: f))
        with (digit_chars (i0 :: i) ++ 46 :: digit_chars (f0 :: f)).
      rewrite P; [eexists; reflexivity|discriminate|discriminate].
  - pose proof (digit_chars_digits [d0]) as HI.
    pose proof (digit_chars_digits f) as HF.
    pose proof (digit_chars_digits (e0 :: e1 :: e)) as HE.
    cbn [str_of_float].
    set (P := match f with [] => [] | _ :: _ => 46 :: digit_chars f end).
    assert (HP : P = if (match f with [] => false | _ => true end)
                     then 46 :: digit_chars f else []).
    { subst P. now destruct f. }
    change ([101] ++ [if eneg then 45 else 43] ++ digit_chars (e0 :: e1 :: e))
      with (101 :: (if eneg then 45 else 43) :: digit_chars (e0 :: e1 :: e)).
    pose proof (parse_number_exp (digit_chars [d0]) (digit_chars f)
                  (match f with [] => false | _ => true end) eneg
                  (digit_chars (e0 :: e1 :: e)) HI HF HE
                  ltac:(discriminate) ltac:(discriminate)
                  ltac:(destruct f; [reflexivity|discriminate])) as Q.
    rewrite <- HP in Q.
    assert (Ht : forallb tight
                   (sign_chars neg ++ digit_chars [d0] ++ P
                      ++ 101 :: (if eneg then 45 else 43)
                           :: digit_chars (e0 :: e1 :: e)) = true).
    { rewrite !forallb_app. cbn [forallb].
      rewrite (tight_digits _ HI), (tight_digits _ HE).
      assert (HPt : forallb tight P = true).
      { subst P. destruct f; [reflexivity|]. cbn [forallb].
        now rewrite (tight_digits _ HF). }
      rewrite HPt. destruct neg, eneg; reflexivity. }
    rewrite of_str_tight by exact Ht.
    destruct neg; cbn [sign_chars app].
    + cbn [parse_sign]. rewrite Q. eexists; reflexivity.
    + change (digit_chars [d0]) with [48 + d0 mod 10] at 1.
      cbn [app]. rewrite parse_sign_digit
        by (apply is_digit_char, N.mod_lt; lia).
      change ((48 + d0 mod 10)
                :: P ++ 101 :: (if eneg then 45 else 43)
                     :: digit_chars (e0 :: e1 :: e))
        with (digit_chars [d0] ++ P ++ 101 :: (if eneg then 45 else 43)
                :: digit_chars (e0 :: e1 :: e)).
      rewrite Q. eexists; reflexivity.
Qed.

End CtorFacts.

Import CtorFacts.

(** ** [parse_german_amount] returns for a string, a float and an [int]
       within the digit limit *)

Lemma detect_format_returns (s : str) : exists t : str, detect_format s = Ok t.
Proof.
  unfold detect_format.
  destruct ((count comma s =? 1)%nat && (count dot s <=? 1)%nat) eqn:E1.
  - destruct (count dot s =? 1)%nat eqn:E2.
    + apply andb_true_iff in E1 as [Ec _].
      apply Nat.eqb_eq in Ec. apply Nat.eqb_eq in E2.
      destruct (index_found dot s ltac:(lia)) as [i Hi].
      destruct (index_found comma s ltac:(lia)) as [j Hj].
      rewrite Hi, Hj. cbn [bind]. destruct (i <? j)%nat; eexists; reflexivity.
    + eexists; reflexivity.
  - destruct ((count dot s =? 1)%nat && (count comma s =? 0)%nat).
    + repeat match goal with
             | |- context [if ?b then _ else _] => destruct b
             end; eexists; reflexivity.
    + destruct (1 <? count dot s)%nat; eexists; reflexivity.
Qed.

Lemma str_of_within_limit (v : PyValue) :
  within_limit v -> str_of v = Ok (str_ v).
Proof.
  destruct v as [s|n|x|b]; cbn [within_limit str_of]; intros H;
    try reflexivity.
  destruct (Z.leb_spec (10 ^ int_max_str_digits) (Z.abs n)); [lia|reflexivity].
Qed.

Lemma parse_german_amount_returns (v : PyValue) :
  within_limit v ->
  exists (d : Decimal) (w : list str), parse_german_amount v = Ok (d, w).
Proof.
  intros Hv. pose proof (str_of_within_limit v Hv) as Hs.
  destruct v as [s|n|x|b]; unfold parse_german_amount;
    try rewrite Hs; unfold Decimal_; cbn [str_ bind].
  - destruct (detect_format_returns (clean s)) as [t Ht]. rewrite Ht.
    cbn [bind]. destruct (Dec.of_str t); eexists; eexists; reflexivity.
  - rewrite of_str_int. eexists; eexists; reflexivity.
  - destruct (of_str_float x) as [d Hd]. rewrite Hd.
    eexists; eexists; reflexivity.
  - contradiction.
Qed.

Lemma returned_parsed (v : PyValue) :
  within_limit v -> returned (parse_german_amount v) = Ok (parsed v).
Proof.
  intros Hv. unfold parsed.
  destruct (parse_german_amount_returns v Hv) as [d [w H]].
  now rewrite H.
Qed.

Lemma returned_parsed_str (s : str) :
  returned (parse_german_amount (PyStr s)) = Ok (parsed (PyStr s)).
Proof. now apply returned_parsed. Qed.

(** A call that raises leaves a NaN in [parsed]; an input that is read as
    a number is one for which the call returns. *)
Lemma returned_not_nan (v : PyValue) :
  is_nan (parsed v) = false ->
  returned (parse_german_amount v) = Ok (parsed v).
Proof.
  unfold parsed.
  destruct (returned (parse_german_amount v)) as [d|e]; [reflexivity|].
  discriminate.
Qed.

Lemma amount_not_nan (k : Z) (d : Decimal) : amount k d -> is_nan d = false.
Proof. destruct d; simpl; [reflexivity|contradiction|contradiction]. Qed.

Lemma returned_amount (k : Z) (v : PyValue) :
  amount k (parsed v) -> returned (parse_german_amount v) = Ok (parsed v).
Proof. intros H. exact (returned_not_nan v (amount_not_nan k _ H)). Qed.

(** C6. [parse_german_amount] raises for an [int] that is a [bool]: the
    text of [True] or [False] is handed to the [Decimal] constructor
    outside the [try], and InvalidOperation leaves the function; so does
    ValueError for an [int] above the interpreter's digit limit.  The same
    text given as a string goes through the [try] and gives the zero
    [Decimal('0')] and one warning. *)
Theorem parse_german_amount_raises_for_bool :
  (forall b : bool, parse_german_amount (PyBool b) = Raise InvalidOperation)
  /\ parse_german_amount (PyInt (10 ^ int_max_str_digits)) = Raise ValueError
  /\ (forall b : bool,
        parse_german_amount (PyStr (str_ (PyBool b)))
        = Ok (Finite false 0 0, [warning_text (str_ (PyBool b))])).
Proof.
  split; [|split].
  - intros [|]; vm_compute; reflexivity.
  - vm_compute; reflexivity.
  - intros [|]; vm_compute; reflexivity.
Qed.

(** ** The balance check on amounts of bounded magnitude *)

Lemma of_Decimal_amount (k : Z) (d : Decimal) :
  amount k d -> Flt.of_Decimal d = Ok (to_float d).
Proof. destruct d; simpl; [reflexivity|contradiction|contradiction]. Qed.

Lemma summiere_parsed (k : Z) (ts : list (option PyValue)) :
  Forall (amount k) (map (fun t => parsed (get_betrag t)) ts) ->
  forall acc : Decimal,
    summiere acc ts
    = summiere_v8 acc (map (fun t => parsed (get_betrag t)) ts).
Proof.
  induction ts as [|t ts IH]; intros H acc; [reflexivity|].
  cbn [map] in H. inversion H as [|? ? Ht Hts]; subst.
  cbn [summiere summiere_v8 map]. rewrite (returned_amount k _ Ht).
  cbn [bind].
  destruct (Dec.add acc (parsed (get_betrag t))); [now apply IH|reflexivity].
Qed.

Section ExactCheck.

Variable k : Z.
Hypothesis k_range : (0 <= k <= max_places)%Z.

Local Open Scope Z_scope.

Lemma add_units (a b : Decimal) :
  amount k a -> amount k b ->
  Z.abs (units k a + units k b) < exact_bound ->
  exists r : Decimal,
    Dec.add a b = Ok r /\ amount k r /\ units k r = units k a + units k b.
Proof.
  destruct a as [s1 c1 e1| |], b as [s2 c2 e2| |]; simpl; try contradiction.
  intros H1 H2 Hb.
  pose proof (aligned_units k (signed s1 c1) (signed s2 c2) e1 e2 H1 H2) as Hal.
  cbv zeta in Hal.
  eexists. split.
  - apply (add_exact k k_range s1 s2 c1 c2 e1 e2 H1 H2). rewrite Hal. exact Hb.
  - split; [simpl; lia|]. cbn [units]. rewrite <- Hal. f_equal.
    set (v := signed s1 c1 * 10 ^ (e1 - Z.min e1 e2)
              + signed s2 c2 * 10 ^ (e2 - Z.min e1 e2)).
    destruct (Z.eqb_spec v 0) as [Hz|Hnz].
    + rewrite Hz. unfold signed. simpl.
      now destruct ((c1 =? 0)%N && (c2 =? 0)%N), (s1 && s2).
    + apply signed_mk.
Qed.

Lemma units_negate (d : Decimal) : units k (copy_negate d) = - units k d.
Proof.
  destruct d as [s c e| |]; simpl; try reflexivity.
  unfold signed. destruct s; simpl; lia.
Qed.

Lemma sub_units (a b : Decimal) :
  amount k a -> amount k b ->
  Z.abs (units k a - units k b) < exact_bound ->
  exists r : Decimal,
    Dec.sub a b = Ok r /\ amount k r /\ units k r = units k a - units k b.
Proof.
  intros Ha Hb Hbound.
  assert (Hs : Dec.sub a b = Dec.add a (copy_negate b)).
  { destruct a, b; simpl in *; try contradiction. reflexivity. }
  rewrite Hs.
  destruct (add_units a (copy_negate b) Ha) as [r [Hr [Hamt Hu]]].
  - destruct b; simpl in *; try contradiction. exact Hb.
  - rewrite units_negate. replace (units k a + - units k b)
      with (units k a - units k b) by lia. exact Hbound.
  - exists r. rewrite units_negate in Hu. repeat split; assumption || lia.
Qed.

Lemma abs_units (a : Decimal) :
  amount k a -> Z.abs (units k a) < exact_bound ->
  exists r : Decimal,
    Dec.abs a = Ok r /\ amount k r /\ units k r = Z.abs (units k a).
Proof.
  destruct a as [s c e| |]; simpl; try contradiction.
  intros He Hb.
  pose proof (pow10_pos (e + k) ltac:(lia)) as Hp.
  assert (Hu : Z.abs (signed s c * 10 ^ (e + k)) = Z.of_N c * 10 ^ (e + k)).
  { unfold signed. destruct s; nia. }
  assert (HE : Etiny <= e <= 0).
  { unfold Etiny, Emin, prec, max_places in *. lia. }
  destruct (N.eq_dec c 0) as [->|Hc].
  - exists (Finite false 0 e). rewrite fix_zero by exact HE.
    split; [reflexivity|]. split; [exact He|]. simpl. lia.
  - exists (Finite false c e). rewrite fix_exact by (try assumption; nia).
    rewrite N2Z.id. split; [reflexivity|]. split; [exact He|].
    cbn [units signed]. lia.
Qed.

Lemma summiere_v8_units (es : list Decimal) :
  Forall (amount k) es -> sum_abs k es < exact_bound ->
  exists s : Decimal,
    summiere_v8 (Finite false 0 0) es = Ok s
    /\ amount k s /\ units k s = sum_units k es.
Proof.
  intros Ham Hb. change (Finite false 0 0) with (mk 0 0).
  destruct (summiere_v8_exact k k_range es 0 0 ltac:(lia) Ham
              ltac:(simpl; lia)) as [V [HV HVal]].
  exists (mk V (min_exp 0 es)). split; [exact HV|]. split.
  - simpl. apply (min_exp_range k 0 es ltac:(lia) Ham).
  - rewrite units_mk, HVal. lia.
Qed.

Lemma berechne_exact (o c s : Decimal) :
  amount k o -> amount k c -> amount k s ->
  Z.abs (units k o) + Z.abs (units k c) + Z.abs (units k s) < exact_bound ->
  exists l : salden,
    berechne o c s = Ok l
    /\ l_anfangssaldo l = o /\ l_endsaldo l = c /\ l_summe l = s
    /\ amount k (l_berechneter_saldo l)
    /\ units k (l_berechneter_saldo l) = units k o + units k s
    /\ amount k (l_differenz l)
    /\ units k (l_differenz l)
       = Z.abs (units k c - units k (l_berechneter_saldo l))
    /\ Dec.add o s = Ok (l_berechneter_saldo l).
Proof.
  intros Ho Hc Hs Hb. unfold berechne.
  destruct (add_units o s Ho Hs ltac:(lia)) as [b [Hadd [Hbam Hbu]]].
  rewrite Hadd. cbn [bind].
  destruct (sub_units b c Hbam Hc ltac:(lia)) as [d [Hsub [Hdam Hdu]]].
  rewrite Hsub. cbn [bind].
  destruct (abs_units d Hdam ltac:(lia)) as [a [Habs [Haam Hau]]].
  rewrite Habs. cbn [bind].
  eexists. split; [reflexivity|]. cbn.
  repeat split; try assumption. lia.
Qed.

Lemma eq_units (a b : Decimal) :
  amount k a -> amount k b ->
  Dec.eq a b = (units k a =? units k b).
Proof.
  destruct a as [s1 c1 e1| |], b as [s2 c2 e2| |]; simpl;
    try contradiction.
  intros H1 H2. unfold Dec.eq. cbn [is_nan orb cmp].
  pose proof (aligned_units k (signed s1 c1) 0 e1 e2 H1 H2) as A1.
  pose proof (aligned_units k 0 (signed s2 c2) e1 e2 H1 H2) as A2.
  cbv zeta in A1, A2.
  pose proof (pow10_pos (Z.min e1 e2 + k) ltac:(lia)) as Hpos.
  set (x := signed s1 c1 * 10 ^ (e1 - Z.min e1 e2)) in *.
  set (y := signed s2 c2 * 10 ^ (e2 - Z.min e1 e2)) in *.
  set (P := 10 ^ (Z.min e1 e2 + k)) in *.
  assert (Hx : signed s1 c1 * 10 ^ (e1 + k) = x * P) by lia.
  assert (Hy : signed s2 c2 * 10 ^ (e2 + k) = y * P) by lia.
  rewrite Hx, Hy.
  destruct (Z.compare_spec x y); destruct (Z.eqb_spec (x * P) (y * P));
    try reflexivity; nia.
Qed.

End ExactCheck.

Lemma bericht_exact (k : Z) (l : salden) :
  (2 <= k <= max_places)%Z ->
  amount k (l_anfangssaldo l) -> amount k (l_endsaldo l) ->
  amount k (l_summe l) -> amount k (l_berechneter_saldo l) ->
  amount k (l_differenz l) ->
  bericht l
  = Ok {| pv_anfangssaldo := to_float (l_anfangssaldo l);
          endsaldo_aus_dokument := to_float (l_endsaldo l);
          transaktionen_summe := to_float (l_summe l);
          berechneter_endsaldo := to_float (l_berechneter_saldo l);
          differenz := to_float (l_differenz l);
          validierung_ok := (units k (l_differenz l) <? 10 ^ (k - 2))%Z |}.
Proof.
  intros Hk H1 H2 H3 H4 H5. unfold bericht.
  rewrite !(of_Decimal_amount k) by assumption. cbn [bind].
  rewrite (lt_units k (l_differenz l) tolerance H5)
    by (simpl; lia).
  cbn [bind units tolerance signed].
  replace (-2 + k)%Z with (k - 2)%Z by lia.
  rewrite Z.mul_1_l. reflexivity.
Qed.

(** C1 (amended). For every statement period whose opening balance [o],
    document closing balance [c] and entries [es] are amounts with at most
    [k] decimal places, with [|o| + |c| + sum |es|] below [10^28] units of
    [10^-k] so that no [Decimal] operation rounds, the check returns
    entries_sum = the exact decimal sum of [es], computed_closing =
    [o + entries_sum], discrepancy = [|computed_closing - c|] (the unsigned
    magnitude, not a signed difference), and is_reconciled = true exactly
    when discrepancy < 0.01.  The returned mapping holds the floats nearest
    to these values.  v8 computes the same from the resolved amounts. *)
Theorem validate_with_python_exact :
  forall (k : Z) (r : llm_result),
    (2 <= k <= max_places)%Z ->
    let o := parsed (saldo_betrag (anfangssaldo r)) in
    let c := parsed (saldo_betrag (endsaldo r)) in
    let es := map (fun t => parsed (get_betrag t)) (transaktionen r) in
    amount k o -> amount k c -> Forall (amount k) es ->
    (Z.abs (units k o) + Z.abs (units k c) + sum_abs k es < exact_bound)%Z ->
    exists l : salden,
      validate_locals r = Ok l
      /\ validate_locals_v8 o c es = Ok l
      /\ l_anfangssaldo l = o /\ l_endsaldo l = c
      /\ units k (l_summe l) = sum_units k es
      /\ units k (l_berechneter_saldo l) = (units k o + sum_units k es)%Z
      /\ units k (l_differenz l)
         = Z.abs (units k c - units k (l_berechneter_saldo l))
      /\ let p :=
           {| pv_anfangssaldo := to_float o;
              endsaldo_aus_dokument := to_float c;
              transaktionen_summe := to_float (l_summe l);
              berechneter_endsaldo := to_float (l_berechneter_saldo l);
              differenz := to_float (l_differenz l);
              validierung_ok :=
                (units k (l_differenz l) <? 10 ^ (k - 2))%Z |} in
         validate_with_python r = Validiert p
         /\ forall conversions : list conversion_report,
             pruefung_von_v8 (validate_with_python_v8 o c es conversions)
             = Some p.
Proof.
  intros k r Hk o c es Ho Hc Hes Hb.
  assert (Hk0 : (0 <= k <= max_places)%Z) by lia.
  pose proof (sum_abs_nonneg k es) as Hnn.
  destruct (summiere_v8_units k Hk0 es Hes ltac:(lia)) as [s [Hs [Hsam Hsu]]].
  pose proof (sum_units_le_abs k es) as Hle.
  destruct (berechne_exact k Hk0 o c s Ho Hc Hsam ltac:(lia))
    as [l [Hl [Ha [He [Hsum [Hbam [Hbu [Hdam [Hdu _]]]]]]]]].
  assert (Hv8 : validate_locals_v8 o c es = Ok l).
  { unfold validate_locals_v8. rewrite Hs. exact Hl. }
  assert (Hv7 : validate_locals r = Ok l).
  { unfold validate_locals.
    rewrite (returned_amount k _ Ho), (returned_amount k _ Hc). cbn [bind].
    rewrite (summiere_parsed k) by exact Hes. exact Hv8. }
  assert (Hber : bericht l
                 = Ok {| pv_anfangssaldo := to_float o;
                         endsaldo_aus_dokument := to_float c;
                         transaktionen_summe := to_float (l_summe l);
                         berechneter_endsaldo := to_float (l_berechneter_saldo l);
                         differenz := to_float (l_differenz l);
                         validierung_ok :=
                           (units k (l_differenz l) <? 10 ^ (k - 2))%Z |}).
  { rewrite (bericht_exact k l Hk); rewrite ?Ha, ?He, ?Hsum; auto. }
  exists l. split; [exact Hv7|]. split; [exact Hv8|].
  split; [exact Ha|]. split; [exact He|].
  split; [rewrite Hsum; exact Hsu|].
  split; [rewrite Hbu, Hsu; reflexivity|].
  split; [exact Hdu|].
  cbv zeta. split.
  - unfold validate_with_python. rewrite Hv7. cbn [bind]. now rewrite Hber.
  - intros conversions. unfold validate_with_python_v8.
    rewrite Hv8. cbn [bind]. now rewrite Hber.
Qed.

(** The statement of the v8 prompt: sum 13893.11, computed closing
    balance 405107.75, discrepancy 0.00, reconciled. *)
Lemma validate_with_python_exact_witness :
  exists l : salden,
    validate_locals auszug_beispiel = Ok l
    /\ units 2 (l_summe l) = 1389311%Z
    /\ units 2 (l_berechneter_saldo l) = 40510775%Z
    /\ units 2 (l_differenz l) = 0%Z
    /\ exists p : pruefung,
        validate_with_python auszug_beispiel = Validiert p
        /\ validierung_ok p = true.
Proof.
  destruct (validate_with_python_exact 2 auszug_beispiel)
    as [l [H1 [_ [_ [_ [H2 [H3 [H4 [H5 _]]]]]]]]].
  - unfold max_places. lia.
  - amount_by_computation.
  - amount_by_computation.
  - cbn [map transaktionen auszug_beispiel]. amounts_by_computation.
  - vm_compute. reflexivity.
  - exists l. split; [exact H1|].
    split; [rewrite H2; vm_compute; reflexivity|].
    assert (E3 : units 2 (l_berechneter_saldo l) = 40510775%Z)
      by (rewrite H3; vm_compute; reflexivity).
    split; [exact E3|].
    assert (E4 : units 2 (l_differenz l) = 0%Z)
      by (rewrite H4, E3; vm_compute; reflexivity).
    split; [exact E4|].
    eexists. split; [exact H5|]. cbn [validierung_ok]. rewrite E4. reflexivity.
Defined.

(** C1, as stated, fails.  A statement without entries and with opening
    balance 0 and document closing balance -1 has
    [closing - computed_closing = -1], and the check reports the
    discrepancy 1.  Two entries 9999999999999999999999999999 and 2 have the
    exact sum 10000000000000000000000000001, and the check reports the
    entries sum 1.000000000000000000000000000E+28. *)
Lemma validate_with_python_discrepancy_unsigned :
  (exists l : salden,
      validate_locals auszug_minus_eins = Ok l
      /\ Dec.sub (l_endsaldo l) (l_berechneter_saldo l) = Ok (Finite true 1 0)
      /\ l_differenz l = Finite false 1 0
      /\ option_map differenz (pruefung_von (validate_with_python auszug_minus_eins))
         = Some 1%float)
  /\ (exists l : salden,
         validate_locals auszug_29_stellen = Ok l
         /\ l_summe l = Finite false 1000000000000000000000000000 1
         /\ Dec.eq (l_summe l) (Finite false 10000000000000000000000000001 0)
            = false).
Proof.
  split; eexists; (split; [vm_compute; reflexivity|]);
    repeat split; vm_compute; reflexivity.
Qed.

(** C7 (amended). For every statement period whose entries list is empty
    and whose opening and closing balance are amounts with at most two
    decimal places and together below [10^28] cents, the check returns a
    computed closing balance equal to the opening balance (the same
    [Decimal], except that a negative zero becomes a positive one), and
    is_reconciled is true if and only if the opening balance equals the
    closing balance. *)
Theorem validate_with_python_v8_no_entries :
  forall (o c : Decimal) (conversions : list conversion_report),
    amount 2 o -> amount 2 c ->
    (Z.abs (units 2 o) + Z.abs (units 2 c) < exact_bound)%Z ->
    exists (l : salden) (p : pruefung_v8),
      validate_locals_v8 o c [] = Ok l
      /\ validate_with_python_v8 o c [] conversions = Validiert_v8 p
      /\ Dec.eq (l_berechneter_saldo l) o = true
      /\ l_berechneter_saldo l = mk (units 2 o / 10 ^ (exponent o + 2)) (exponent o)
      /\ berechneter_endsaldo (pruefung_of p) = to_float (l_berechneter_saldo l)
      /\ validierung_ok (pruefung_of p) = Dec.eq o c.
Proof.
  intros o c conversions Ho Hc Hb.
  assert (Hk0 : (0 <= 2 <= max_places)%Z) by (unfold max_places; lia).
  assert (Hk2 : (2 <= 2 <= max_places)%Z) by (unfold max_places; lia).
  assert (Hz : amount 2 (Finite false 0 0)) by (simpl; lia).
  destruct (berechne_exact 2 Hk0 o c (Finite false 0 0) Ho Hc Hz
              ltac:(simpl; lia))
    as [l [Hl [Ha [He [Hsum [Hbam [Hbu [Hdam [Hdu Hadd]]]]]]]]].
  assert (Hber := bericht_exact 2 l Hk2).
  rewrite Ha, He, Hsum in Hber. specialize (Hber Ho Hc Hz Hbam Hdam).
  eexists l, _. split; [exact Hl|]. split.
  { unfold validate_with_python_v8, validate_locals_v8. cbn [summiere_v8 bind].
    rewrite Hl. cbn [bind]. rewrite Hber. reflexivity. }
  cbn [pruefung_of berechneter_endsaldo validierung_ok].
  simpl in Hbu. rewrite Z.add_0_r in Hbu.
  split; [rewrite (eq_units 2 _ o Hbam Ho), Hbu; apply Z.eqb_refl|].
  split.
  { destruct o as [s n e| |]; simpl in Ho; try contradiction.
    change (Finite false 0 0) with (mk 0 0) in Hadd.
    rewrite (add_amount_mk 2 Hk0 s n e 0 0 ltac:(lia) Ho) in Hadd.
    - injection Hadd as <-. cbn [exponent units].
      replace (Z.min e 0) with e by lia.
      rewrite Z.sub_diag, Z.mul_1_r, Z.add_0_r.
      rewrite Z.div_mul; [reflexivity|].
      pose proof (pow10_pos (e + 2) ltac:(lia)). lia.
    - replace (Z.min e 0) with e by lia.
      rewrite Z.sub_diag, Z.mul_1_r, Z.add_0_r. simpl in Hb. lia. }
  split; [reflexivity|].
  rewrite Hdu, Hbu, (eq_units 2 o c Ho Hc).
  change (10 ^ (2 - 2))%Z with 1%Z.
  destruct (Z.ltb_spec (Z.abs (units 2 c - units 2 o)) 1);
    destruct (Z.eqb_spec (units 2 o) (units 2 c)); try reflexivity; lia.
Qed.

(** An empty statement with opening and closing balance 405107.75. *)
Lemma validate_with_python_v8_no_entries_witness :
  exists (l : salden) (p : pruefung_v8),
    validate_locals_v8 (Finite false 40510775 (-2))
                       (Finite false 40510775 (-2)) [] = Ok l
    /\ validate_with_python_v8 (Finite false 40510775 (-2))
                               (Finite false 40510775 (-2)) [] []
       = Validiert_v8 p
    /\ l_berechneter_saldo l = Finite false 40510775 (-2)
    /\ validierung_ok (pruefung_of p) = true.
Proof.
  destruct (validate_with_python_v8_no_entries
              (Finite false 40510775 (-2)) (Finite false 40510775 (-2)) [])
    as [l [p [H1 [H2 [_ [H3 [_ H4]]]]]]].
  - simpl. lia.
  - simpl. lia.
  - vm_compute. reflexivity.
  - exists l, p. split; [exact H1|]. split; [exact H2|].
    split; [rewrite H3; vm_compute; reflexivity|].
    rewrite H4. vm_compute. reflexivity.
Defined.

(** C7, as stated, fails.  With an empty entries list, opening balance
    100.00 and closing balance 100.005, the check reports is_reconciled =
    true although the two balances differ.  With opening and closing balance
    both 12345678901234567890123456789.5 (30 digits), the computed closing
    balance is 1.234567890123456789012345679E+28, not the opening
    balance, and is_reconciled is false although the balances are equal. *)
Lemma validate_with_python_v8_no_entries_tolerance :
  (option_map validierung_ok
     (pruefung_von_v8
        (validate_with_python_v8 (Finite false 10000 (-2))
                                 (Finite false 100005 (-3)) [] []))
   = Some true
   /\ Dec.eq (Finite false 10000 (-2)) (Finite false 100005 (-3)) = false)
  /\ (exists l : salden,
         validate_locals_v8
           (Finite false 123456789012345678901234567895 (-1))
           (Finite false 123456789012345678901234567895 (-1)) [] = Ok l
         /\ l_berechneter_saldo l = Finite false 1234567890123456789012345679 1
         /\ Dec.eq (l_berechneter_saldo l)
                   (Finite false 123456789012345678901234567895 (-1)) = false
         /\ option_map validierung_ok
              (pruefung_von_v8
                 (validate_with_python_v8
                    (Finite false 123456789012345678901234567895 (-1))
                    (Finite false 123456789012345678901234567895 (-1)) [] []))
            = Some false).
Proof.
  split; [split; vm_compute; reflexivity|].
  eexists. split; [vm_compute; reflexivity|].
  repeat split; vm_compute; reflexivity.
Qed.

(** C8 (amended). For every statement period whose entries are amounts
    with at most [k] decimal places and whose magnitudes sum to less than
    [10^28] units of [10^-k], and for every permutation of its entries list,
    the check yields the same local values and the same returned mapping: the
    same entries_sum, the same computed_closing and the same is_reconciled
    flag. *)
Theorem validate_with_python_order_independent :
  forall (k : Z) (r r' : llm_result),
    (0 <= k <= max_places)%Z ->
    anfangssaldo r = anfangssaldo r' ->
    endsaldo r = endsaldo r' ->
    Permutation (transaktionen r) (transaktionen r') ->
    let es := map (fun t => parsed (get_betrag t)) (transaktionen r) in
    Forall (amount k) es ->
    (sum_abs k es < exact_bound)%Z ->
    validate_locals r = validate_locals r'
    /\ validate_with_python r = validate_with_python r'.
Proof.
  intros k r r' Hk Ha He Hp es Ham Hb.
  assert (Hl : validate_locals r = validate_locals r').
  { assert (Ham' : Forall (amount k)
                     (map (fun t => parsed (get_betrag t)) (transaktionen r'))).
    { eapply Permutation_Forall; [apply Permutation_map, Hp|exact Ham]. }
    unfold validate_locals.
    rewrite Ha, He, (summiere_parsed k _ Ham), (summiere_parsed k _ Ham').
    fold es.
    rewrite (summiere_v8_perm k Hk es
               (map (fun t => parsed (get_betrag t)) (transaktionen r'))
               (Permutation_map _ Hp) Ham Hb).
    reflexivity. }
  split; [exact Hl|]. unfold validate_with_python. now rewrite Hl.
Qed.

(** The statement of the v8 prompt with its first two entries
    exchanged. *)
Lemma validate_with_python_order_independent_witness :
  validate_locals auszug_beispiel = validate_locals auszug_beispiel_umgestellt
  /\ validate_with_python auszug_beispiel
     = validate_with_python auszug_beispiel_umgestellt.
Proof.
  apply (validate_with_python_order_independent 2).
  - unfold max_places. lia.
  - reflexivity.
  - reflexivity.
  - apply perm_swap.
  - cbn [map transaktionen auszug_beispiel]. amounts_by_computation.
  - vm_compute. reflexivity.
Defined.

(** C8, as stated, fails.  The entries 10000000000000000000000000000, 1
    and -10000000000000000000000000000 reconcile a statement with opening
    and closing balance 0 in this order (entries sum 0) and fail to
    reconcile it when the 1 comes last (entries sum 1). *)
Lemma validate_with_python_order_matters :
  anfangssaldo auszug_gross_a = anfangssaldo auszug_gross_b
  /\ endsaldo auszug_gross_a = endsaldo auszug_gross_b
  /\ Permutation (transaktionen auszug_gross_a) (transaktionen auszug_gross_b)
  /\ l_summe_of (validate_locals auszug_gross_a) = Some (Finite false 0 0)
  /\ l_summe_of (validate_locals auszug_gross_b) = Some (Finite false 1 0)
  /\ option_map validierung_ok
       (pruefung_von (validate_with_python auszug_gross_a)) = Some true
  /\ option_map validierung_ok
       (pruefung_von (validate_with_python auszug_gross_b)) = Some false.
Proof.
  split; [reflexivity|]. split; [reflexivity|].
  split; [apply perm_skip, perm_swap|].
  repeat split; vm_compute; reflexivity.
Qed.

(** ** Continuity *)

(** The loop over [range(len(l) - 1)] visits the pairs of neighbours. *)
Lemma for_each_index_adjacent {A B : Type} (f : A -> A -> exc B) :
  forall (l pre all : list A),
    all = pre ++ l ->
    for_each (fun i => current <- item all i ;;
                       next_stmt <- item all (i + 1) ;;
                       f current next_stmt)
             (seq (List.length pre) (List.length l - 1))
    = for_each (fun ab => f (fst ab) (snd ab)) (adjacent l).
Proof.
  induction l as [|a t IH]; intros pre all Hall; [reflexivity|].
  destruct t as [|b t']; [reflexivity|].
  replace (List.length (a :: b :: t') - 1)%nat with (S (List.length t'))
    by (simpl; lia).
  cbn [seq adjacent for_each].
  assert (Ha : item all (List.length pre) = Ok a).
  { unfold item. subst all. rewrite nth_error_app2 by lia.
    now rewrite Nat.sub_diag. }
  assert (Hb : item all (List.length pre + 1) = Ok b).
  { unfold item. subst all. rewrite nth_error_app2 by lia.
    replace (List.length pre + 1 - List.length pre)%nat with 1%nat by lia.
    reflexivity. }
  rewrite Ha, Hb. cbn [bind fst snd].
  destruct (f a b) as [c|e]; [|reflexivity]. cbn [bind].
  specialize (IH (pre ++ [a]) all).
  rewrite length_app in IH. cbn [List.length] in IH.
  replace (S (List.length t') - 1)%nat with (List.length t') in IH by lia.
  rewrite Nat.add_1_r in IH.
  rewrite IH by (subst all; now rewrite <- app_assoc).
  reflexivity.
Qed.

Lemma range_len {A : Type} (l : list A) :
  range (Z.of_nat (List.length l) - 1) = seq 0 (List.length l - 1).
Proof. unfold range. f_equal. lia. Qed.

Lemma check_continuity_v8_adjacent (analysen : list analyse_v8) :
  check_continuity_v8 analysen
  = (checks <- for_each (fun ab => check_pair_v8 (fst ab) (snd ab))
                        (adjacent analysen) ;;
     Ok {| kontinuitaet_pruefungen := checks;
           alle_ok := forallb kontinuitaet_ok checks |}).
Proof.
  unfold check_continuity_v8. rewrite range_len.
  pose proof (for_each_index_adjacent check_pair_v8 analysen [] analysen
                eq_refl) as H.
  change (List.length (@nil analyse_v8)) with 0%nat in H.
  now rewrite H.
Qed.





(** With the opening balance 450105.96 instead, the same pair is reported
    as not continuous. *)
Example check_continuity_v8_gap :
  option_map alle_ok
    (match check_continuity_v8 [analyse_4; analyse_5_luecke] with
     | Ok k => Some k
     | Raise _ => None
     end) = Some false.
Proof. vm_compute. reflexivity. Qed.

(** C10. For every input sequence with fewer than two statement periods,
    [check_continuity_v8] and v7's [check_continuity] return an empty list
    of checks and all_ok = true, whatever the single statement holds. *)
Theorem check_continuity_fewer_than_two :
  forall (analysen : list analyse_v8) (analysen_v7 : list llm_result),
    (List.length analysen < 2)%nat ->
    (List.length analysen_v7 < 2)%nat ->
    check_continuity_v8 analysen
    = Ok {| kontinuitaet_pruefungen := []; alle_ok := true |}
    /\ check_continuity analysen_v7
       = Ok {| kontinuitaet_pruefungen := []; alle_ok := true |}.
Proof.
  intros analysen analysen_v7 H8 H7. split.
  - destruct analysen as [|a [|b t]]; [reflexivity|reflexivity|].
    simpl in H8. lia.
  - destruct analysen_v7 as [|a [|b t]]; [reflexivity|reflexivity|].
    simpl in H7. lia.
Qed.

(** A batch of a single statement. *)
Lemma check_continuity_fewer_than_two_witness :
  check_continuity_v8 [analyse_4]
  = Ok {| kontinuitaet_pruefungen := []; alle_ok := true |}
  /\ check_continuity [auszug_beispiel]
     = Ok {| kontinuitaet_pruefungen := []; alle_ok := true |}.
Proof.
  apply (check_continuity_fewer_than_two [analyse_4] [auszug_beispiel]);
    simpl; lia.
Defined.

(** ** Classification *)

Lemma startswith_iff (p s : str) :
  startswith p s = true <-> exists b : str, s = p ++ b.
Proof.
  revert s. induction p as [|x p IH]; intros s; simpl.
  - split; [intros _; now exists s|reflexivity].
  - destruct s as [|y s].
    + split; [discriminate|intros [b Hb]; discriminate].
    + rewrite andb_true_iff, N.eqb_eq, IH. split.
      * intros [-> [b ->]]. now exists b.
      * intros [b Hb]. injection Hb as -> ->. split; [reflexivity|now exists b].
Qed.

Lemma contains_iff (p s : str) :
  contains p s = true <-> exists a b : str, s = a ++ p ++ b.
Proof.
  induction s as [|y s IH].
  - cbn [contains]. rewrite orb_false_r, startswith_iff. split.
    + intros [b Hb]. now exists [], b.
    + intros [a [b Hab]]. destruct a; [now exists b|discriminate].
  - cbn [contains]. rewrite orb_true_iff, startswith_iff, IH. split.
    + intros [[b Hb]|[a [b Hab]]].
      * now exists [], b.
      * exists (y :: a), b. now rewrite Hab.
    + intros [a [b Hab]]. destruct a as [|x a].
      * left. now exists b.
      * right. injection Hab as -> ->. now exists a, b.
Qed.

(** A keyword found in a description is found, in lower case, in the
    lower-cased description. *)
Lemma contains_lower (p s : str) :
  contains p s = true -> contains (lower p) (lower s) = true.
Proof.
  rewrite !contains_iff. intros [a [b ->]].
  exists (lower a), (lower b). unfold lower. now rewrite !map_app.
Qed.

(** C5 (amended). For every description and amount:
    a description containing "Wertpapierabrechnung" is classified without
    regard to the amount and its sign: as a security sale when it contains
    [verkauf]; as a security purchase when it contains [kauf] and neither
    [verkauf] nor [vv]; as a security statement when it contains none of
    [vv], [verkauf], [kv] and [kauf] (each in any letter case).  A
    description containing "Überweisung" to which neither security rule
    applies is an incoming transfer when the amount is not below zero (so
    for +68700.16) and an outgoing one when it is.  A description
    containing "Verwahrentgelt" is classified as custody fee, whatever the
    amount, when it also contains [abrechnung] and no earlier rule
    applies. *)
Theorem classify_transaction_type_keywords :
  forall (d : str) (a : Decimal),
    (contains (py "Wertpapierabrechnung") d = true ->
     (contains (py "verkauf") (lower d) = true ->
      classify_transaction_type d a = Ok Wertpapierverkauf)
     /\ (contains (py "vv") (lower d) = false ->
         contains (py "verkauf") (lower d) = false ->
         contains (py "kauf") (lower d) = true ->
         classify_transaction_type d a = Ok Wertpapierkauf)
     /\ (contains (py "vv") (lower d) = false ->
         contains (py "verkauf") (lower d) = false ->
         contains (py "kv") (lower d) = false ->
         contains (py "kauf") (lower d) = false ->
         classify_transaction_type d a = Ok Wertpapierabrechnung))
    /\ (contains (py "Überweisung") d = true ->
        security_rule d = false ->
        forall neg : bool,
          Dec.lt a (Dec.of_int 0) = Ok neg ->
          classify_transaction_type d a
          = Ok (if neg then Ueberweisung_ausgehend
                else Ueberweisung_eingehend))
    /\ (contains (py "Verwahrentgelt") d = true ->
        contains (py "abrechnung") (lower d) = true ->
        earlier_rule d = false ->
        classify_transaction_type d a = Ok Verwahrentgelt).
Proof.
  intros d a. split; [|split].
  - intros H. apply contains_lower in H.
    change (lower (py "Wertpapierabrechnung"))
      with (py "wertpapierabrechnung") in H.
    assert (Hvv : contains (py "vv") (lower d) = false ->
                  contains (py "vv") d = false).
    { intros Hl. destruct (contains (py "vv") d) eqn:E; [|reflexivity].
      apply contains_lower in E. rewrite <- Hl. symmetry. exact E. }
    assert (Hkv : contains (py "kv") (lower d) = false ->
                  contains (py "kv") d = false).
    { intros Hl. destruct (contains (py "kv") d) eqn:E; [|reflexivity].
      apply contains_lower in E. rewrite <- Hl. symmetry. exact E. }
    unfold classify_transaction_type. rewrite H. cbn [orb].
    split; [|split].
    + intros Hv. rewrite Hv, orb_true_r. reflexivity.
    + intros Hnvv Hnv Hk. rewrite (Hvv Hnvv), Hnv, Hk, orb_true_r.
      reflexivity.
    + intros Hnvv Hnv Hnkv Hnk.
      rewrite (Hvv Hnvv), Hnv, (Hkv Hnkv), Hnk. reflexivity.
  - intros H Hs neg Hlt. apply contains_lower in H.
    change (lower (py "Überweisung")) with (py "überweisung") in H.
    unfold security_rule in Hs.
    apply orb_false_iff in Hs as [Hs Hsp].
    unfold classify_transaction_type.
    rewrite Hs, Hsp, H. cbn [orb]. rewrite Hlt. reflexivity.
  - intros H Hab He. apply contains_lower in H.
    change (lower (py "Verwahrentgelt")) with (py "verwahrentgelt") in H.
    unfold earlier_rule, security_rule in He.
    repeat match type of He with
           | (_ || _) = false => apply orb_false_iff in He as [He ?]
           end.
    unfold classify_transaction_type.
    repeat match goal with
           | E : _ = false |- _ => rewrite E; clear E
           end.
    cbn [orb]. rewrite Hab, H. reflexivity.
Qed.

(** The three descriptions of the claim, each in a form the rules
    accept: a purchase with its marker, a plain transfer, a custody-fee
    settlement. *)
Lemma classify_transaction_type_keywords_witness :
  classify_transaction_type (py "Wertpapierabrechnung Kauf") betrag_kauf
  = Ok Wertpapierkauf
  /\ classify_transaction_type (py "Überweisung") betrag_eingang
     = Ok Ueberweisung_eingehend
  /\ classify_transaction_type (py "Abrechnung Verwahrentgelt") betrag_entgelt
     = Ok Verwahrentgelt.
Proof.
  split; [|split].
  - apply (proj1 (proj2 (proj1 (classify_transaction_type_keywords
                                  (py "Wertpapierabrechnung Kauf")
                                  betrag_kauf) eq_refl)));
      vm_compute; reflexivity.
  - apply (proj1 (proj2 (classify_transaction_type_keywords
                           (py "Überweisung") betrag_eingang))
             eq_refl eq_refl false eq_refl).
  - apply (proj2 (proj2 (classify_transaction_type_keywords
                           (py "Abrechnung Verwahrentgelt") betrag_entgelt)));
      vm_compute; reflexivity.
Defined.

(** C5, as stated, fails.  "Wertpapierabrechnung" with amount -101046.00
    is classified as a security statement, not as a purchase: the sign is
    not consulted.  "Verwahrentgelt" alone falls through to the generic
    rule and follows the sign of the amount. *)
Lemma classify_transaction_type_ignores_sign :
  classify_transaction_type (py "Wertpapierabrechnung") betrag_kauf
  = Ok Wertpapierabrechnung
  /\ classify_transaction_type (py "Verwahrentgelt") betrag_entgelt
     = Ok Ausgang
  /\ classify_transaction_type (py "Verwahrentgelt") betrag_eingang
     = Ok Eingang.
Proof. repeat split; vm_compute; reflexivity. Qed.

(** C9.  The code at the failing input: the marker [KV] of a purchase is
    looked for in lower case in the description as written, so the
    description and its lower-case variant are classified differently. *)
Lemma classify_transaction_type_case_sensitive :
  classify_transaction_type (py "Wertpapierabrechnung KV") betrag_kauf
  = Ok Wertpapierabrechnung
  /\ classify_transaction_type (lower (py "Wertpapierabrechnung KV"))
       betrag_kauf
     = Ok Wertpapierkauf
  /\ classify_transaction_type (upper (py "Wertpapierabrechnung kv"))
       betrag_kauf
     = Ok Wertpapierabrechnung.
Proof. repeat split; vm_compute; reflexivity. Qed.

(** Apart from the two markers the classification looks at the
    lower-cased description only. *)
Lemma classify_transaction_type_lower (d c : str) (a : Decimal) :
  lower c = lower d ->
  contains (py "vv") c = contains (py "vv") d ->
  contains (py "kv") c = contains (py "kv") d ->
  classify_transaction_type c a = classify_transaction_type d a.
Proof.
  intros Hl Hv Hk. unfold classify_transaction_type.
  now rewrite Hl, Hv, Hk.
Qed.

(** ** The German wire format *)

Module GermanFormat.

Local Open Scope N_scope.

Lemma count_forallb (P : N -> bool) (s : str) (x : N) :
  forallb P s = true -> P x = false -> count x s = O.
Proof.
  intros Hs Hx. induction s as [|c t IH]; [reflexivity|].
  cbn [forallb] in Hs. apply andb_true_iff in Hs as [Hc Ht].
  cbn [count]. destruct (N.eqb_spec c x) as [->|_]; [congruence|].
  now apply IH.
Qed.

Lemma forallb_imp (P Q : N -> bool) (s : str) :
  (forall c, P c = true -> Q c = true) ->
  forallb P s = true -> forallb Q s = true.
Proof.
  intros H. induction s as [|c t IH]; [reflexivity|].
  cbn [forallb]. rewrite !andb_true_iff. intros [Hc Ht]. auto.
Qed.

Lemma all_digits_forallb (g : str) : all_digits g = forallb is_digit g.
Proof. induction g as [|c t IH]; [reflexivity|]. simpl. now rewrite IH. Qed.

Lemma digit_group_digits (g : str) :
  digit_group g = true -> all_digits g = true /\ g <> [].
Proof.
  unfold digit_group. rewrite andb_true_iff. intros [H1 H2].
  split; [exact H1|]. now destruct g.
Qed.

Lemma amount_char_digit (c : N) : is_digit c = true -> amount_char c = true.
Proof. intros H. unfold amount_char. now rewrite H. Qed.

Lemma join_dot_chars (groups : list str) :
  forallb digit_group groups = true ->
  forallb amount_char (join_dot groups) = true.
Proof.
  induction groups as [|g rest IH]; [reflexivity|].
  cbn [forallb]. rewrite andb_true_iff. intros [Hg Hr].
  apply digit_group_digits in Hg as [Hg _].
  assert (Hgc : forallb amount_char g = true).
  { apply (forallb_imp is_digit); [exact amount_char_digit|].
    now rewrite <- all_digits_forallb. }
  cbn [join_dot]. destruct rest as [|g' rest']; [exact Hgc|].
  rewrite forallb_app, Hgc. cbn [forallb andb].
  exact (IH Hr).
Qed.

Lemma count_comma_join (groups : list str) :
  forallb digit_group groups = true -> count comma (join_dot groups) = O.
Proof.
  induction groups as [|g rest IH]; [reflexivity|].
  cbn [forallb]. rewrite andb_true_iff. intros [Hg Hr].
  apply digit_group_digits in Hg as [Hg _].
  pose proof (count_digits comma g Hg ltac:(unfold comma; lia)) as Hc.
  cbn [join_dot]. destruct rest as [|g' rest']; [exact Hc|].
  rewrite count_app, Hc. cbn [count]. exact (IH Hr).
Qed.

Lemma count_dot_join (groups : list str) :
  forallb digit_group groups = true ->
  count dot (join_dot groups) = (List.length groups - 1)%nat.
Proof.
  induction groups as [|g rest IH]; [reflexivity|].
  cbn [forallb]. rewrite andb_true_iff. intros [Hg Hr].
  apply digit_group_digits in Hg as [Hg _].
  pose proof (count_digits dot g Hg ltac:(unfold dot; lia)) as Hc.
  cbn [join_dot]. destruct rest as [|g' rest']; [exact Hc|].
  rewrite count_app, Hc. cbn [count]. rewrite N.eqb_refl, (IH Hr).
  cbn [List.length]. lia.
Qed.

Lemma remove_dots_join (groups : list str) :
  forallb digit_group groups = true ->
  replace [dot] [] (join_dot groups) = List.concat groups.
Proof.
  induction groups as [|g rest IH]; [reflexivity|].
  cbn [forallb]. rewrite andb_true_iff. intros [Hg Hr].
  apply digit_group_digits in Hg as [Hg _].
  pose proof (replace_char_absent dot [] g
                (count_digits dot g Hg ltac:(unfold dot; lia))) as Hc.
  cbn [join_dot List.concat]. destruct rest as [|g' rest'].
  - rewrite Hc. cbn [List.concat]. now rewrite app_nil_r.
  - change (g ++ dot :: join_dot (g' :: rest'))
      with (g ++ [dot] ++ join_dot (g' :: rest')).
    rewrite !replace_char_app, Hc, (IH Hr). reflexivity.
Qed.

Lemma concat_digits (groups : list str) :
  forallb digit_group groups = true -> all_digits (List.concat groups) = true.
Proof.
  induction groups as [|g rest IH]; [reflexivity|].
  cbn [forallb]. rewrite andb_true_iff. intros [Hg Hr].
  apply digit_group_digits in Hg as [Hg _].
  cbn [List.concat]. now rewrite all_digits_app, Hg, (IH Hr).
Qed.

(** The groups run together start with a digit. *)
Lemma concat_head (groups : list str) :
  groups <> [] -> forallb digit_group groups = true ->
  exists (c : N) (t : str),
    List.concat groups = c :: t /\ is_digit c = true.
Proof.
  intros Hne H. destruct groups as [|g rest]; [congruence|].
  cbn [forallb] in H. apply andb_true_iff in H as [Hg _].
  apply digit_group_digits in Hg as [Hg Hgne].
  destruct g as [|c g']; [congruence|].
  exists c, (g' ++ List.concat rest). split; [reflexivity|].
  simpl in Hg. now apply andb_true_iff in Hg as [Hc _].
Qed.

Lemma join_head (groups : list str) :
  groups <> [] -> forallb digit_group groups = true ->
  exists (c : N) (t : str), join_dot groups = c :: t /\ is_digit c = true.
Proof.
  intros Hne H. destruct groups as [|g rest]; [congruence|].
  cbn [forallb] in H. apply andb_true_iff in H as [Hg _].
  apply digit_group_digits in Hg as [Hg Hgne].
  destruct g as [|c g']; [congruence|].
  simpl in Hg. apply andb_true_iff in Hg as [Hc _].
  cbn [join_dot]. destruct rest; eexists c, _; (split; [reflexivity|exact Hc]).
Qed.

Lemma length_two {A : Type} (l : list A) :
  List.length l = 2%nat -> exists a b : A, l = [a; b].
Proof.
  destruct l as [|a [|b [|c t]]]; try discriminate. intros _. now exists a, b.
Qed.

Lemma sign_kept_chars (m : sign_mark) (x : N) :
  x <> 45 -> count x (sign_kept m) = O.
Proof.
  intros Hx. unfold sign_kept. destruct (is_minus m); [|reflexivity].
  cbn [count]. destruct (N.eqb_spec 45 x); [congruence|reflexivity].
Qed.

Section Text.

Variables (m : sign_mark) (groups : list str) (frac : str).
Hypothesis groups_given : groups <> [].
Hypothesis groups_digits : forallb digit_group groups = true.
Hypothesis frac_digits : digit_group frac = true.

Lemma frac_all_digits : all_digits frac = true.
Proof. exact (proj1 (digit_group_digits frac frac_digits)). Qed.

Lemma body_chars : forallb amount_char (german_body groups frac) = true.
Proof.
  unfold german_body. rewrite forallb_app, (join_dot_chars groups groups_digits).
  cbn [forallb andb].
  replace (amount_char comma) with true by reflexivity. cbn [andb].
  apply (forallb_imp is_digit); [exact amount_char_digit|].
  rewrite <- all_digits_forallb. exact frac_all_digits.
Qed.

Lemma body_count (x : N) : amount_char x = false -> count x (german_body groups frac) = O.
Proof. exact (count_forallb amount_char (german_body groups frac) x body_chars). Qed.

Lemma body_starts :
  exists (c : N) (t : str), (german_body groups frac) = c :: t /\ is_digit c = true.
Proof.
  destruct (join_head groups groups_given groups_digits) as [c [t [Hj Hc]]].
  exists c, (t ++ comma :: frac). unfold german_body. now rewrite Hj.
Qed.

Lemma amount_char_tight (c : N) : amount_char c = true -> tight c = true.
Proof.
  unfold amount_char. rewrite !orb_true_iff.
  intros [[H|H]|H].
  - now apply tight_digit.
  - apply N.eqb_eq in H. now subst c.
  - apply N.eqb_eq in H. now subst c.
Qed.

Lemma signed_body_tight (s : str) :
  forallb tight s = true -> forallb tight (s ++ (german_body groups frac)) = true.
Proof.
  intros Hs. rewrite forallb_app, Hs.
  exact (forallb_imp amount_char tight (german_body groups frac) amount_char_tight body_chars).
Qed.

(** What the cleaning leaves of the German text. *)
Lemma clean_german (u : unit_mark) :
  clean (german_text m groups frac u) = sign_kept m ++ (german_body groups frac).
Proof.
  unfold clean, german_text.
  set (X := sign_text m ++ (german_body groups frac)).
  assert (HXt : forallb tight X = true).
  { apply signed_body_tight. now destruct m. }
  assert (HXE : count 69 X = O).
  { unfold X. rewrite count_app, (body_count 69 eq_refl).
    now destruct m. }
  assert (Hstrip : strip X = X) by exact (strip_tight_text X HXt).
  assert (Hstrip' : strip (X ++ [32]) = X).
  { unfold strip.
    destruct body_starts as [c [t [Hb Hc]]].
    assert (Hl : lstrip (X ++ [32]) = X ++ [32]).
    { unfold X. rewrite Hb.
      destruct m; cbn [sign_text app]; apply lstrip_head;
        try reflexivity; now apply digit_not_space. }
    rewrite Hl, rstrip_space.
    unfold strip in Hstrip.
    assert (Hl' : lstrip X = X).
    { unfold X. rewrite Hb.
      destruct m; cbn [sign_text app]; apply lstrip_head;
        try reflexivity; now apply digit_not_space. }
    now rewrite Hl' in Hstrip. }
  assert (Hs1 : strip (replace (py "EUR") []
                         (sign_text m ++ (german_body groups frac) ++ unit_text u)) = X).
  { destruct u; cbn [unit_text].
    - rewrite app_nil_r. fold X.
      change (py "EUR") with [69; 85; 82].
      pose proof (replace_skip_prefix 69 [85; 82] [] X [] HXE) as Hr.
      rewrite app_nil_r in Hr. rewrite Hr.
      replace (replace [69; 85; 82] [] []) with (@nil N) by reflexivity.
      rewrite app_nil_r. exact Hstrip.
    - rewrite app_assoc. fold X.
      change (py "EUR") with [69; 85; 82].
      rewrite (replace_skip_prefix 69 [85; 82] [] X [69; 85; 82] HXE).
      replace (replace [69; 85; 82] [] [69; 85; 82]) with (@nil N)
        by reflexivity.
      rewrite app_nil_r. exact Hstrip.
    - change (py " EUR") with ([32] ++ [69; 85; 82]).
      rewrite (app_assoc (german_body groups frac)), (app_assoc (sign_text m)).
      rewrite (app_assoc (sign_text m) (german_body groups frac) [32]). fold X.
      change (py "EUR") with [69; 85; 82].
      rewrite (replace_skip_prefix 69 [85; 82] [] (X ++ [32]) [69; 85; 82])
        by (rewrite count_app, HXE; reflexivity).
      replace (replace [69; 85; 82] [] [69; 85; 82]) with (@nil N)
        by reflexivity.
      rewrite app_nil_r. exact Hstrip'. }
  rewrite Hs1. unfold X.
  change (py "+") with [43]. change (py " ") with [32].
  rewrite replace_char_app.
  rewrite (replace_char_absent 43 [] (german_body groups frac) (body_count 43 eq_refl)).
  replace (replace [43] [] (sign_text m)) with (sign_kept m)
    by (destruct m; reflexivity).
  apply replace_char_absent.
  rewrite count_app, (body_count 32 eq_refl), (sign_kept_chars m 32) by lia.
  reflexivity.
Qed.

(** Removing the points and turning the comma into a point. *)
Lemma convert_german :
  replace [comma] [dot] (replace [dot] [] (sign_kept m ++ (german_body groups frac)))
  = sign_kept m ++ List.concat groups ++ dot :: frac.
Proof.
  unfold german_body.
  change (comma :: frac) with ([comma] ++ frac).
  rewrite !replace_char_app.
  rewrite (remove_dots_join groups groups_digits).
  rewrite (replace_char_absent dot [] frac
             (count_digits dot frac frac_all_digits ltac:(unfold dot; lia))).
  replace (replace [dot] [] (sign_kept m)) with (sign_kept m)
    by (destruct m; reflexivity).
  replace (replace [dot] [] [comma]) with [comma] by reflexivity.
  replace (replace [comma] [dot] [comma]) with [dot] by reflexivity.
  rewrite (replace_char_absent comma [dot] frac
             (count_digits comma frac frac_all_digits
                ltac:(unfold comma; lia))).
  rewrite (replace_char_absent comma [dot] (List.concat groups)
             (count_digits comma _ (concat_digits groups groups_digits)
                ltac:(unfold comma; lia))).
  replace (replace [comma] [dot] (sign_kept m)) with (sign_kept m)
    by (destruct m; reflexivity).
  reflexivity.
Qed.

Lemma count_comma_text : count comma (sign_kept m ++ (german_body groups frac)) = 1%nat.
Proof.
  unfold german_body. rewrite !count_app, (sign_kept_chars m comma) by (unfold comma; lia).
  rewrite (count_comma_join groups groups_digits). cbn [count].
  replace (comma =? comma) with true by reflexivity.
  now rewrite (count_digits comma frac frac_all_digits
                 ltac:(unfold comma; lia)).
Qed.

Lemma count_dot_text :
  count dot (sign_kept m ++ (german_body groups frac)) = (List.length groups - 1)%nat.
Proof.
  unfold german_body. rewrite !count_app, (sign_kept_chars m dot) by (unfold dot; lia).
  rewrite (count_dot_join groups groups_digits). cbn [count].
  replace (comma =? dot) with false by reflexivity.
  rewrite (count_digits dot frac frac_all_digits ltac:(unfold dot; lia)).
  lia.
Qed.

(** The format detection takes the German branch for any number of
    groups. *)
Lemma detect_format_german :
  detect_format (sign_kept m ++ (german_body groups frac))
  = Ok (sign_kept m ++ List.concat groups ++ dot :: frac).
Proof.
  unfold detect_format. rewrite count_comma_text, count_dot_text.
  rewrite <- convert_german.
  destruct (List.length groups) as [|[|[|n]]] eqn:El.
  - apply length_zero_iff_nil in El. now destruct groups_given.
  - cbn [Nat.sub Nat.eqb Nat.leb andb].
    f_equal. f_equal. symmetry. apply replace_char_absent.
    rewrite count_dot_text, El. reflexivity.
  - cbn [Nat.sub Nat.eqb Nat.leb andb].
    destruct (length_two groups El) as [g1 [g2 E]].
    pose proof groups_digits as H. rewrite E in H. cbn [forallb] in H.
    apply andb_true_iff in H as [Hg1 H].
    apply andb_true_iff in H as [Hg2 _].
    apply digit_group_digits in Hg1 as [Hg1 _].
    apply digit_group_digits in Hg2 as [Hg2 _].
    assert (Hdot : index dot (sign_kept m ++ (german_body groups frac))
                   = Ok (List.length (sign_kept m ++ g1))).
    { unfold german_body. rewrite E. cbn [join_dot].
      rewrite <- app_assoc, app_assoc.
      apply index_app_first.
      rewrite count_app, (sign_kept_chars m dot) by (unfold dot; lia).
      now rewrite (count_digits dot g1 Hg1 ltac:(unfold dot; lia)). }
    assert (Hcomma : index comma (sign_kept m ++ (german_body groups frac))
                     = Ok (List.length (sign_kept m ++ g1 ++ dot :: g2))).
    { unfold german_body. rewrite E. cbn [join_dot].
      replace (sign_kept m ++ (g1 ++ dot :: g2) ++ comma :: frac)
        with ((sign_kept m ++ g1 ++ dot :: g2) ++ comma :: frac)
        by (now rewrite <- !app_assoc).
      apply index_app_first.
      rewrite !count_app, (sign_kept_chars m comma) by (unfold comma; lia).
      rewrite (count_digits comma g1 Hg1 ltac:(unfold comma; lia)).
      cbn [count]. replace (dot =? comma) with false by reflexivity.
      now rewrite (count_digits comma g2 Hg2 ltac:(unfold comma; lia)). }
    rewrite Hdot, Hcomma. cbn [bind].
    rewrite !length_app. cbn [List.length].
    destruct (Nat.ltb_spec (List.length (sign_kept m) + List.length g1)
                (List.length (sign_kept m)
                 + (List.length g1 + S (List.length g2)))) as [_|?];
      [reflexivity|lia].
  - cbn [Nat.sub Nat.eqb Nat.leb Nat.ltb andb]. reflexivity.
Qed.

(** The constructor on the converted text and on the American literal. *)
Lemma of_str_converted :
  Dec.of_str (sign_kept m ++ List.concat groups ++ dot :: frac)
  = Some (Finite (is_minus m)
                 (digits_value 0 (List.concat groups ++ frac))
                 (- Z.of_nat (List.length frac))).
Proof.
  pose proof (concat_digits groups groups_digits) as HI.
  pose proof frac_all_digits as HF.
  destruct (concat_head groups groups_given groups_digits)
    as [c [t [Hct Hc]]].
  pose proof (parse_number_plain (List.concat groups) frac true HI HF
                ltac:(rewrite Hct; discriminate) ltac:(discriminate)) as P.
  cbv iota in P.
  unfold dot. rewrite of_str_tight.
  - unfold sign_kept. destruct (is_minus m); cbn [app].
    + cbn [parse_sign]. now rewrite P.
    + replace (parse_sign (List.concat groups ++ 46 :: frac))
        with (false, List.concat groups ++ 46 :: frac)
        by (rewrite Hct; cbn [app]; symmetry; apply parse_sign_digit;
            exact Hc).
      now rewrite P.
  - rewrite !forallb_app. cbn [forallb].
    rewrite (tight_digits _ HI), (tight_digits _ HF).
    unfold sign_kept. now destruct (is_minus m).
Qed.

Lemma of_str_american :
  Dec.of_str (american_text m groups frac)
  = Some (Finite (is_minus m)
                 (digits_value 0 (List.concat groups ++ frac))
                 (- Z.of_nat (List.length frac))).
Proof.
  unfold american_text.
  assert (Hm : m = PlusSign \/ sign_text m = sign_kept m)
    by (destruct m; auto).
  destruct Hm as [Hm|Hm]; [|rewrite Hm; exact of_str_converted].
  rewrite Hm.
  pose proof (concat_digits groups groups_digits) as HI.
  pose proof frac_all_digits as HF.
  destruct (concat_head groups groups_given groups_digits)
    as [c [t [Hct Hc]]].
  pose proof (parse_number_plain (List.concat groups) frac true HI HF
                ltac:(rewrite Hct; discriminate) ltac:(discriminate)) as P.
  cbv iota in P.
  unfold dot. rewrite of_str_tight.
  - cbn [sign_text app parse_sign is_minus]. now rewrite P.
  - rewrite !forallb_app. cbn [forallb sign_text].
    now rewrite (tight_digits _ HI), (tight_digits _ HF).
Qed.

End Text.

End GermanFormat.

Import GermanFormat.

(** C2. For every monetary string in German grouping format (an optional
    sign, one or more non-empty groups of digits separated by '.', the
    decimal separator ',', one or more decimal digits, an optional "EUR"
    marker), [parse_german_amount] returns exactly the [Decimal] that the
    constructor builds from the American-style literal (the same sign, the
    groups run together, '.', the same decimals), and logs nothing. *)
Theorem parse_german_amount_german_format :
  forall (m : sign_mark) (groups : list str) (frac : str) (u : unit_mark),
    groups <> [] ->
    forallb digit_group groups = true ->
    digit_group frac = true ->
    exists d : Decimal,
      Dec.of_str (american_text m groups frac) = Some d
      /\ parse_german_amount (PyStr (german_text m groups frac u)) = Ok (d, []).
Proof.
  intros m groups frac u Hne Hg Hf.
  eexists. split; [exact (of_str_american m groups frac Hne Hg Hf)|].
  unfold parse_german_amount. cbn [str_].
  rewrite (clean_german m groups frac Hne Hg Hf u).
  rewrite (detect_format_german m groups frac Hne Hg Hf). cbn [bind].
  unfold Decimal_.
  now rewrite (of_str_converted m groups frac Hne Hg Hf).
Qed.

(** "-101.046,00" is read as the literal "-101046.00". *)
Lemma parse_german_amount_german_format_witness :
  german_text MinusSign [py "101"; py "046"] (py "00") NoUnit
  = py "-101.046,00"
  /\ american_text MinusSign [py "101"; py "046"] (py "00") = py "-101046.00"
  /\ exists d : Decimal,
      Dec.of_str (py "-101046.00") = Some d
      /\ parse_german_amount (PyStr (py "-101.046,00")) = Ok (d, []).
Proof.
  split; [reflexivity|]. split; [reflexivity|].
  exact (parse_german_amount_german_format
           MinusSign [py "101"; py "046"] (py "00") NoUnit
           ltac:(discriminate) eq_refl eq_refl).
Defined.

(** The other two strings of the claim, and a marked one. *)
Example parse_german_amount_1234_56 :
  parse_german_amount (PyStr (py "1.234,56")) = Ok (Finite false 123456 (-2), [])
  /\ Dec.of_str (py "1234.56") = Some (Finite false 123456 (-2)).
Proof. split; vm_compute; reflexivity. Qed.

Example parse_german_amount_37000_00 :
  parse_german_amount (PyStr (py "37.000,00 EUR"))
  = Ok (Finite false 3700000 (-2), [])
  /\ Dec.of_str (py "37000.00") = Some (Finite false 3700000 (-2)).
Proof. split; vm_compute; reflexivity. Qed.

(** ** The audit of a conversion *)

(** C4 (amended). For every original string [s] and claimed float [n],
    with [d] the value [parse_german_amount] returns for [s]: when [d] is
    not a signaling NaN, the audit returns trusted_value = [float(d)], the
    binary64 number nearest to [d], and matches = [|trusted_value - n| <
    0.01] in float arithmetic; when [d] is a signaling NaN, [float(d)] raises
    and the audit returns no trusted value and matches = false.  In
    particular the audit of "-23.700,00" against -23700.0 gives matches =
    true, and against -23.7 gives matches = false with trusted_value =
    -23700.0. *)
Theorem validate_number_conversion_audit :
  (forall (original : str) (converted : float),
      exists d : Decimal,
        returned (parse_german_amount (PyStr original)) = Ok d
        /\ match Flt.of_Decimal d with
           | Ok trusted =>
               let diff := PrimFloat.abs (PrimFloat.sub trusted converted) in
               is_signaling d = false
               /\ validate_number_conversion original converted
                  = Checked original converted trusted
                            (PrimFloat.ltb diff cent)
                            (if negb (PrimFloat.ltb diff cent)
                             then diff else 0%float)
           | Raise e =>
               is_signaling d = true
               /\ validate_number_conversion original converted
                  = Failed original converted e
           end)
  /\ (let r := validate_number_conversion (py "-23.700,00") (-23700)%float in
      python_converted r = Some (-23700)%float /\ conversion_match r = true)
  /\ (let r := validate_number_conversion (py "-23.700,00") claimed_23_7 in
      python_converted r = Some (-23700)%float /\ conversion_match r = false).
Proof.
  split; [|split; split; vm_compute; reflexivity].
  intros original converted.
  exists (parsed (PyStr original)).
  split; [apply returned_parsed_str|].
  unfold validate_number_conversion. rewrite returned_parsed_str. cbn [bind].
  destruct (parsed (PyStr original)) as [s c e|s|s [|] p]; cbn;
    split; reflexivity.
Qed.

(** C4, as stated, fails.  For the string "sNaN" the normalised value is a
    signaling NaN, and the audit returns no trusted value.  For "0,10" the
    trusted value is the float 7205759403792794 * 2^-56, which is not the
    decimal 0.10 that the normalisation returns. *)
Lemma validate_number_conversion_not_the_decimal :
  (returned (parse_german_amount (PyStr (py "sNaN"))) = Ok (NaN false true 0)
   /\ validate_number_conversion (py "sNaN") 0%float
      = Failed (py "sNaN") 0%float ValueError
   /\ python_converted (validate_number_conversion (py "sNaN") 0%float) = None)
  /\ (returned (parse_german_amount (PyStr (py "0,10")))
      = Ok (Finite false 10 (-2))
      /\ option_map Prim2SF
           (python_converted (validate_number_conversion (py "0,10") 0%float))
         = Some (S754_finite false 7205759403792794 (-56))
      /\ (7205759403792794 * 100 <> 10 * 2 ^ 56)%Z).
Proof.
  split; [repeat split; vm_compute; reflexivity|].
  split; [vm_compute; reflexivity|].
  split; [vm_compute; reflexivity|].
  vm_compute. discriminate.
Qed.

(* ================================================================== *)
(** * Part III: further properties of the code                         *)
(* ================================================================== *)

(** ** Texts that are not in the German format *)

Module FormatFacts.

Local Open Scope N_scope.

Lemma split_absent (c : char) (s : str) : count c s = O -> split c s = [s].
Proof.
  induction s as [|x t IH]; [reflexivity|].
  cbn [count split]. destruct (x =? c); [discriminate|].
  intros H. now rewrite (IH H).
Qed.

Lemma split_app_first (c : char) (a b : str) :
  count c a = O -> split c (a ++ c :: b) = a :: split c b.
Proof.
  induction a as [|x t IH]; cbn [count split app].
  - intros _. now rewrite N.eqb_refl.
  - destruct (x =? c); [discriminate|]. intros H. now rewrite (IH H).
Qed.

Lemma amount_char_space (c : N) : amount_char c = true -> isspace c = false.
Proof.
  intros H. apply amount_char_tight in H. unfold tight in H.
  apply andb_true_iff in H as [H _]. now apply negb_true_iff in H.
Qed.

(** What the removal of the unit marker and the stripping leave of a
    signed run of digits, points and commas. *)
Lemma strip_marked (m : sign_mark) (B : str) (u : unit_mark) :
  B <> [] -> forallb amount_char B = true ->
  strip (replace (py "EUR") [] (sign_text m ++ B ++ unit_text u))
  = sign_text m ++ B.
Proof.
  intros Hne HB.
  assert (Hcount : forall x, amount_char x = false -> count x B = O)
    by (intros x; exact (count_forallb amount_char B x HB)).
  assert (HBt : forallb tight B = true)
    by exact (forallb_imp amount_char tight B amount_char_tight HB).
  set (X := sign_text m ++ B).
  assert (HXt : forallb tight X = true).
  { unfold X. rewrite forallb_app, HBt. now destruct m. }
  assert (HXE : count 69 X = O).
  { unfold X. rewrite count_app, (Hcount 69 eq_refl). now destruct m. }
  assert (Hstrip : strip X = X) by exact (strip_tight_text X HXt).
  assert (Hhead : forall r : str, lstrip (X ++ r) = X ++ r).
  { intros r. unfold X. destruct B as [|c t]; [congruence|].
    cbn [forallb] in HB. apply andb_true_iff in HB as [Hc _].
    apply amount_char_space in Hc.
    destruct m; cbn [sign_text app]; apply lstrip_head;
      try reflexivity; exact Hc. }
  assert (Hstrip' : strip (X ++ [32]) = X).
  { unfold strip. rewrite Hhead, rstrip_space. unfold strip in Hstrip.
    pose proof (Hhead []) as H0. rewrite app_nil_r in H0.
    now rewrite H0 in Hstrip. }
  destruct u; cbn [unit_text].
  - rewrite app_nil_r. fold X.
    change (py "EUR") with [69; 85; 82].
    pose proof (replace_skip_prefix 69 [85; 82] [] X [] HXE) as Hr.
    rewrite app_nil_r in Hr. rewrite Hr.
    replace (replace [69; 85; 82] [] []) with (@nil N) by reflexivity.
    rewrite app_nil_r. exact Hstrip.
  - rewrite app_assoc. fold X.
    change (py "EUR") with [69; 85; 82].
    rewrite (replace_skip_prefix 69 [85; 82] [] X [69; 85; 82] HXE).
    replace (replace [69; 85; 82] [] [69; 85; 82]) with (@nil N)
      by reflexivity.
    rewrite app_nil_r. exact Hstrip.
  - change (py " EUR") with ([32] ++ [69; 85; 82]).
    rewrite (app_assoc B), (app_assoc (sign_text m)).
    rewrite (app_assoc (sign_text m) B [32]). fold X.
    change (py "EUR") with [69; 85; 82].
    rewrite (replace_skip_prefix 69 [85; 82] [] (X ++ [32]) [69; 85; 82])
      by (rewrite count_app, HXE; reflexivity).
    replace (replace [69; 85; 82] [] [69; 85; 82]) with (@nil N)
      by reflexivity.
    rewrite app_nil_r. exact Hstrip'.
Qed.

(** What the cleaning of v7 leaves of it. *)
Lemma clean_marked (m : sign_mark) (B : str) (u : unit_mark) :
  B <> [] -> forallb amount_char B = true ->
  clean (sign_text m ++ B ++ unit_text u) = sign_kept m ++ B.
Proof.
  intros Hne HB.
  assert (Hcount : forall x, amount_char x = false -> count x B = O)
    by (intros x; exact (count_forallb amount_char B x HB)).
  unfold clean. rewrite (strip_marked m B u Hne HB).
  change (py "+") with [43]. change (py " ") with [32].
  rewrite replace_char_app.
  rewrite (replace_char_absent 43 [] B (Hcount 43 eq_refl)).
  replace (replace [43] [] (sign_text m)) with (sign_kept m)
    by (destruct m; reflexivity).
  apply replace_char_absent.
  rewrite count_app, (Hcount 32 eq_refl), (sign_kept_chars m 32) by lia.
  reflexivity.
Qed.

Lemma digits_amount_chars (d : str) :
  all_digits d = true -> forallb amount_char d = true.
Proof.
  intros H. apply (forallb_imp is_digit); [exact amount_char_digit|].
  now rewrite <- all_digits_forallb.
Qed.

Lemma sign_kept_tight (m : sign_mark) : forallb tight (sign_kept m) = true.
Proof. unfold sign_kept. now destruct (is_minus m). Qed.

Lemma sign_text_tight (m : sign_mark) : forallb tight (sign_text m) = true.
Proof. now destruct m. Qed.

(** A sign in front of a digit or a point. *)
Lemma parse_sign_kept (m : sign_mark) (c : N) (t : str) :
  c <> 45 -> c <> 43 ->
  parse_sign (sign_kept m ++ c :: t) = (is_minus m, c :: t).
Proof.
  intros H1 H2. unfold sign_kept. destruct (is_minus m); cbn [app].
  - reflexivity.
  - unfold parse_sign.
    destruct c as [|p]; [reflexivity|].
    do 6 (destruct p as [p|p|]; try reflexivity); congruence.
Qed.

Lemma parse_sign_text (m : sign_mark) (c : N) (t : str) :
  c <> 45 -> c <> 43 ->
  parse_sign (sign_text m ++ c :: t) = (is_minus m, c :: t).
Proof.
  intros H1 H2. destruct m; cbn [sign_text app is_minus]; try reflexivity.
  unfold parse_sign.
  destruct c as [|p]; [reflexivity|].
  do 6 (destruct p as [p|p|]; try reflexivity); congruence.
Qed.

Lemma digit_head (I : str) :
  all_digits I = true -> I <> [] ->
  exists (c : N) (t : str), I = c :: t /\ is_digit c = true.
Proof.
  destruct I as [|c t]; [congruence|]. cbn [all_digits].
  rewrite andb_true_iff. intros [Hc _] _. now exists c, t.
Qed.

Lemma digit_no_sign (c : N) : is_digit c = true -> c <> 45 /\ c <> 43.
Proof.
  unfold is_digit. rewrite andb_true_iff, N.leb_le, N.leb_le. lia.
Qed.

(** The constructor on a signed literal with a point, and on a signed run
    of digits. *)
Lemma of_str_point (S : str) (neg : bool) (I F : str) :
  forallb tight S = true ->
  (forall (c : N) (t : str), c <> 45 -> c <> 43 ->
                             parse_sign (S ++ c :: t) = (neg, c :: t)) ->
  all_digits I = true -> all_digits F = true -> I <> [] ->
  Dec.of_str (S ++ I ++ dot :: F)
  = Some (Finite neg (digits_value 0 (I ++ F))
                 (- Z.of_nat (List.length F))).
Proof.
  intros HS Hsign HI HF Hne.
  destruct (digit_head I HI Hne) as [c [t [E Hc]]].
  pose proof (parse_number_plain I F true HI HF
                ltac:(rewrite E; discriminate) ltac:(discriminate)) as P.
  cbv iota in P. unfold dot. rewrite of_str_tight.
  - rewrite E. cbn [app]. rewrite Hsign by (apply digit_no_sign; exact Hc).
    rewrite E in P. cbn [app] in P. now rewrite P.
  - rewrite !forallb_app. cbn [forallb].
    now rewrite HS, (tight_digits _ HI), (tight_digits _ HF).
Qed.

Lemma of_str_digits (S : str) (neg : bool) (I : str) :
  forallb tight S = true ->
  (forall (c : N) (t : str), c <> 45 -> c <> 43 ->
                             parse_sign (S ++ c :: t) = (neg, c :: t)) ->
  all_digits I = true -> I <> [] ->
  Dec.of_str (S ++ I) = Some (Finite neg (digits_value 0 I) 0).
Proof.
  intros HS Hsign HI Hne.
  destruct (digit_head I HI Hne) as [c [t [E Hc]]].
  pose proof (parse_number_plain I [] false HI eq_refl
                ltac:(rewrite E; discriminate) ltac:(reflexivity)) as P.
  cbv iota in P. rewrite !app_nil_r in P. rewrite of_str_tight.
  - rewrite E. rewrite Hsign by (apply digit_no_sign; exact Hc).
    rewrite E in P. now rewrite P.
  - rewrite forallb_app. now rewrite HS, (tight_digits _ HI).
Qed.

(** The format detection on a text with one point and no comma. *)
Lemma detect_format_point (m : sign_mark) (I F : str) :
  all_digits I = true -> all_digits F = true ->
  detect_format (sign_kept m ++ I ++ dot :: F)
  = Ok (if (List.length F =? 3)%nat
        then sign_kept m ++ I ++ F
        else sign_kept m ++ I ++ dot :: F).
Proof.
  intros HI HF.
  assert (Hd : forall x, (x < 48 \/ 57 < x) -> x <> 45 ->
                         count x (sign_kept m ++ I) = O).
  { intros x Hx Hx'. rewrite count_app, (sign_kept_chars m x Hx').
    now rewrite (count_digits x I HI Hx). }
  assert (HdF : forall x, (x < 48 \/ 57 < x) -> count x F = O)
    by (intros x Hx; exact (count_digits x F HF Hx)).
  assert (Hcomma : count comma (sign_kept m ++ I ++ dot :: F) = O).
  { rewrite app_assoc, count_app, Hd by (unfold comma; lia).
    cbn [count]. replace (dot =? comma) with false by reflexivity.
    apply HdF. unfold comma. lia. }
  assert (Hdot : count dot (sign_kept m ++ I ++ dot :: F) = 1%nat).
  { rewrite app_assoc, count_app, Hd by (unfold dot; lia).
    cbn [count]. replace (dot =? dot) with true by reflexivity.
    rewrite HdF by (unfold dot; lia). reflexivity. }
  unfold detect_format. rewrite Hcomma, Hdot.
  cbn [Nat.eqb Nat.leb andb].
  assert (Hsplit : split dot (sign_kept m ++ I ++ dot :: F)
                   = [sign_kept m ++ I; F]).
  { rewrite app_assoc, split_app_first by (apply Hd; unfold dot; lia).
    rewrite split_absent by (apply HdF; unfold dot; lia). reflexivity. }
  rewrite Hsplit. cbn [List.length nth Nat.eqb andb].
  assert (Hrem : replace [dot] [] (sign_kept m ++ I ++ dot :: F)
                 = sign_kept m ++ I ++ F).
  { rewrite app_assoc.
    change (dot :: F) with ([dot] ++ F).
    rewrite (replace_char_app dot [] (sign_kept m ++ I)).
    rewrite (replace_char_app dot [] [dot] F).
    rewrite (replace_char_absent dot [] (sign_kept m ++ I))
      by (apply Hd; unfold dot; lia).
    rewrite (replace_char_absent dot [] F) by (apply HdF; unfold dot; lia).
    replace (replace [dot] [] [dot]) with (@nil N) by reflexivity.
    cbn [app]. now rewrite <- app_assoc. }
  rewrite Hrem.
  destruct (List.length F) as [|[|[|[|n]]]]; reflexivity.
Qed.


(** The format detection on a text with one comma before one point. *)
Lemma detect_format_comma_point (m : sign_mark) (I1 I2 F : str) :
  all_digits I1 = true -> all_digits I2 = true -> all_digits F = true ->
  detect_format (sign_kept m ++ I1 ++ comma :: I2 ++ dot :: F)
  = Ok (sign_kept m ++ (I1 ++ I2) ++ dot :: F).
Proof.
  intros H1 H2 HF.
  assert (Hd : forall (x : N) (d : str),
             all_digits d = true -> (x < 48 \/ 57 < x) -> count x d = O)
    by (intros x d Hdig Hx; exact (count_digits x d Hdig Hx)).
  set (S := sign_kept m).
  assert (HS : forall x, x <> 45 -> count x S = O)
    by (intros x Hx; exact (sign_kept_chars m x Hx)).
  assert (Hcomma : count comma (S ++ I1 ++ comma :: I2 ++ dot :: F) = 1%nat).
  { rewrite !count_app. cbn [count]. rewrite !count_app. cbn [count].
    rewrite HS by (unfold comma; lia).
    rewrite !Hd by (assumption || unfold comma; lia).
    reflexivity. }
  assert (Hdot : count dot (S ++ I1 ++ comma :: I2 ++ dot :: F) = 1%nat).
  { rewrite !count_app. cbn [count]. rewrite !count_app. cbn [count].
    rewrite HS by (unfold dot; lia).
    rewrite !Hd by (assumption || unfold dot; lia).
    reflexivity. }
  assert (Hic : index comma (S ++ I1 ++ comma :: I2 ++ dot :: F)
                = Ok (List.length (S ++ I1))).
  { rewrite app_assoc. apply index_app_first.
    rewrite count_app, HS, Hd by (assumption || unfold comma; lia).
    reflexivity. }
  assert (Hid : index dot (S ++ I1 ++ comma :: I2 ++ dot :: F)
                = Ok (List.length (S ++ I1 ++ comma :: I2))).
  { replace (S ++ I1 ++ comma :: I2 ++ dot :: F)
      with ((S ++ I1 ++ comma :: I2) ++ dot :: F)
      by (rewrite <- !app_assoc; reflexivity).
    apply index_app_first.
    rewrite !count_app. cbn [count].
    rewrite HS, !Hd by (assumption || unfold dot; lia).
    reflexivity. }
  unfold detect_format. rewrite Hcomma, Hdot, Hic, Hid.
  cbn [Nat.eqb Nat.leb andb bind].
  rewrite !length_app. cbn [List.length].
  destruct (Nat.ltb_spec (List.length S + (List.length I1 + Datatypes.S (List.length I2)))
              (List.length S + List.length I1)) as [?|_]; [lia|].
  f_equal.
  replace (S ++ I1 ++ comma :: I2 ++ dot :: F)
    with ((S ++ I1) ++ [comma] ++ (I2 ++ dot :: F))
    by (rewrite <- !app_assoc; reflexivity).
  rewrite (replace_char_app comma [] (S ++ I1)).
  rewrite (replace_char_app comma [] [comma]).
  rewrite (replace_char_absent comma [] (S ++ I1))
    by (rewrite count_app, HS, Hd by (assumption || unfold comma; lia);
        reflexivity).
  rewrite (replace_char_absent comma [] (I2 ++ dot :: F))
    by (rewrite count_app; cbn [count];
        rewrite !Hd by (assumption || unfold comma; lia); reflexivity).
  replace (replace [comma] [] [comma]) with (@nil N) by reflexivity.
  cbn [app]. now rewrite <- !app_assoc.
Qed.

(** *** What the constructor rejects *)

Lemma span_digits_spec (s : str) :
  forall d r : str, span_digits s = (d, r) -> s = d ++ r /\ all_digits d = true.
Proof.
  induction s as [|c t IH]; intros d r; cbn [span_digits].
  - intros E. injection E as <- <-. split; reflexivity.
  - destruct (is_digit c) eqn:Hc.
    + destruct (span_digits t) as [d' r'] eqn:Es.
      intros E. injection E as <- <-.
      destruct (IH d' r' eq_refl) as [-> Hd]. split; [reflexivity|].
      cbn [all_digits]. now rewrite Hc, Hd.
    + intros E. injection E as <- <-. split; reflexivity.
Qed.

Lemma count_lstrip (c : char) (s : str) :
  isspace c = false -> count c (lstrip s) = count c s.
Proof.
  intros Hc. induction s as [|x t IH]; [reflexivity|].
  cbn [lstrip]. destruct (isspace x) eqn:Hx; [|reflexivity].
  cbn [count]. destruct (N.eqb_spec x c) as [->|_]; [congruence|exact IH].
Qed.

Lemma count_rev (c : char) (s : str) : count c (rev s) = count c s.
Proof.
  induction s as [|x t IH]; [reflexivity|].
  cbn [rev]. rewrite count_app, IH. cbn [count].
  destruct (x =? c); lia.
Qed.

Lemma count_strip (c : char) (s : str) :
  isspace c = false -> count c (strip s) = count c s.
Proof.
  intros Hc. unfold strip, rstrip.
  now rewrite count_rev, count_lstrip, count_rev, count_lstrip.
Qed.

Lemma count_remove_char (c x : char) (s : str) :
  (x =? c) = false -> count c (replace [x] [] s) = count c s.
Proof.
  intros Hx. rewrite replace_char.
  induction s as [|y t IH]; [reflexivity|].
  cbn [flat_map]. rewrite count_app, IH. cbn [count].
  destruct (N.eqb_spec y x) as [->|_].
  - rewrite Hx. reflexivity.
  - cbn [count]. destruct (y =? c); reflexivity.
Qed.

Lemma count_replace_char (c x : char) (s : str) :
  (x =? c) = false ->
  count c (replace [x] [c] s) = (count c s + count x s)%nat.
Proof.
  intros Hx. rewrite replace_char.
  induction s as [|y t IH]; [reflexivity|].
  cbn [flat_map]. rewrite count_app, IH. cbn [count].
  destruct (N.eqb_spec y x) as [->|Hy].
  - rewrite Hx. cbn [count]. rewrite N.eqb_refl. lia.
  - cbn [count]. destruct (y =? c); lia.
Qed.

Lemma count_replaced_char (c x : char) (s : str) :
  (x =? c) = false -> count x (replace [x] [c] s) = O.
Proof.
  intros Hx. rewrite replace_char.
  induction s as [|y t IH]; [reflexivity|].
  cbn [flat_map]. rewrite count_app, IH.
  destruct (N.eqb_spec y x) as [->|Hy]; cbn [count].
  - rewrite N.eqb_sym, Hx. reflexivity.
  - destruct (N.eqb_spec y x); [congruence|reflexivity].
Qed.

Lemma startswith_firstn (p s : str) :
  startswith p s = true -> firstn (List.length p) s = p.
Proof.
  revert s. induction p as [|x p IH]; intros s; [reflexivity|].
  destruct s as [|y s]; [discriminate|]. cbn [startswith].
  rewrite andb_true_iff, N.eqb_eq. intros [-> H].
  cbn [List.length firstn]. now rewrite (IH s H).
Qed.

(** A replacement keeps the number of a character that occurs neither in
    the old nor in the new text. *)
Lemma count_replace_from (c : char) (o : char) (old new : str) :
  count c (o :: old) = O -> count c new = O ->
  forall (s : str) (skip : nat),
    count c (firstn skip s) = O ->
    count c (replace_from (o :: old) new skip s) = count c s.
Proof.
  intros Hold Hnew. induction s as [|x t IH]; intros skip Hskip;
    [reflexivity|].
  cbn [replace_from]. destruct skip as [|k].
  - destruct (startswith (o :: old) (x :: t)) eqn:Hsw.
    + rewrite count_app, Hnew. cbn [plus].
      cbn [startswith] in Hsw. apply andb_true_iff in Hsw as [Hx Hsw].
      apply N.eqb_eq in Hx. subst o.
      cbn [count] in Hold |- *. destruct (x =? c); [discriminate|].
      replace (List.length (x :: old) - 1)%nat with (List.length old)
        by (cbn [List.length]; lia).
      apply IH. now rewrite (startswith_firstn old t Hsw).
    + cbn [count]. rewrite (IH O eq_refl). reflexivity.
  - cbn [firstn count] in Hskip |- *.
    destruct (x =? c); [discriminate|]. now apply IH.
Qed.

Lemma count_replace (c : char) (o : char) (old new s : str) :
  count c (o :: old) = O -> count c new = O ->
  count c (replace (o :: old) new s) = count c s.
Proof.
  intros Hold Hnew. unfold replace.
  now apply count_replace_from.
Qed.

(** The cleaning keeps the commas and the points. *)
Lemma count_clean (c : char) (s : str) :
  c = comma \/ c = dot -> count c (clean s) = count c s.
Proof.
  intros Hc. unfold clean.
  change (py " ") with [32]. change (py "+") with [43].
  change (py "EUR") with [69; 85; 82].
  rewrite !count_remove_char by (destruct Hc; subst c; reflexivity).
  rewrite count_strip by (destruct Hc; subst c; reflexivity).
  apply count_replace; destruct Hc; subst c; reflexivity.
Qed.

Lemma count_parse_sign (c : char) (s : str) :
  c <> 45 -> c <> 43 -> count c (snd (parse_sign s)) = count c s.
Proof.
  intros H1 H2. unfold parse_sign.
  destruct s as [|x t]; [reflexivity|].
  destruct (N.eq_dec x 45) as [->|Hx].
  - cbn [snd count]. destruct (N.eqb_spec 45 c); [congruence|reflexivity].
  - destruct (N.eq_dec x 43) as [->|Hx'].
    + cbn [snd count]. destruct (N.eqb_spec 43 c); [congruence|reflexivity].
    + destruct x as [|p]; [reflexivity|].
      do 6 (destruct p as [p|p|]; try reflexivity); congruence.
Qed.

Lemma parse_exponent_counts (r : str) (e : Z) (x : char) :
  parse_exponent r = Some e -> x = comma \/ x = dot -> count x r = O.
Proof.
  intros H Hx. destruct r as [|c t]; [reflexivity|].
  cbn [parse_exponent] in H.
  destruct ((c =? 101) || (c =? 69)) eqn:Hc; [|discriminate].
  destruct (parse_sign t) as [neg ds] eqn:Eps.
  destruct ds as [|d0 ds']; [discriminate|].
  destruct (all_digits (d0 :: ds')) eqn:Hds; [|discriminate].
  assert (Hcnt : count x t = O).
  { rewrite <- (count_parse_sign x t)
      by (destruct Hx; subst x; unfold comma, dot; lia).
    rewrite Eps. cbn [snd].
    apply count_digits; [exact Hds|].
    destruct Hx; subst x; unfold comma, dot; lia. }
  cbn [count]. rewrite Hcnt.
  apply orb_true_iff in Hc as [Hc|Hc]; apply N.eqb_eq in Hc; subst c;
    destruct Hx; subst x; reflexivity.
Qed.

Lemma parse_number_counts (body : str) (c : N) (e : Z) :
  parse_number body = Some (c, e) ->
  count comma body = O /\ (count dot body <= 1)%nat.
Proof.
  unfold parse_number.
  destruct (span_digits body) as [ip r1] eqn:E1.
  destruct (span_digits_spec body ip r1 E1) as [-> Hip].
  assert (Hd : forall (x : N) (d : str),
             all_digits d = true -> x = comma \/ x = dot -> count x d = O).
  { intros x d Hdig Hx. apply count_digits; [exact Hdig|].
    destruct Hx; subst x; unfold comma, dot; lia. }
  destruct r1 as [|c1 t1].
  - intros _. rewrite app_nil_r, (Hd comma ip), (Hd dot ip) by auto. lia.
  - destruct (N.eq_dec c1 46) as [->|Hc1].
    + destruct (span_digits t1) as [fp r2] eqn:E2.
      destruct (span_digits_spec t1 fp r2 E2) as [-> Hfp].
      destruct (ip ++ fp); [discriminate|].
      destruct (parse_exponent r2) as [e'|] eqn:Ee; [|discriminate].
      intros _. rewrite !count_app. cbn [count]. rewrite !count_app.
      rewrite (Hd comma ip), (Hd dot ip), (Hd comma fp), (Hd dot fp) by auto.
      rewrite (parse_exponent_counts r2 e' comma Ee),
        (parse_exponent_counts r2 e' dot Ee) by auto.
      split; reflexivity.
    + assert (E : match c1 :: t1 with
                  | 46 :: t => span_digits t
                  | _ => ([], c1 :: t1)
                  end = ([], c1 :: t1)).
      { destruct c1 as [|p]; [reflexivity|].
        do 6 (destruct p as [p|p|]; try reflexivity); congruence. }
      rewrite E. destruct (ip ++ []); [discriminate|].
      destruct (parse_exponent (c1 :: t1)) as [e'|] eqn:Ee; [|discriminate].
      intros _. rewrite !count_app, (Hd comma ip), (Hd dot ip) by auto.
      rewrite (parse_exponent_counts _ e' comma Ee),
        (parse_exponent_counts _ e' dot Ee) by auto.
      split; [reflexivity|lia].
Qed.

Lemma eqb_eq (a b : str) : Str.eqb a b = true -> a = b.
Proof.
  revert b. induction a as [|x a IH]; intros [|y b]; cbn [Str.eqb];
    try discriminate; [reflexivity|].
  rewrite andb_true_iff, N.eqb_eq. intros [-> H]. now rewrite (IH b H).
Qed.

Lemma count_ascii_lower (x : char) (s : str) :
  x = comma \/ x = dot -> count x (ascii_lower s) = count x s.
Proof.
  intros Hx. unfold ascii_lower.
  induction s as [|c t IH]; [reflexivity|].
  cbn [map count]. rewrite IH.
  destruct ((65 <=? c) && (c <=? 90)) eqn:Hc; [|reflexivity].
  apply andb_true_iff in Hc as [Hc1 Hc2].
  apply N.leb_le in Hc1. apply N.leb_le in Hc2.
  destruct (N.eqb_spec (c + 32) x) as [E|_];
    destruct (N.eqb_spec c x) as [E'|_]; try reflexivity;
    destruct Hx; subst x; unfold comma, dot in *; lia.
Qed.

Lemma parse_special_counts (neg : bool) (body : str) (d : Decimal)
    (x : char) :
  parse_special neg body = Some d -> x = comma \/ x = dot ->
  count x body = O.
Proof.
  intros H Hx. rewrite <- (count_ascii_lower x body Hx).
  unfold parse_special in H.
  set (l := ascii_lower body) in *. clearbody l.
  assert (Hd : forall d : str, all_digits d = true -> count x d = O).
  { intros d' Hdig. apply count_digits; [exact Hdig|].
    destruct Hx; subst x; unfold comma, dot; lia. }
  destruct (Str.eqb l (py "inf") || Str.eqb l (py "infinity")) eqn:E1.
  { apply orb_true_iff in E1 as [E|E]; apply eqb_eq in E; subst l;
      destruct Hx; subst x; reflexivity. }
  destruct (startswith (py "nan") l && all_digits (skipn 3 l)) eqn:E2.
  { apply andb_true_iff in E2 as [Hs Ha].
    apply startswith_iff in Hs as [b ->].
    change (skipn 3 (py "nan" ++ b)) with b in Ha.
    rewrite count_app, (Hd b Ha). destruct Hx; subst x; reflexivity. }
  destruct (startswith (py "snan") l && all_digits (skipn 4 l)) eqn:E3;
    [|discriminate].
  apply andb_true_iff in E3 as [Hs Ha].
  apply startswith_iff in Hs as [b ->].
  change (skipn 4 (py "snan" ++ b)) with b in Ha.
  rewrite count_app, (Hd b Ha). destruct Hx; subst x; reflexivity.
Qed.

(** A text that the constructor accepts holds no comma and at most one
    point. *)
Lemma of_str_counts (s : str) (d : Decimal) :
  Dec.of_str s = Some d -> count comma s = O /\ (count dot s <= 1)%nat.
Proof.
  unfold Dec.of_str. change (py "_") with [95].
  set (b := replace [95] [] (strip s)).
  assert (Hb : forall x, x = comma \/ x = dot -> count x b = count x s).
  { intros x Hx. unfold b.
    rewrite count_remove_char, count_strip;
      destruct Hx; subst x; reflexivity. }
  pose proof (count_parse_sign comma b ltac:(unfold comma; lia)
                ltac:(unfold comma; lia)) as Hc.
  pose proof (count_parse_sign dot b ltac:(unfold dot; lia)
                ltac:(unfold dot; lia)) as Hd.
  destruct (parse_sign b) as [neg body]. cbn [snd] in Hc, Hd.
  rewrite <- (Hb comma), <- (Hb dot), <- Hc, <- Hd by auto.
  destruct (parse_number body) as [[c e]|] eqn:En.
  - intros _. exact (parse_number_counts body c e En).
  - intros H.
    rewrite (parse_special_counts neg body d comma H),
      (parse_special_counts neg body d dot H) by auto.
    split; [reflexivity|lia].
Qed.

Lemma sign_text_chars (m : sign_mark) (x : N) :
  x <> 45 -> x <> 43 -> count x (sign_text m) = O.
Proof.
  intros H1 H2. destruct m; cbn [sign_text count]; [reflexivity| |].
  - destruct (N.eqb_spec 43 x); [congruence|reflexivity].
  - destruct (N.eqb_spec 45 x); [congruence|reflexivity].
Qed.

(** Removing the points and turning the comma into a point, behind any
    sign. *)
Lemma convert_signed (S : str) (groups : list str) (frac : str) :
  count dot S = O -> count comma S = O ->
  forallb digit_group groups = true -> all_digits frac = true ->
  replace [comma] [dot] (replace [dot] [] (S ++ german_body groups frac))
  = S ++ List.concat groups ++ dot :: frac.
Proof.
  intros HSd HSc Hg Hf. unfold german_body.
  change (comma :: frac) with ([comma] ++ frac).
  rewrite (replace_char_app dot [] S).
  rewrite (replace_char_app dot [] (join_dot groups)).
  rewrite (replace_char_app dot [] [comma]).
  rewrite (remove_dots_join groups Hg).
  rewrite (replace_char_absent dot [] frac
             (count_digits dot frac Hf ltac:(unfold dot; lia))).
  rewrite (replace_char_absent dot [] S HSd).
  replace (replace [dot] [] [comma]) with [comma] by reflexivity.
  rewrite (replace_char_app comma [dot] S).
  rewrite (replace_char_app comma [dot] (List.concat groups)).
  rewrite (replace_char_app comma [dot] [comma]).
  replace (replace [comma] [dot] [comma]) with [dot] by reflexivity.
  rewrite (replace_char_absent comma [dot] frac
             (count_digits comma frac Hf ltac:(unfold comma; lia))).
  rewrite (replace_char_absent comma [dot] (List.concat groups)
             (count_digits comma _ (concat_digits groups Hg)
                ltac:(unfold comma; lia))).
  rewrite (replace_char_absent comma [dot] S HSc).
  reflexivity.
Qed.

(** Removing the point of a text without comma. *)
Lemma convert_point (S I F : str) :
  count dot S = O -> count comma S = O ->
  all_digits I = true -> all_digits F = true ->
  replace [comma] [dot] (replace [dot] [] (S ++ I ++ dot :: F))
  = S ++ I ++ F.
Proof.
  intros HSd HSc HI HF.
  change (dot :: F) with ([dot] ++ F).
  rewrite (replace_char_app dot [] S), (replace_char_app dot [] I),
    (replace_char_app dot [] [dot]).
  rewrite (replace_char_absent dot [] S HSd).
  rewrite (replace_char_absent dot [] I
             (count_digits dot I HI ltac:(unfold dot; lia))).
  rewrite (replace_char_absent dot [] F
             (count_digits dot F HF ltac:(unfold dot; lia))).
  replace (replace [dot] [] [dot]) with (@nil N) by reflexivity.
  cbn [app]. apply replace_char_absent.
  rewrite !count_app, HSc.
  rewrite (count_digits comma I HI ltac:(unfold comma; lia)).
  now rewrite (count_digits comma F HF ltac:(unfold comma; lia)).
Qed.

End FormatFacts.

Import FormatFacts.

(** X1. For every text made of an optional sign, a non-empty run of
    digits, one point, a run of decimals whose length is not three, and an
    optional "EUR" marker, [parse_german_amount] of v7 and v8 keeps the
    point as the decimal point: it returns exactly the [Decimal] that the
    constructor builds from the sign, the digits, the point and the
    decimals, and logs nothing. *)
Theorem parse_german_amount_decimal_point :
  forall (m : sign_mark) (I F : str) (u : unit_mark),
    digit_group I = true -> all_digits F = true ->
    List.length F <> 3%nat ->
    let d := Finite (is_minus m) (digits_value 0 (I ++ F))
                    (- Z.of_nat (List.length F)) in
    Dec.of_str (sign_text m ++ I ++ dot :: F) = Some d
    /\ parse_german_amount
         (PyStr (sign_text m ++ (I ++ dot :: F) ++ unit_text u))
       = Ok (d, []).
Proof.
  intros m I F u HI HF Hlen d.
  apply digit_group_digits in HI as [HI Hne].
  split.
  - exact (of_str_point (sign_text m) (is_minus m) I F (sign_text_tight m)
             (parse_sign_text m) HI HF Hne).
  - unfold parse_german_amount. cbn [str_].
    rewrite clean_marked.
    + rewrite (detect_format_point m I F HI HF). cbn [bind].
      apply Nat.eqb_neq in Hlen. rewrite Hlen. unfold Decimal_.
      now rewrite (of_str_point (sign_kept m) (is_minus m) I F
                     (sign_kept_tight m) (parse_sign_kept m) HI HF Hne).
    + destruct I; discriminate.
    + rewrite forallb_app. cbn [forallb].
      rewrite (digits_amount_chars I HI), (digits_amount_chars F HF).
      reflexivity.
Qed.

Lemma parse_german_amount_decimal_point_witness :
  parse_german_amount (PyStr (py "405107.75"))
  = Ok (Finite false 40510775 (-2), []).
Proof.
  exact (proj2 (parse_german_amount_decimal_point
                  NoSign (py "405107") (py "75") NoUnit
                  eq_refl eq_refl ltac:(discriminate))).
Defined.

(** X2. When exactly three digits follow the single point and the text
    has no comma, [parse_german_amount] reads the point as a thousands
    separator: it returns the integer of the digits run together, with
    exponent 0, which is a thousand times the value that the constructor
    gives the text itself. *)
Theorem parse_german_amount_three_digits :
  forall (m : sign_mark) (I F : str) (u : unit_mark),
    digit_group I = true -> all_digits F = true ->
    List.length F = 3%nat ->
    Dec.of_str (sign_text m ++ I ++ dot :: F)
    = Some (Finite (is_minus m) (digits_value 0 (I ++ F)) (-3))
    /\ parse_german_amount
         (PyStr (sign_text m ++ (I ++ dot :: F) ++ unit_text u))
       = Ok (Finite (is_minus m) (digits_value 0 (I ++ F)) 0, []).
Proof.
  intros m I F u HI HF Hlen.
  apply digit_group_digits in HI as [HI Hne].
  split.
  - rewrite (of_str_point (sign_text m) (is_minus m) I F (sign_text_tight m)
               (parse_sign_text m) HI HF Hne).
    now rewrite Hlen.
  - unfold parse_german_amount. cbn [str_].
    rewrite clean_marked.
    + rewrite (detect_format_point m I F HI HF). cbn [bind].
      rewrite Hlen. cbn [Nat.eqb]. unfold Decimal_.
      rewrite (of_str_digits (sign_kept m) (is_minus m) (I ++ F)
                 (sign_kept_tight m) (parse_sign_kept m)).
      * reflexivity.
      * now rewrite all_digits_app, HI, HF.
      * destruct I; [congruence|discriminate].
    + destruct I; discriminate.
    + rewrite forallb_app. cbn [forallb].
      rewrite (digits_amount_chars I HI), (digits_amount_chars F HF).
      reflexivity.
Qed.

Lemma parse_german_amount_three_digits_witness :
  Dec.of_str (py "1.500") = Some (Finite false 1500 (-3))
  /\ parse_german_amount (PyStr (py "1.500")) = Ok (Finite false 1500 0, []).
Proof.
  exact (parse_german_amount_three_digits
           NoSign (py "1") (py "500") NoUnit eq_refl eq_refl eq_refl).
Defined.

(** X3. For every text with one comma that comes before one point, the
    American grouping of a number below a million, [parse_german_amount]
    drops the comma and returns the [Decimal] of the digits with the
    point. *)
Theorem parse_german_amount_comma_before_point :
  forall (m : sign_mark) (I1 I2 F : str) (u : unit_mark),
    digit_group I1 = true -> all_digits I2 = true -> all_digits F = true ->
    let d := Finite (is_minus m) (digits_value 0 ((I1 ++ I2) ++ F))
                    (- Z.of_nat (List.length F)) in
    Dec.of_str (sign_text m ++ (I1 ++ I2) ++ dot :: F) = Some d
    /\ parse_german_amount
         (PyStr (sign_text m ++ (I1 ++ comma :: I2 ++ dot :: F)
                   ++ unit_text u))
       = Ok (d, []).
Proof.
  intros m I1 I2 F u H1 H2 HF d.
  apply digit_group_digits in H1 as [H1 Hne].
  assert (H12 : all_digits (I1 ++ I2) = true)
    by now rewrite all_digits_app, H1, H2.
  assert (Hne12 : I1 ++ I2 <> []) by (destruct I1; [congruence|discriminate]).
  split.
  - exact (of_str_point (sign_text m) (is_minus m) (I1 ++ I2) F
             (sign_text_tight m) (parse_sign_text m) H12 HF Hne12).
  - unfold parse_german_amount. cbn [str_].
    rewrite clean_marked.
    + rewrite (detect_format_comma_point m I1 I2 F H1 H2 HF). cbn [bind].
      unfold Decimal_.
      now rewrite (of_str_point (sign_kept m) (is_minus m) (I1 ++ I2) F
                     (sign_kept_tight m) (parse_sign_kept m) H12 HF Hne12).
    + destruct I1; discriminate.
    + rewrite forallb_app. cbn [forallb]. rewrite forallb_app. cbn [forallb].
      rewrite (digits_amount_chars I1 H1), (digits_amount_chars I2 H2),
        (digits_amount_chars F HF).
      reflexivity.
Qed.

Lemma parse_german_amount_comma_before_point_witness :
  parse_german_amount (PyStr (py "-20,000.00 EUR"))
  = Ok (Finite true 2000000 (-2), []).
Proof.
  exact (proj2 (parse_german_amount_comma_before_point
                  MinusSign (py "20") (py "000") (py "00") SpaceUnitEUR
                  eq_refl eq_refl eq_refl)).
Defined.

(** X4. Every string with two or more commas is an amount that
    [parse_german_amount] cannot read: the constructor rejects the text
    that the format detection produces, and the function returns the zero
    [Decimal('0')] with one warning. *)
Theorem parse_german_amount_two_commas :
  forall s : str,
    (2 <= count comma s)%nat ->
    exists t : str,
      detect_format (clean s) = Ok t
      /\ Dec.of_str t = None
      /\ parse_german_amount (PyStr s)
         = Ok (Finite false 0 0, [warning_text t]).
Proof.
  intros s Hs.
  rewrite <- (count_clean comma s) in Hs by auto.
  set (c := clean s) in *.
  assert (Hrej : forall t : str,
             (1 <= count comma t \/ 2 <= count dot t)%nat ->
             Dec.of_str t = None).
  { intros t Ht. destruct (Dec.of_str t) as [d|] eqn:E; [|reflexivity].
    apply of_str_counts in E. lia. }
  assert (Hdet : exists t : str,
             detect_format c = Ok t
             /\ (1 <= count comma t \/ 2 <= count dot t)%nat).
  { unfold detect_format.
    destruct (Nat.eqb_spec (count comma c) 1) as [?|_]; [lia|].
    destruct (Nat.eqb_spec (count comma c) 0) as [?|_]; [lia|].
    rewrite andb_false_r. cbn [andb].
    destruct (1 <? count dot c)%nat.
    - eexists. split; [reflexivity|]. right.
      rewrite count_replace_char by reflexivity.
      rewrite (count_remove_char comma dot) by reflexivity. lia.
    - exists c. split; [reflexivity|]. left. lia. }
  destruct Hdet as [t [Ht Hc]].
  exists t. split; [exact Ht|]. split; [exact (Hrej t Hc)|].
  unfold parse_german_amount. cbn [str_]. fold c. rewrite Ht. cbn [bind].
  unfold Decimal_. now rewrite (Hrej t Hc).
Qed.

Lemma parse_german_amount_two_commas_witness :
  exists t : str,
    detect_format (clean (py "1,234,567.89")) = Ok t
    /\ Dec.of_str t = None
    /\ parse_german_amount (PyStr (py "1,234,567.89"))
       = Ok (Finite false 0 0, [warning_text t]).
Proof.
  apply (parse_german_amount_two_commas (py "1,234,567.89")).
  vm_compute. lia.
Defined.

(** ** The parser of v6 *)

(** X5. On every text in the German format (an optional sign, groups of
    digits separated by points, a comma, decimals, an optional "EUR"
    marker) the parser of v6 and the parser of v7 and v8 return the same
    [Decimal] and log nothing. *)
Theorem parse_german_amount_v6_german :
  forall (m : sign_mark) (groups : list str) (frac : str) (u : unit_mark),
    groups <> [] ->
    forallb digit_group groups = true ->
    digit_group frac = true ->
    let d := Finite (is_minus m)
                    (digits_value 0 (List.concat groups ++ frac))
                    (- Z.of_nat (List.length frac)) in
    parse_german_amount_v6 (PyStr (german_text m groups frac u)) = Ok (d, [])
    /\ parse_german_amount (PyStr (german_text m groups frac u)) = Ok (d, []).
Proof.
  intros m groups frac u Hne Hg Hf d. split.
  - unfold parse_german_amount_v6. cbn [str_]. cbv zeta.
    unfold german_text.
    rewrite strip_marked.
    + rewrite convert_signed.
      * unfold Decimal_.
        pose proof (of_str_american m groups frac Hne Hg Hf) as H.
        unfold american_text in H. now rewrite H.
      * apply sign_text_chars; unfold dot; lia.
      * apply sign_text_chars; unfold comma; lia.
      * exact Hg.
      * exact (frac_all_digits frac Hf).
    + unfold german_body. now destruct (join_dot groups).
    + exact (body_chars groups frac Hg Hf).
  - unfold parse_german_amount. cbn [str_].
    rewrite (clean_german m groups frac Hne Hg Hf u).
    rewrite (detect_format_german m groups frac Hne Hg Hf). cbn [bind].
    unfold Decimal_.
    now rewrite (of_str_converted m groups frac Hne Hg Hf).
Qed.

Lemma parse_german_amount_v6_german_witness :
  parse_german_amount_v6 (PyStr (py "-101.046,00 EUR"))
  = Ok (Finite true 10104600 (-2), [])
  /\ parse_german_amount (PyStr (py "-101.046,00 EUR"))
     = Ok (Finite true 10104600 (-2), []).
Proof.
  exact (parse_german_amount_v6_german
           MinusSign [py "101"; py "046"] (py "00") SpaceUnitEUR
           ltac:(discriminate) eq_refl eq_refl).
Defined.

(** X6. The parser of v6 drops the point of a text with a decimal
    point: for a sign, digits, a point and decimals it returns the integer
    of all the digits run together with exponent 0, whereas the
    constructor gives the text itself the exponent minus the number of
    decimals. *)
Theorem parse_german_amount_v6_decimal_point :
  forall (m : sign_mark) (I F : str) (u : unit_mark),
    digit_group I = true -> all_digits F = true ->
    Dec.of_str (sign_text m ++ I ++ dot :: F)
    = Some (Finite (is_minus m) (digits_value 0 (I ++ F))
                   (- Z.of_nat (List.length F)))
    /\ parse_german_amount_v6
         (PyStr (sign_text m ++ (I ++ dot :: F) ++ unit_text u))
       = Ok (Finite (is_minus m) (digits_value 0 (I ++ F)) 0, []).
Proof.
  intros m I F u HI HF.
  apply digit_group_digits in HI as [HI Hne].
  split.
  - exact (of_str_point (sign_text m) (is_minus m) I F (sign_text_tight m)
             (parse_sign_text m) HI HF Hne).
  - unfold parse_german_amount_v6. cbn [str_]. cbv zeta.
    rewrite strip_marked.
    + rewrite convert_point.
      * unfold Decimal_.
        rewrite (of_str_digits (sign_text m) (is_minus m) (I ++ F)
                   (sign_text_tight m) (parse_sign_text m)).
        -- reflexivity.
        -- now rewrite all_digits_app, HI, HF.
        -- destruct I; [congruence|discriminate].
      * apply sign_text_chars; unfold dot; lia.
      * apply sign_text_chars; unfold comma; lia.
      * exact HI.
      * exact HF.
    + destruct I; discriminate.
    + rewrite forallb_app. cbn [forallb].
      rewrite (digits_amount_chars I HI), (digits_amount_chars F HF).
      reflexivity.
Qed.

Lemma parse_german_amount_v6_decimal_point_witness :
  Dec.of_str (py "405107.75") = Some (Finite false 40510775 (-2))
  /\ parse_german_amount_v6 (PyStr (py "405107.75"))
     = Ok (Finite false 40510775 0, []).
Proof.
  exact (parse_german_amount_v6_decimal_point
           NoSign (py "405107") (py "75") NoUnit eq_refl eq_refl).
Defined.

(** ** Continuity: failed checks and exact balances *)

Lemma validated_failed (a : analyse_v8) :
  validated a = if failed a then Raise KeyError
                else Ok (snd (checked a)).
Proof.
  unfold validated, failed, checked, validated.
  destruct (python_validierung_of a); reflexivity.
Qed.

Lemma for_each_v8_failed (l : list analyse_v8) :
  for_each (fun ab => check_pair_v8 (fst ab) (snd ab)) (adjacent l)
  = if (2 <=? List.length l)%nat && existsb failed l
    then Raise KeyError
    else Ok (map (fun ab => paar_check (checked (fst ab)) (checked (snd ab)))
                 (adjacent l)).
Proof.
  induction l as [|a t IH]; [reflexivity|].
  destruct t as [|b t']; [reflexivity|].
  cbn [adjacent for_each fst snd].
  change (2 <=? List.length (a :: b :: t'))%nat with true.
  cbn [andb existsb].
  unfold check_pair_v8 at 1. rewrite !validated_failed.
  destruct (failed a); [reflexivity|].
  destruct (failed b) eqn:Hb; [reflexivity|].
  cbn [bind orb]. cbn [adjacent] in IH. rewrite IH.
  cbn [existsb]. rewrite Hb. cbn [orb].
  destruct t' as [|c t'']; [reflexivity|].
  change (2 <=? List.length (b :: c :: t''))%nat with true. cbn [andb].
  destruct (existsb failed (c :: t'')); reflexivity.
Qed.

(** X7. [check_continuity_v8] raises KeyError exactly when the sequence
    has at least two statements and one of them holds a failed balance
    check; it raises no other exception. *)
Theorem check_continuity_v8_key_error :
  forall analysen : list analyse_v8,
    (check_continuity_v8 analysen = Raise KeyError
     <-> (2 <= List.length analysen)%nat
         /\ exists a : analyse_v8, In a analysen /\ failed a = true)
    /\ (forall e : pyexc,
          check_continuity_v8 analysen = Raise e -> e = KeyError).
Proof.
  intros analysen.
  rewrite check_continuity_v8_adjacent, for_each_v8_failed.
  destruct ((2 <=? List.length analysen)%nat && existsb failed analysen)
    eqn:E; cbn [bind].
  - apply andb_true_iff in E as [H2 Hex].
    apply Nat.leb_le in H2. apply existsb_exists in Hex.
    split; [|intros e H; now injection H].
    split; [intros _; split; assumption|reflexivity].
  - split; [|discriminate].
    split; [discriminate|]. intros [H2 Hex].
    apply Nat.leb_le in H2. apply existsb_exists in Hex.
    rewrite H2, Hex in E. discriminate.
Qed.

(** A failed check between two checked statements. *)
Lemma check_continuity_v8_key_error_witness :
  check_continuity_v8 [analyse_4; analyse_fehler; analyse_5] = Raise KeyError.
Proof.
  apply (proj2 (proj1 (check_continuity_v8_key_error
                         [analyse_4; analyse_fehler; analyse_5]))).
  split; [simpl; lia|]. exists analyse_fehler.
  split; [simpl; auto|vm_compute; reflexivity].
Defined.

Lemma adjacent_length {A : Type} (l : list A) :
  List.length (adjacent l) = (List.length l - 1)%nat.
Proof.
  induction l as [|a t IH]; [reflexivity|].
  destruct t as [|b t']; [reflexivity|].
  cbn [adjacent List.length] in *. lia.
Qed.

Lemma for_each_adjacent_ok {A B : Type} (f : A -> A -> exc B)
    (g : A * A -> B) (P Q : A -> Prop) (l : list A) :
  (forall a b : A, P a -> Q b -> f a b = Ok (g (a, b))) ->
  Forall (fun a => P a /\ Q a) l ->
  for_each (fun ab => f (fst ab) (snd ab)) (adjacent l)
  = Ok (map g (adjacent l)).
Proof.
  intros Hf. induction l as [|a t IH]; intros H; [reflexivity|].
  destruct t as [|b t']; [reflexivity|].
  inversion H as [|? ? [Ha _] Ht]; subst.
  inversion Ht as [|? ? [_ Hb] _]; subst.
  cbn [adjacent for_each map fst snd]. rewrite (Hf a b Ha Hb). cbn [bind].
  cbn [adjacent] in IH. rewrite (IH Ht). reflexivity.
Qed.

Lemma check_continuity_adjacent (analysen : list llm_result) :
  check_continuity analysen
  = (checks <- for_each (fun ab => check_pair (fst ab) (snd ab))
                        (adjacent analysen) ;;
     Ok {| kontinuitaet_pruefungen := checks;
           alle_ok := forallb kontinuitaet_ok checks |}).
Proof.
  unfold check_continuity. rewrite range_len.
  pose proof (for_each_index_adjacent check_pair analysen [] analysen
                eq_refl) as H.
  change (List.length (@nil llm_result)) with 0%nat in H.
  now rewrite H.
Qed.

Lemma check_pair_exact (k : Z) (a b : llm_result) :
  (2 <= k <= max_places)%Z ->
  saldo_in_range k (schluss a) -> saldo_in_range k (eroeffnung b) ->
  check_pair a b = Ok (paar_check_v7 k (a, b))
  /\ units k (abs_diff (schluss a) (eroeffnung b))
     = Z.abs (units k (schluss a) - units k (eroeffnung b)).
Proof.
  intros Hk [Hea Heb] [Hsa Hsb].
  assert (Hk0 : (0 <= k <= max_places)%Z) by lia.
  destruct (sub_units k Hk0 (schluss a) (eroeffnung b) Hea Hsa ltac:(lia))
    as [d [Hsub [Hdam Hdu]]].
  destruct (abs_units k Hk0 d Hdam ltac:(lia)) as [r [Habs [Hram Hru]]].
  assert (Hdiff : abs_diff (schluss a) (eroeffnung b) = r).
  { unfold abs_diff. rewrite Hsub. cbn [bind]. now rewrite Habs. }
  split; [|rewrite Hdiff, Hru, Hdu; reflexivity].
  unfold check_pair.
  rewrite (returned_amount k _ Hea), (returned_amount k _ Hsa). cbn [bind].
  fold (schluss a). fold (eroeffnung b).
  rewrite Hsub. cbn [bind]. rewrite Habs. cbn [bind].
  rewrite (lt_units k r tolerance Hram) by (simpl; lia). cbn [bind].
  rewrite !(of_Decimal_amount k) by assumption. cbn [bind].
  unfold paar_check_v7. cbn [fst snd]. rewrite Hdiff, Hru, Hdu.
  cbn [units tolerance signed].
  replace (-2 + k)%Z with (k - 2)%Z by lia.
  rewrite Z.mul_1_l. reflexivity.
Qed.

(** X8. For every sequence of statements whose closing and opening
    balances are amounts with at most [k] decimal places and of bounded
    magnitude, [check_continuity] of v7 returns one check per pair of
    neighbours, in order; each check holds the floats nearest to the two
    balances and to the magnitude of their exact difference and is
    continuous exactly when that magnitude is below 0.01; all_ok is the
    conjunction. *)
Theorem check_continuity_exact :
  forall (k : Z) (analysen : list llm_result),
    (2 <= k <= max_places)%Z ->
    Forall (fun r => saldo_in_range k (schluss r)
                     /\ saldo_in_range k (eroeffnung r)) analysen ->
    let checks := map (paar_check_v7 k) (adjacent analysen) in
    check_continuity analysen
    = Ok {| kontinuitaet_pruefungen := checks;
            alle_ok := forallb kontinuitaet_ok checks |}
    /\ List.length checks = (List.length analysen - 1)%nat
    /\ Forall (fun ab =>
                 units k (abs_diff (schluss (fst ab)) (eroeffnung (snd ab)))
                 = Z.abs (units k (schluss (fst ab))
                          - units k (eroeffnung (snd ab))))
              (adjacent analysen).
Proof.
  intros k analysen Hk H checks. split; [|split].
  - rewrite check_continuity_adjacent.
    rewrite (for_each_adjacent_ok check_pair (paar_check_v7 k)
               (fun r => saldo_in_range k (schluss r))
               (fun r => saldo_in_range k (eroeffnung r)) analysen).
    + reflexivity.
    + intros a b Ha Hb. exact (proj1 (check_pair_exact k a b Hk Ha Hb)).
    + exact H.
  - subst checks. now rewrite length_map, adjacent_length.
  - clear checks. induction analysen as [|a t IH]; [constructor|].
    destruct t as [|b t']; [constructor|].
    inversion H as [|? ? [Ha _] Ht]; subst.
    inversion Ht as [|? ? [_ Hb] _]; subst.
    cbn [adjacent]. constructor.
    + exact (proj2 (check_pair_exact k a b Hk Ha Hb)).
    + exact (IH Ht).
Qed.

(** The example statement closes at 405107.75 and its successor opens at
    405107.75. *)
Lemma check_continuity_exact_witness :
  check_continuity [auszug_beispiel; auszug_folge]
  = Ok {| kontinuitaet_pruefungen :=
            [paar_check_v7 2 (auszug_beispiel, auszug_folge)];
          alle_ok := true |}
  /\ k_differenz (paar_check_v7 2 (auszug_beispiel, auszug_folge)) = 0%float.
Proof.
  destruct (check_continuity_exact 2 [auszug_beispiel; auszug_folge])
    as [H _].
  - unfold max_places. lia.
  - apply Forall_cons; [|apply Forall_cons; [|apply Forall_nil]];
      (split; (split; [amount_by_computation|vm_compute; reflexivity])).
  - rewrite H. split; vm_compute; reflexivity.
Defined.

(** ** Amounts that are not numbers *)

Lemma add_nan (a b : Decimal) :
  is_nan a || is_nan b = true -> nan_or_raise (Dec.add a b).
Proof.
  destruct a as [s1 c1 e1|s1|s1 [|] p1], b as [s2 c2 e2|s2|s2 [|] p2];
    cbn; try discriminate; auto.
Qed.

Lemma sub_nan (a b : Decimal) :
  is_nan a || is_nan b = true -> nan_or_raise (Dec.sub a b).
Proof.
  destruct a as [s1 c1 e1|s1|s1 [|] p1], b as [s2 c2 e2|s2|s2 [|] p2];
    cbn; try discriminate; auto.
Qed.

Lemma abs_nan (a : Decimal) : is_nan a = true -> nan_or_raise (Dec.abs a).
Proof. destruct a as [s c e|s|s [|] p]; cbn; try discriminate; auto. Qed.

Lemma lt_nan (a b : Decimal) :
  is_nan a = true -> Dec.lt a b = Raise InvalidOperation.
Proof. intros H. unfold Dec.lt. now rewrite H. Qed.

Lemma summiere_v8_nan (es : list Decimal) :
  forall acc : Decimal,
    is_nan acc || existsb is_nan es = true ->
    nan_or_raise (summiere_v8 acc es).
Proof.
  induction es as [|b t IH]; intros acc H.
  - cbn [existsb] in H. rewrite orb_false_r in H. exact H.
  - cbn [summiere_v8 existsb] in *.
    destruct (is_nan acc || is_nan b) eqn:E.
    + pose proof (add_nan acc b E) as Hadd.
      destruct (Dec.add acc b) as [s'|e]; [|exact I].
      cbn [bind]. apply IH. cbn in Hadd. now rewrite Hadd.
    + destruct (Dec.add acc b) as [s'|e]; [|exact I].
      cbn [bind]. apply IH.
      apply orb_false_iff in E as [Ea Eb]. rewrite Ea, Eb in H.
      cbn [orb] in H. rewrite H. apply orb_true_r.
Qed.

Lemma returned_or_raise (v : PyValue) :
  returned (parse_german_amount v) = Ok (parsed v)
  \/ exists e : pyexc, returned (parse_german_amount v) = Raise e.
Proof.
  unfold parsed. destruct (returned (parse_german_amount v)) as [d|e];
    [left; reflexivity|right; eexists; reflexivity].
Qed.

Lemma summiere_nan (ts : list (option PyValue)) :
  forall acc : Decimal,
    is_nan acc || existsb (fun t => is_nan (parsed (get_betrag t))) ts = true ->
    nan_or_raise (summiere acc ts).
Proof.
  induction ts as [|t ts IH]; intros acc H.
  - cbn [existsb] in H. rewrite orb_false_r in H. exact H.
  - cbn [summiere existsb] in *.
    destruct (returned_or_raise (get_betrag t)) as [Hr|[e Hr]]; rewrite Hr;
      [|exact I].
    cbn [bind].
    destruct (is_nan acc || is_nan (parsed (get_betrag t))) eqn:E.
    + pose proof (add_nan acc _ E) as Hadd.
      destruct (Dec.add acc (parsed (get_betrag t))) as [s'|e]; [|exact I].
      cbn [bind]. apply IH. cbn in Hadd. now rewrite Hadd.
    + destruct (Dec.add acc (parsed (get_betrag t))) as [s'|e]; [|exact I].
      cbn [bind]. apply IH.
      apply orb_false_iff in E as [Ea Eb]. rewrite Ea, Eb in H.
      cbn [orb] in H. rewrite H. apply orb_true_r.
Qed.

Lemma berechne_nan (o c s : Decimal) :
  is_nan o || is_nan c || is_nan s = true ->
  match berechne o c s with
  | Ok l => is_nan (l_differenz l) = true
  | Raise _ => True
  end.
Proof.
  intros H. unfold berechne.
  destruct (Dec.add o s) as [b|e] eqn:Eadd; [|exact I]. cbn [bind].
  assert (Hb : is_nan b || is_nan c = true).
  { destruct (is_nan c); [apply orb_true_r|].
    rewrite orb_false_r in *.
    pose proof (add_nan o s H) as Hn. rewrite Eadd in Hn. exact Hn. }
  pose proof (sub_nan b c Hb) as Hsub.
  destruct (Dec.sub b c) as [d|e]; [|exact I]. cbn [bind].
  pose proof (abs_nan d Hsub) as Habs.
  destruct (Dec.abs d) as [r|e]; [|exact I]. exact Habs.
Qed.

Lemma bericht_nan (l : salden) :
  is_nan (l_differenz l) = true -> exists e : pyexc, bericht l = Raise e.
Proof.
  intros H. unfold bericht.
  destruct (Flt.of_Decimal (l_anfangssaldo l)); [|eexists; reflexivity].
  destruct (Flt.of_Decimal (l_endsaldo l)); [|eexists; reflexivity].
  destruct (Flt.of_Decimal (l_summe l)); [|eexists; reflexivity].
  destruct (Flt.of_Decimal (l_berechneter_saldo l)); [|eexists; reflexivity].
  destruct (Flt.of_Decimal (l_differenz l)); [|eexists; reflexivity].
  cbn [bind]. rewrite (lt_nan _ tolerance H). eexists; reflexivity.
Qed.

Lemma validate_locals_v8_nan (o c : Decimal) (es : list Decimal) :
  is_nan o || is_nan c || existsb is_nan es = true ->
  exists e : pyexc,
    (l <- validate_locals_v8 o c es ;; bericht l) = Raise e.
Proof.
  intros H. unfold validate_locals_v8.
  destruct (summiere_v8 (Finite false 0 0) es) as [s|e] eqn:Es;
    [|eexists; reflexivity].
  cbn [bind].
  assert (Hs : is_nan o || is_nan c || is_nan s = true).
  { destruct (is_nan o || is_nan c); [reflexivity|]. cbn [orb] in *.
    pose proof (summiere_v8_nan es (Finite false 0 0)) as Hn.
    cbn [is_nan orb] in Hn. rewrite Es in Hn. exact (Hn H). }
  pose proof (berechne_nan o c s Hs) as Hb.
  destruct (berechne o c s) as [l|e]; [|eexists; reflexivity].
  cbn [bind]. exact (bericht_nan l Hb).
Qed.

Lemma existsb_mapped {A B : Type} (f : B -> bool) (g : A -> B) (l : list A) :
  existsb f (map g l) = existsb (fun x => f (g x)) l.
Proof. induction l as [|a t IH]; [reflexivity|]. cbn. now rewrite IH. Qed.

(** X9. When the opening balance, the closing balance or an entry of a
    statement is read as a NaN, the balance check of v7 returns the error
    mapping and not a result, and so does the check of v8 on the same
    amounts. *)
Theorem validate_with_python_nan :
  forall r : llm_result,
    is_nan (eroeffnung r) || is_nan (schluss r)
    || existsb (fun t => is_nan (parsed (get_betrag t))) (transaktionen r)
    = true ->
    (exists e : pyexc, validate_with_python r = Fehler e)
    /\ forall conversions : list conversion_report,
        exists e : pyexc,
          validate_with_python_v8
            (eroeffnung r) (schluss r)
            (map (fun t => parsed (get_betrag t)) (transaktionen r))
            conversions
          = Fehler_v8 e.
Proof.
  intros r H.
  assert (H8 : exists e : pyexc,
             (l <- validate_locals_v8
                     (eroeffnung r) (schluss r)
                     (map (fun t => parsed (get_betrag t)) (transaktionen r)) ;;
              bericht l) = Raise e).
  { apply validate_locals_v8_nan. now rewrite existsb_mapped. }
  destruct H8 as [e He]. split.
  - assert (H7 : exists e' : pyexc,
               (l <- validate_locals r ;; bericht l) = Raise e').
    { unfold validate_locals.
      destruct (returned_or_raise (saldo_betrag (anfangssaldo r)))
        as [Ho|[e' Ho]]; rewrite Ho; [|eexists; reflexivity].
      destruct (returned_or_raise (saldo_betrag (endsaldo r)))
        as [Hc|[e' Hc]]; rewrite Hc; [|eexists; reflexivity].
      cbn [bind]. fold (eroeffnung r). fold (schluss r).
      destruct (summiere (Finite false 0 0) (transaktionen r)) as [s|e']
        eqn:Es; [|eexists; reflexivity].
      cbn [bind].
      assert (Hs : is_nan (eroeffnung r) || is_nan (schluss r) || is_nan s
                   = true).
      { destruct (is_nan (eroeffnung r) || is_nan (schluss r));
          [reflexivity|]. cbn [orb] in *.
        pose proof (summiere_nan (transaktionen r) (Finite false 0 0)) as Hn.
        cbn [is_nan orb] in Hn. rewrite Es in Hn. exact (Hn H). }
      pose proof (berechne_nan _ _ s Hs) as Hb.
      destruct (berechne (eroeffnung r) (schluss r) s) as [l|e'];
        [|eexists; reflexivity].
      cbn [bind]. exact (bericht_nan l Hb). }
    destruct H7 as [e' He']. exists e'. unfold validate_with_python.
    now rewrite He'.
  - intros conversions. exists e. unfold validate_with_python_v8.
    now rewrite He.
Qed.

(** An entry "NaN". *)
Lemma validate_with_python_nan_witness :
  exists e : pyexc, validate_with_python auszug_nan_buchung = Fehler e.
Proof.
  apply (proj1 (validate_with_python_nan auszug_nan_buchung
                  ltac:(vm_compute; reflexivity))).
Defined.

Lemma check_pair_nan (a b : llm_result) :
  is_nan (schluss a) || is_nan (eroeffnung b) = true ->
  exists e : pyexc, check_pair a b = Raise e.
Proof.
  intros H. unfold check_pair.
  destruct (returned_or_raise (saldo_betrag (endsaldo a))) as [Ha|[e Ha]];
    rewrite Ha; [|eexists; reflexivity].
  destruct (returned_or_raise (saldo_betrag (anfangssaldo b)))
    as [Hb|[e Hb]]; rewrite Hb; [|eexists; reflexivity].
  cbn [bind]. fold (schluss a). fold (eroeffnung b).
  pose proof (sub_nan _ _ H) as Hsub.
  destruct (Dec.sub (schluss a) (eroeffnung b)) as [d|e];
    [|eexists; reflexivity].
  cbn [bind]. pose proof (abs_nan d Hsub) as Habs.
  destruct (Dec.abs d) as [x|e]; [|eexists; reflexivity].
  cbn [bind]. rewrite (lt_nan x tolerance Habs). eexists; reflexivity.
Qed.

Lemma for_each_raises {A B : Type} (body : A -> exc B) (l : list A) :
  (exists a : A, In a l /\ exists e : pyexc, body a = Raise e) ->
  exists e : pyexc, for_each body l = Raise e.
Proof.
  induction l as [|x t IH]; intros [a [Hin [e He]]]; [contradiction|].
  cbn [for_each]. destruct (body x) as [b|e'] eqn:Ex; [|eexists; reflexivity].
  cbn [bind]. destruct Hin as [->|Hin]; [congruence|].
  destruct (IH (ex_intro _ a (conj Hin (ex_intro _ e He)))) as [e'' H].
  rewrite H. eexists; reflexivity.
Qed.

(** X10. [check_continuity] of v7 has no handler: when the closing
    balance of a statement or the opening balance of its successor is read
    as a NaN, the call raises. *)
Theorem check_continuity_nan_raises :
  forall (analysen : list llm_result) (a b : llm_result),
    In (a, b) (adjacent analysen) ->
    is_nan (schluss a) || is_nan (eroeffnung b) = true ->
    exists e : pyexc, check_continuity analysen = Raise e.
Proof.
  intros analysen a b Hin H.
  unfold check_continuity. rewrite range_len.
  pose proof (for_each_index_adjacent check_pair analysen [] analysen
                eq_refl) as Hadj.
  change (List.length (@nil llm_result)) with 0%nat in Hadj.
  rewrite Hadj.
  destruct (for_each_raises (fun ab => check_pair (fst ab) (snd ab))
              (adjacent analysen)) as [e He].
  - exists (a, b). split; [exact Hin|]. exact (check_pair_nan a b H).
  - rewrite He. eexists; reflexivity.
Qed.

(** A closing balance "NaN". *)
Lemma check_continuity_nan_raises_witness :
  exists e : pyexc,
    check_continuity [auszug_nan_saldo; auszug_beispiel] = Raise e.
Proof.
  apply (check_continuity_nan_raises [auszug_nan_saldo; auszug_beispiel]
           auszug_nan_saldo auszug_beispiel).
  - left. reflexivity.
  - vm_compute. reflexivity.
Defined.

(** ** The continuity report of v6 *)

Section Sorting.

Context {A : Type} (key : A -> Z).

Lemma insert_by_length (x : A) (l : list A) :
  List.length (insert_by key x l) = S (List.length l).
Proof.
  induction l as [|y t IH]; [reflexivity|].
  cbn [insert_by]. destruct (key x <=? key y)%Z; cbn [List.length]; lia.
Qed.

Lemma sorted_by_length (l : list A) :
  List.length (sorted_by key l) = List.length l.
Proof.
  induction l as [|x t IH]; [reflexivity|].
  cbn [sorted_by fold_right]. fold (sorted_by key t).
  now rewrite insert_by_length, IH.
Qed.






(** Insertions of elements with different keys commute. *)
Lemma insert_by_comm (x y : A) (l : list A) :
  key x <> key y ->
  insert_by key x (insert_by key y l) = insert_by key y (insert_by key x l).
Proof.
  intros Hxy. induction l as [|z t IH].
  - cbn [insert_by].
    destruct (Z.leb_spec (key x) (key y)), (Z.leb_spec (key y) (key x));
      try reflexivity; lia.
  - cbn [insert_by].
    destruct (Z.leb_spec (key y) (key z)) as [Hyz|Hyz];
      destruct (Z.leb_spec (key x) (key z)) as [Hxz|Hxz]; cbn [insert_by].
    + destruct (Z.leb_spec (key x) (key y)), (Z.leb_spec (key y) (key x));
        try lia.
      * destruct (Z.leb_spec (key y) (key z)); [reflexivity|lia].
      * destruct (Z.leb_spec (key x) (key z)); [reflexivity|lia].
    + destruct (Z.leb_spec (key x) (key y)); [lia|].
      destruct (Z.leb_spec (key x) (key z)); [lia|].
      destruct (Z.leb_spec (key y) (key z)); [reflexivity|lia].
    + destruct (Z.leb_spec (key y) (key x)); [lia|].
      destruct (Z.leb_spec (key y) (key z)); [lia|].
      destruct (Z.leb_spec (key x) (key z)); [reflexivity|lia].
    + destruct (Z.leb_spec (key x) (key z)); [lia|].
      destruct (Z.leb_spec (key y) (key z)); [lia|].
      now rewrite IH.
Qed.

Lemma sorted_by_permutation (l l' : list A) :
  Permutation l l' -> NoDup (map key l) -> sorted_by key l = sorted_by key l'.
Proof.
  induction 1 as [|x l l' Hp IH|x y l|l l' l'' H1 IH1 H2 IH2]; intros Hnd.
  - reflexivity.
  - cbn [sorted_by fold_right]. fold (sorted_by key l) (sorted_by key l').
    cbn [map] in Hnd. inversion Hnd; subst. now rewrite IH.
  - cbn [sorted_by fold_right]. fold (sorted_by key l).
    apply insert_by_comm. cbn [map] in Hnd. inversion Hnd as [|? ? Hin _].
    subst. intros E. apply Hin. left. now symmetry.
  - rewrite IH1 by exact Hnd. apply IH2.
    apply (Permutation_NoDup (Permutation_map key H1) Hnd).
Qed.

End Sorting.

Lemma filter_permutation {A : Type} (f : A -> bool) (l l' : list A) :
  Permutation l l' -> Permutation (filter f l) (filter f l').
Proof.
  induction 1 as [|x l l' Hp IH|x y l|l l' l'' H1 IH1 H2 IH2].
  - reflexivity.
  - cbn [filter]. destruct (f x); [now apply perm_skip|exact IH].
  - cbn [filter]. destruct (f x), (f y); try reflexivity. apply perm_swap.
  - now rewrite IH1.
Qed.

(** ** The continuity report of v6 *)


Lemma for_each_returns {A B : Type} (body : A -> exc B) (g : A -> B)
    (l : list A) :
  Forall (fun x => body x = Ok (g x)) l -> for_each body l = Ok (map g l).
Proof.
  induction 1 as [|x t Hx _ IH]; [reflexivity|].
  cbn [for_each map]. rewrite Hx. cbn [bind]. now rewrite IH.
Qed.

Lemma nummer_of_ok (a : analyse_v6) (n : Z) :
  nummer a = Ok n -> nummer a = Ok (nummer_of a).
Proof. intros H. unfold nummer_of. now rewrite H. Qed.

Lemma combine_map_self {A B : Type} (f : A -> B) (l : list A) :
  combine (map f l) l = map (fun a => (f a, a)) l.
Proof. induction l as [|a t IH]; [reflexivity|]. cbn. now rewrite IH. Qed.

(** The sorting returns when every number converts, and raises when one
    does not. *)
Lemma sorted_key_returns (analyses : list analyse_v6) :
  Forall (fun a => exists n : Z, nummer a = Ok n) (kept analyses) ->
  sorted_key nummer (kept analyses) = Ok (sorted_analyses analyses).
Proof.
  intros H. unfold sorted_key.
  rewrite (for_each_returns nummer nummer_of).
  - cbn [bind]. now rewrite combine_map_self.
  - eapply Forall_impl; [|exact H]. intros a [n Hn].
    exact (nummer_of_ok a n Hn).
Qed.








Lemma validate_statement_continuity_adjacent (analyses : list analyse_v6) :
  validate_statement_continuity analyses
  = (l <- sorted_key nummer (kept analyses) ;;
     checks <- for_each (fun ab => check_pair_v6 (fst ab) (snd ab))
                        (adjacent l) ;;
     Ok {| kontinuitaet_pruefungen_v6 := checks;
           alle_ok_v6 := forallb kontinuitaet_ok_v6 checks |}).
Proof.
  unfold validate_statement_continuity. fold (kept analyses).
  destruct (sorted_key nummer (kept analyses)) as [l|e]; [|reflexivity].
  cbn [bind]. rewrite range_len.
  pose proof (for_each_index_adjacent check_pair_v6 l [] l eq_refl) as H.
  change (List.length (@nil analyse_v6)) with 0%nat in H.
  now rewrite H.
Qed.







(** X12. When the statements without an error entry have numbers that
    convert and are different, the report of
    [validate_statement_continuity] does not depend on the order in which
    the statements are given. *)
Theorem validate_statement_continuity_order :
  forall analyses analyses' : list analyse_v6,
    Permutation analyses analyses' ->
    Forall (fun a => exists n : Z, nummer a = Ok n)
           (filter (fun a => negb (fehler a)) analyses) ->
    NoDup (map nummer (filter (fun a => negb (fehler a)) analyses)) ->
    validate_statement_continuity analyses
    = validate_statement_continuity analyses'.
Proof.
  intros analyses analyses' Hp Hall Hnd.
  fold (kept analyses) in Hall, Hnd.
  assert (Hpk : Permutation (kept analyses) (kept analyses'))
    by exact (filter_permutation _ _ _ Hp).
  assert (Hall' : Forall (fun a => exists n : Z, nummer a = Ok n)
                         (kept analyses'))
    by exact (Permutation_Forall Hpk Hall).
  rewrite !validate_statement_continuity_adjacent.
  rewrite (sorted_key_returns analyses Hall).
  rewrite (sorted_key_returns analyses' Hall').
  assert (Hs : sorted_analyses analyses = sorted_analyses analyses').
  { unfold sorted_analyses. f_equal.
    apply sorted_by_permutation; [now apply Permutation_map|].
    rewrite map_map. cbn [fst].
    apply (NoDup_map_inv (@Ok Z)). rewrite map_map.
    erewrite map_ext_in; [exact Hnd|].
    intros a Ha. rewrite Forall_forall in Hall.
    destruct (Hall a Ha) as [n Hn]. symmetry.
    exact (nummer_of_ok a n Hn). }
  now rewrite Hs.
Qed.

(** Statement 2 given before statement 1. *)
Lemma validate_statement_continuity_order_witness :
  validate_statement_continuity [v6_eins; v6_null]
  = validate_statement_continuity [v6_null; v6_eins].
Proof.
  apply (validate_statement_continuity_order [v6_eins; v6_null]
           [v6_null; v6_eins]).
  - apply perm_swap.
  - repeat constructor; eexists; vm_compute; reflexivity.
  - cbn. constructor.
    + intros [H|[]]. vm_compute in H. discriminate H.
    + constructor; [intros []|constructor].
Defined.

(** ** The balance check of v6 *)

Lemma summiere_v6_reads (ts : list (option PyValue)) (es : list Decimal) :
  Forall2 (fun t d => reads (get_betrag t) d) ts es ->
  forall acc : Decimal, summiere_v6 acc ts = summiere_v8 acc es.
Proof.
  induction 1 as [|t d ts es Ht _ IH]; intros acc; [reflexivity|].
  cbn [summiere_v6 summiere_v8]. unfold reads in Ht. rewrite Ht. cbn [bind].
  destruct (Dec.add acc d); [apply IH|reflexivity].
Qed.

(** X13. The balance check of v6 on amounts that [Decimal(str(...))]
    reads as amounts with at most [k] decimal places, of bounded magnitude:
    the sum of the entries and the computed closing balance are exact, the
    reported difference is the signed [closing - computed], and the check
    passes exactly when the magnitude of the difference is below 0.01. *)
Theorem validierung_v6_exact :
  forall (k : Z) (r : auszug_v6) (o c : Decimal) (es : list Decimal),
    (2 <= k <= max_places)%Z ->
    reads (get_betrag (anfangssaldo_v6 r)) o ->
    reads (get_betrag (endsaldo_v6 r)) c ->
    Forall2 (fun t d => reads (get_betrag t) d) (transaktionen_v6 r) es ->
    amount k o -> amount k c -> Forall (amount k) es ->
    (Z.abs (units k o) + Z.abs (units k c) + sum_abs k es < exact_bound)%Z ->
    exists s b d : Decimal,
      units k s = sum_units k es
      /\ units k b = (units k o + sum_units k es)%Z
      /\ units k d = (units k c - units k b)%Z
      /\ validierung_v6 r
         = Ok {| pv_anfangssaldo := to_float o;
                 endsaldo_aus_dokument := to_float c;
                 transaktionen_summe := to_float s;
                 berechneter_endsaldo := to_float b;
                 differenz := to_float d;
                 validierung_ok :=
                   (Z.abs (units k d) <? 10 ^ (k - 2))%Z |}.
Proof.
  intros k r o c es Hk Ho Hc Hes Hoa Hca Hesa Hb.
  assert (Hk0 : (0 <= k <= max_places)%Z) by lia.
  pose proof (sum_abs_nonneg k es) as Hnn.
  pose proof (sum_units_le_abs k es) as Hle.
  destruct (summiere_v8_units k Hk0 es Hesa ltac:(lia)) as [s [Hs [Hsa Hsu]]].
  destruct (add_units k Hk0 o s Hoa Hsa ltac:(lia)) as [b [Hadd [Hba Hbu]]].
  destruct (sub_units k Hk0 c b Hca Hba ltac:(lia)) as [d [Hsub [Hda Hdu]]].
  destruct (abs_units k Hk0 d Hda ltac:(lia)) as [a [Habs [Haa Hau]]].
  exists s, b, d. split; [exact Hsu|]. split; [lia|]. split; [exact Hdu|].
  unfold validierung_v6. unfold reads in Ho, Hc. rewrite Ho, Hc. cbn [bind].
  rewrite (summiere_v6_reads _ es Hes), Hs. cbn [bind].
  rewrite Hadd. cbn [bind]. rewrite Hsub. cbn [bind].
  rewrite !(of_Decimal_amount k) by assumption. cbn [bind].
  rewrite Habs. cbn [bind].
  rewrite (lt_units k a tolerance Haa) by (simpl; lia). cbn [bind].
  rewrite Hau. cbn [units tolerance signed].
  replace (-2 + k)%Z with (k - 2)%Z by lia.
  rewrite Z.mul_1_l. reflexivity.
Qed.

(** Opening balance 100.00, one entry 5.00, closing balance 90.00: the
    difference is -15.00. *)
Lemma validierung_v6_exact_witness :
  exists s b d : Decimal,
    units 2 s = 500%Z /\ units 2 b = 10500%Z /\ units 2 d = (-1500)%Z
    /\ validierung_v6 auszug_v6_beispiel
       = Ok {| pv_anfangssaldo := 100%float;
               endsaldo_aus_dokument := 90%float;
               transaktionen_summe := to_float s;
               berechneter_endsaldo := to_float b;
               differenz := to_float d;
               validierung_ok := false |}.
Proof.
  destruct (validierung_v6_exact 2 auszug_v6_beispiel
              (Finite false 10000 (-2)) (Finite false 9000 (-2))
              [Finite false 500 (-2)])
    as [s [b [d [Hs [Hb [Hd H]]]]]].
  - unfold max_places. lia.
  - reflexivity.
  - reflexivity.
  - repeat constructor.
  - simpl; lia.
  - simpl; lia.
  - repeat constructor; simpl; lia.
  - vm_compute. reflexivity.
  - exists s, b, d.
    assert (Es : units 2 s = 500%Z) by (rewrite Hs; vm_compute; reflexivity).
    assert (Eb : units 2 b = 10500%Z) by (rewrite Hb; vm_compute; reflexivity).
    assert (Ed : units 2 d = (-1500)%Z)
      by (rewrite Hd, Eb; vm_compute; reflexivity).
    split; [exact Es|]. split; [exact Eb|]. split; [exact Ed|].
    rewrite H, Ed. reflexivity.
Defined.

Lemma str_of_text (v : PyValue) (s : str) : str_of v = Ok s -> s = str_ v.
Proof.
  destruct v as [t|n|x|b]; cbn [str_of]; try congruence.
  destruct (10 ^ int_max_str_digits <=? Z.abs n)%Z; congruence.
Qed.

Lemma reads_comma (v : PyValue) :
  (1 <= count comma (str_ v))%nat ->
  exists e : pyexc, Decimal_str v = Raise e.
Proof.
  intros H. unfold Decimal_str.
  destruct (str_of v) as [s|e] eqn:Es; [|eexists; reflexivity].
  apply str_of_text in Es. subst s. cbn [bind]. unfold Decimal_.
  destruct (Dec.of_str (str_ v)) as [d|] eqn:E; [|eexists; reflexivity].
  apply of_str_counts in E. lia.
Qed.

Lemma summiere_v6_comma (ts : list (option PyValue)) :
  (exists t, In t ts /\ (1 <= count comma (str_ (get_betrag t)))%nat) ->
  forall acc : Decimal, exists e : pyexc, summiere_v6 acc ts = Raise e.
Proof.
  induction ts as [|t rest IH]; intros [x [Hin Hx]] acc; [contradiction|].
  cbn [summiere_v6].
  destruct (Decimal_str (get_betrag t)) as [d|e] eqn:Ed;
    [|eexists; reflexivity].
  cbn [bind]. destruct (Dec.add acc d) as [s|e]; [|eexists; reflexivity].
  cbn [bind]. apply IH. exists x. split; [|exact Hx].
  destruct Hin as [->|Hin]; [|exact Hin].
  destruct (reads_comma _ Hx) as [e He]. congruence.
Qed.

(** X14. The balance check of v6 reads its amounts without
    [parse_german_amount]: when the opening balance, the closing balance or
    an entry is a text with a comma, the check raises and the statement
    gets the mapping with the entry [fehler]. *)
Theorem validierung_v6_comma :
  forall (r : auszug_v6) (v : PyValue),
    (get_betrag (anfangssaldo_v6 r) = v
     \/ get_betrag (endsaldo_v6 r) = v
     \/ exists t, In t (transaktionen_v6 r) /\ get_betrag t = v) ->
    (1 <= count comma (str_ v))%nat ->
    exists e : pyexc, validierung_v6 r = Raise e.
Proof.
  intros r v Hv Hc. unfold validierung_v6.
  destruct (Decimal_str (get_betrag (anfangssaldo_v6 r))) as [o|e] eqn:Eo;
    [|eexists; reflexivity].
  cbn [bind].
  destruct (Decimal_str (get_betrag (endsaldo_v6 r))) as [c|e] eqn:Ec;
    [|eexists; reflexivity].
  cbn [bind].
  destruct Hv as [<-|[<-|[t [Hin <-]]]].
  - destruct (reads_comma _ Hc) as [e He]. congruence.
  - destruct (reads_comma _ Hc) as [e He]. congruence.
  - destruct (summiere_v6_comma (transaktionen_v6 r)
                (ex_intro _ t (conj Hin Hc)) (Finite false 0 0)) as [e He].
    rewrite He. eexists; reflexivity.
Qed.

(** The statement of the v8 prompt in the German format. *)
Lemma validierung_v6_comma_witness :
  exists e : pyexc, validierung_v6 auszug_v6_deutsch = Raise e.
Proof.
  apply (validierung_v6_comma auszug_v6_deutsch (PyStr (py "391.214,64"))).
  - left. reflexivity.
  - vm_compute. lia.
Defined.

(** ** Value dates and security numbers *)

Module ReFacts.

Lemma match_one (c : N -> bool) (p : list piece) (on : bool) (g s r : str) :
  match_here (One c :: p) on g s = Some r ->
  exists (x : N) (t : str),
    s = x :: t /\ c x = true
    /\ match_here p on (if on then x :: g else g) t = Some r.
Proof.
  cbn [match_here]. destruct s as [|x t]; [discriminate|].
  destruct (c x) eqn:Hc; [|discriminate].
  intros H. now exists x, t.
Qed.

Lemma match_one_char (a : N) (p : list piece) (g s r : str) :
  match_here (One (N.eqb a) :: p) false g s = Some r ->
  exists t : str, s = a :: t /\ match_here p false g t = Some r.
Proof.
  intros H. apply match_one in H as [x [t [-> [Hx H]]]].
  apply N.eqb_eq in Hx. subst x. now exists t.
Qed.

Lemma match_lit (k : str) (p : list piece) (g : str) :
  forall s r : str,
    match_here (lit k ++ p) false g s = Some r ->
    exists t : str, s = k ++ t /\ match_here p false g t = Some r.
Proof.
  induction k as [|a k IH]; intros s r H.
  - now exists s.
  - cbn [lit map app] in H. apply match_one_char in H as [t [-> H]].
    apply IH in H as [t' [-> H]]. now exists t'.
Qed.

Lemma match_lit_complete (k : str) (p : list piece) (g t : str) :
  match_here (lit k ++ p) false g (k ++ t) = match_here p false g t.
Proof.
  induction k as [|a k IH]; [reflexivity|].
  cbn [lit map app match_here]. now rewrite N.eqb_refl.
Qed.

Lemma match_many_cons (c : N -> bool) (p : list piece) (on : bool)
    (g : str) (x : N) (t : str) :
  match_here (Many c :: p) on g (x :: t)
  = if c x
    then match match_here (Many c :: p) on (if on then x :: g else g) t with
         | Some r => Some r
         | None => match_here p on g (x :: t)
         end
    else match_here p on g (x :: t).
Proof. reflexivity. Qed.

Lemma match_many_nil (c : N -> bool) (p : list piece) (on : bool) (g : str) :
  match_here (Many c :: p) on g [] = match_here p on g [].
Proof. reflexivity. Qed.

Lemma match_many (c : N -> bool) (p : list piece) (on : bool) :
  forall s g r : str,
    match_here (Many c :: p) on g s = Some r ->
    exists ws t : str,
      s = ws ++ t /\ forallb c ws = true
      /\ match_here p on (if on then rev ws ++ g else g) t = Some r.
Proof.
  induction s as [|x t IH]; intros g r H.
  - rewrite match_many_nil in H. exists [], []. destruct on; auto.
  - rewrite match_many_cons in H.
    assert (Hstop : match_here p on g (x :: t) = Some r ->
                    exists ws t' : str,
                      x :: t = ws ++ t' /\ forallb c ws = true
                      /\ match_here p on (if on then rev ws ++ g else g) t'
                         = Some r).
    { intros H'. exists [], (x :: t). destruct on; auto. }
    destruct (c x) eqn:Hc; [|exact (Hstop H)].
    destruct (match_here (Many c :: p) on (if on then x :: g else g) t)
      as [r'|] eqn:E; [|exact (Hstop H)].
    injection H as <-.
    apply IH in E as [ws [t' [-> [Hws E]]]].
    exists (x :: ws), t'. split; [reflexivity|].
    split; [cbn [forallb]; now rewrite Hc, Hws|].
    destruct on; [|exact E].
    cbn [rev]. now rewrite <- app_assoc.
Qed.

Lemma match_many_complete (c : N -> bool) (p : list piece) (on : bool) :
  forall ws g t : str,
    forallb c ws = true ->
    match_here p on (if on then rev ws ++ g else g) t <> None ->
    match_here (Many c :: p) on g (ws ++ t) <> None.
Proof.
  induction ws as [|x ws IH]; intros g t Hws H.
  - assert (H' : match_here p on g t <> None) by (destruct on; exact H).
    cbn [app]. destruct t as [|y t'].
    + now rewrite match_many_nil.
    + rewrite match_many_cons. destruct (c y); [|exact H'].
      destruct (match_here (Many c :: p) on (if on then y :: g else g) t');
        [discriminate|exact H'].
  - cbn [forallb] in Hws. apply andb_true_iff in Hws as [Hx Hws].
    cbn [app]. rewrite match_many_cons, Hx.
    specialize (IH (if on then x :: g else g) t Hws).
    destruct (match_here (Many c :: p) on (if on then x :: g else g)
                (ws ++ t)); [discriminate|].
    exfalso. apply IH; [|reflexivity].
    destruct on; [|exact H].
    cbn [rev] in H. now rewrite <- app_assoc in H.
Qed.

Lemma search_cons (p : list piece) (s : str) :
  search p s
  = match match_here p false [] s with
    | Some g => Some g
    | None => match s with
              | [] => None
              | _ :: t => search p t
              end
    end.
Proof. destruct s; reflexivity. Qed.

(** A search finds the match at the leftmost position that has one. *)
Lemma search_some (p : list piece) :
  forall s g : str,
    search p s = Some g ->
    exists pre rest : str,
      s = pre ++ rest /\ match_here p false [] rest = Some g
      /\ forall pre' rest' : str,
          s = pre' ++ rest' ->
          (List.length pre' < List.length pre)%nat ->
          match_here p false [] rest' = None.
Proof.
  induction s as [|x t IH]; intros g H; rewrite search_cons in H.
  - destruct (match_here p false [] []) as [r|] eqn:E; [|discriminate].
    injection H as ->. exists [], []. split; [reflexivity|].
    split; [exact E|]. intros pre' rest' _ Hl. simpl in Hl. lia.
  - destruct (match_here p false [] (x :: t)) as [r|] eqn:E.
    + injection H as ->. exists [], (x :: t). split; [reflexivity|].
      split; [exact E|]. intros pre' rest' _ Hl. simpl in Hl. lia.
    + apply IH in H as [pre [rest [-> [Hm Hleft]]]].
      exists (x :: pre), rest. split; [reflexivity|]. split; [exact Hm|].
      intros pre' rest' Hs Hl. destruct pre' as [|y pre''].
      * cbn [app] in Hs. now subst rest'.
      * cbn [app] in Hs. injection Hs as _ Hs.
        apply (Hleft pre'' rest' Hs). simpl in Hl. lia.
Qed.

Lemma search_none (p : list piece) :
  forall s : str,
    search p s = None ->
    forall pre rest : str,
      s = pre ++ rest -> match_here p false [] rest = None.
Proof.
  induction s as [|x t IH]; intros H pre rest Hs; rewrite search_cons in H.
  - destruct pre; [|discriminate]. cbn [app] in Hs. subst rest.
    now destruct (match_here p false [] []).
  - destruct (match_here p false [] (x :: t)) eqn:E; [discriminate|].
    destruct pre as [|y pre'].
    + cbn [app] in Hs. now subst rest.
    + cbn [app] in Hs. injection Hs as _ Hs. exact (IH H pre' rest Hs).
Qed.

Lemma search_complete (p : list piece) (pre rest : str) :
  match_here p false [] rest <> None -> search p (pre ++ rest) <> None.
Proof.
  intros H E. apply H. exact (search_none p _ E pre rest eq_refl).
Qed.

(** The group of a date. *)
Lemma match_date_group (t r : str) :
  match_here date_group false [] t = Some r ->
  exists post : str, t = r ++ post /\ date_shape r = true.
Proof.
  unfold date_group. change (py ".") with [46%N].
  cbn [times repeat lit map app match_here].
  destruct t as [|a [|b [|p [|c [|d [|q [|e [|f [|h [|i post]]]]]]]]]];
    repeat match goal with
           | |- context [if ?b then _ else _] =>
               destruct b eqn:?; try discriminate
           end; try discriminate.
  cbn [rev app]. intros H. injection H as <-. exists post.
  split; [reflexivity|].
  repeat match goal with
         | E : (46 =? _)%N = true |- _ => apply N.eqb_eq in E; subst
         end.
  cbn [date_shape].
  repeat match goal with
         | E : isdecimal _ = true |- _ => rewrite E; clear E
         end.
  reflexivity.
Qed.

Lemma match_date_group_complete (r post : str) :
  date_shape r = true -> match_here date_group false [] (r ++ post) = Some r.
Proof.
  unfold date_shape.
  destruct r as [|a [|b [|p [|c [|d [|q [|e [|f [|h [|i [|j r']]]]]]]]]]];
    try discriminate.
  rewrite !andb_true_iff.
  intros [[[[[[[[[Ha Hb] Hp] Hc] Hd] Hq] He] Hf] Hh] Hi].
  apply N.eqb_eq in Hp. apply N.eqb_eq in Hq. subst p q.
  unfold date_group. change (py ".") with [46%N].
  cbn [times repeat lit map app match_here].
  rewrite Ha, Hb, Hc, Hd, He, Hf, Hh, Hi. reflexivity.
Qed.

(** A key, white space and a date. *)
Lemma match_dated (key t r : str) :
  match_here (lit key ++ [Many isspace] ++ date_group) false [] t = Some r ->
  exists ws post : str,
    t = key ++ ws ++ r ++ post
    /\ forallb isspace ws = true /\ date_shape r = true.
Proof.
  intros H. apply match_lit in H as [t1 [-> H]].
  cbn [app] in H. apply match_many in H as [ws [t2 [-> [Hws H]]]].
  apply match_date_group in H as [post [-> Hr]].
  now exists ws, post.
Qed.

Lemma match_dated_complete (key ws r post : str) :
  forallb isspace ws = true -> date_shape r = true ->
  match_here (lit key ++ [Many isspace] ++ date_group) false []
             (key ++ ws ++ r ++ post) <> None.
Proof.
  intros Hws Hr. rewrite match_lit_complete. cbn [app].
  apply match_many_complete; [exact Hws|].
  now rewrite (match_date_group_complete r post Hr).
Qed.

Lemma search_dated (key description g : str) :
  search (lit key ++ [Many isspace] ++ date_group) description = Some g ->
  dated key description g.
Proof.
  intros H. apply search_some in H as [pre [rest [-> [H _]]]].
  apply match_dated in H as [ws [post [-> [Hws Hg]]]].
  now exists pre, ws, post.
Qed.

Lemma search_dated_complete (key description g : str) :
  dated key description g ->
  search (lit key ++ [Many isspace] ++ date_group) description <> None.
Proof.
  intros [pre [ws [post [-> [Hws Hg]]]]].
  apply search_complete. now apply match_dated_complete.
Qed.

Lemma search_slash_wert (description : str) :
  search wert_pattern description = None ->
  search slash_wert_pattern description = None.
Proof.
  intros Hw.
  destruct (search slash_wert_pattern description) as [g|] eqn:E;
    [|reflexivity].
  apply search_some in E as [pre [rest [-> [H _]]]].
  unfold slash_wert_pattern in H.
  apply match_lit in H as [t1 [-> H]].
  cbn [app] in H. apply match_many in H as [ws [t2 [-> [_ H]]]].
  change (match_here wert_pattern false [] t2 = Some g) in H.
  rewrite (search_none wert_pattern _ Hw (pre ++ py "/" ++ ws) t2) in H;
    [discriminate|].
  now rewrite <- !app_assoc.
Qed.

End ReFacts.

Import ReFacts.

(** X15. Every value that [extract_valuta_date] returns is a date of the
    shape dd.dd.dddd that stands in the description behind "Wert:" or
    "Valuta:" and white space.  A description with a date behind "Wert:"
    yields such a date, also when a date behind "Valuta:" comes first; a
    description with a date behind "Valuta:" yields a value. *)
Theorem extract_valuta_date_dated :
  forall description : str,
    (forall g : str,
        extract_valuta_date description = Some g ->
        dated (py "Wert:") description g
        \/ dated (py "Valuta:") description g)
    /\ (forall g0 : str,
           dated (py "Wert:") description g0 ->
           exists g : str,
             extract_valuta_date description = Some g
             /\ dated (py "Wert:") description g)
    /\ (forall g0 : str,
           dated (py "Valuta:") description g0 ->
           extract_valuta_date description <> None).
Proof.
  intros description. unfold extract_valuta_date. cbn [first_match].
  split; [|split].
  - intros g H.
    destruct (search wert_pattern description) as [g1|] eqn:E1.
    { injection H as <-. left. exact (search_dated _ _ _ E1). }
    destruct (search valuta_pattern description) as [g2|] eqn:E2.
    { injection H as <-. right. exact (search_dated _ _ _ E2). }
    rewrite (search_slash_wert description E1) in H. discriminate.
  - intros g0 H0.
    pose proof (search_dated_complete _ _ _ H0) as Hc.
    fold wert_pattern in Hc.
    destruct (search wert_pattern description) as [g1|] eqn:E1;
      [|congruence].
    exists g1. split; [reflexivity|]. exact (search_dated _ _ _ E1).
  - intros g0 H0.
    pose proof (search_dated_complete _ _ _ H0) as Hc.
    fold valuta_pattern in Hc.
    destruct (search wert_pattern description); [discriminate|].
    destruct (search valuta_pattern description); [discriminate|congruence].
Qed.

(** A value date behind a date marked "Valuta:". *)
Lemma extract_valuta_date_dated_witness :
  exists g : str,
    extract_valuta_date (py "Valuta: 08.04.2022 / Wert: 11.04.2022") = Some g
    /\ dated (py "Wert:") (py "Valuta: 08.04.2022 / Wert: 11.04.2022") g.
Proof.
  apply (proj1 (proj2 (extract_valuta_date_dated
                         (py "Valuta: 08.04.2022 / Wert: 11.04.2022")))
           (py "11.04.2022")).
  exists (py "Valuta: 08.04.2022 / "), (py " "), [].
  repeat split; reflexivity.
Defined.

(** X16. The third pattern of [extract_valuta_date] never decides: the
    function returns what the first two patterns alone return. *)
Theorem extract_valuta_date_two_patterns :
  forall description : str,
    extract_valuta_date description
    = first_match [wert_pattern; valuta_pattern] description.
Proof.
  intros description. unfold extract_valuta_date. cbn [first_match].
  destruct (search wert_pattern description) eqn:E1; [reflexivity|].
  destruct (search valuta_pattern description); [reflexivity|].
  now rewrite (search_slash_wert description E1).
Qed.

Module IsinFacts.

Lemma isin_shape_length (g : str) :
  isin_shape g = true -> List.length g = 12%nat.
Proof.
  destruct g as [|a [|b [|c [|d [|e [|f [|h [|i [|j [|k [|l [|m [|n r]]]]]]]]]]]]];
    try discriminate. reflexivity.
Qed.

Lemma wkn_shape_length (g : str) :
  wkn_shape g = true -> List.length g = 6%nat.
Proof.
  destruct g as [|a [|b [|c [|d [|e [|f [|n r]]]]]]]; try discriminate.
  reflexivity.
Qed.

Lemma match_isin (t r : str) :
  match_here isin_pattern false [] t = Some r ->
  exists post : str, t = r ++ post /\ isin_shape r = true.
Proof.
  unfold isin_pattern. cbn [times repeat app match_here].
  destruct t as [|a [|b [|c [|d [|e [|f [|h [|i [|j [|k [|l [|m post]]]]]]]]]]]];
    repeat match goal with
           | |- context [if ?b then _ else _] =>
               destruct b eqn:?; try discriminate
           end; try discriminate.
  cbn [rev app]. intros H. injection H as <-. exists post.
  split; [reflexivity|]. cbn [isin_shape forallb].
  repeat match goal with
         | E : _ = true |- _ => rewrite E; clear E
         end.
  reflexivity.
Qed.

Lemma match_isin_complete (r post : str) :
  isin_shape r = true -> match_here isin_pattern false [] (r ++ post) = Some r.
Proof.
  unfold isin_shape.
  destruct r as [|a [|b [|c [|d [|e [|f [|h [|i [|j [|k [|l [|m [|n r']]]]]]]]]]]]];
    try discriminate.
  cbn [forallb]. rewrite !andb_true_iff.
  intros [[Ha Hb] [Hc [Hd [He [Hf [Hh [Hi [Hj [Hk [Hl [Hm _]]]]]]]]]]].
  unfold isin_pattern. cbn [times repeat app match_here].
  rewrite Ha, Hb, Hc, Hd, He, Hf, Hh, Hi, Hj, Hk, Hl, Hm. reflexivity.
Qed.

Lemma match_wkn_group (t r : str) :
  match_here ([Open] ++ times 6 capital_or_digit ++ [Close]) false [] t
  = Some r ->
  exists post : str, t = r ++ post /\ wkn_shape r = true.
Proof.
  cbn [times repeat app match_here].
  destruct t as [|a [|b [|c [|d [|e [|f post]]]]]];
    repeat match goal with
           | |- context [if ?b then _ else _] =>
               destruct b eqn:?; try discriminate
           end; try discriminate.
  cbn [rev app]. intros H. injection H as <-. exists post.
  split; [reflexivity|]. cbn [wkn_shape forallb].
  repeat match goal with
         | E : _ = true |- _ => rewrite E; clear E
         end.
  reflexivity.
Qed.

Lemma match_wkn_group_complete (r post : str) :
  wkn_shape r = true ->
  match_here ([Open] ++ times 6 capital_or_digit ++ [Close]) false []
             (r ++ post) = Some r.
Proof.
  unfold wkn_shape.
  destruct r as [|a [|b [|c [|d [|e [|f [|n r']]]]]]]; try discriminate.
  cbn [forallb]. rewrite !andb_true_iff.
  intros [Ha [Hb [Hc [Hd [He [Hf _]]]]]].
  cbn [times repeat app match_here].
  rewrite Ha, Hb, Hc, Hd, He, Hf. reflexivity.
Qed.

Lemma match_one_complete (c : N -> bool) (p : list piece) (g : str)
    (x : N) (t : str) :
  c x = true ->
  match_here (One c :: p) false g (x :: t) = match_here p false g t.
Proof. intros H. cbn [match_here]. now rewrite H. Qed.

Lemma app_same_length {A : Type} (a b c d : list A) :
  a ++ b = c ++ d -> List.length a = List.length c -> a = c /\ b = d.
Proof.
  revert c. induction a as [|x a IH]; intros [|y c] H Hl;
    try discriminate Hl.
  - now split.
  - cbn [app] in H. injection H as -> H. injection Hl as Hl.
    destruct (IH c H Hl) as [-> ->]. now split.
Qed.

End IsinFacts.

Import IsinFacts.

(** X17. The ISIN that [extract_wkn_isin] returns is the leftmost run of
    twelve characters of the description that consists of two capital
    letters and ten capital letters or digits, whatever stands around it. *)
Theorem extract_wkn_isin_leftmost_window :
  forall description g : str,
    isin_of description = Some g
    <-> exists pre post : str,
          description = pre ++ g ++ post
          /\ isin_shape g = true
          /\ forall pre' g' post' : str,
              description = pre' ++ g' ++ post' ->
              isin_shape g' = true ->
              (List.length pre <= List.length pre')%nat.
Proof.
  intros description g.
  change (isin_of description) with (search isin_pattern description).
  split.
  - intros H. apply search_some in H as [pre [rest [-> [Hm Hleft]]]].
    apply match_isin in Hm as [post [-> Hg]].
    exists pre, post. split; [reflexivity|]. split; [exact Hg|].
    intros pre' g' post' Hd Hg'.
    destruct (Nat.le_gt_cases (List.length pre) (List.length pre'))
      as [Hle|Hlt]; [exact Hle|].
    pose proof (match_isin_complete g' post' Hg') as Hc.
    rewrite (Hleft pre' (g' ++ post') Hd Hlt) in Hc. discriminate.
  - intros [pre [post [-> [Hg Hmin]]]].
    destruct (search isin_pattern (pre ++ g ++ post)) as [g2|] eqn:E.
    + apply search_some in E as [pre2 [rest2 [Hd [Hm Hleft]]]].
      apply match_isin in Hm as [post2 [-> Hg2]].
      assert (Hl : List.length pre2 = List.length pre).
      { apply Nat.le_antisymm; [|exact (Hmin pre2 g2 post2 Hd Hg2)].
        destruct (Nat.le_gt_cases (List.length pre2) (List.length pre))
          as [Hle|Hlt]; [exact Hle|].
        pose proof (match_isin_complete g post Hg) as Hc.
        rewrite (Hleft pre (g ++ post) eq_refl Hlt) in Hc. discriminate. }
      symmetry in Hd.
      destruct (app_same_length _ _ _ _ Hd Hl) as [_ Hrest].
      destruct (app_same_length g2 post2 g post Hrest) as [-> _];
        [|reflexivity].
      now rewrite (isin_shape_length g Hg), (isin_shape_length g2 Hg2).
    + exfalso. revert E. apply search_complete.
      now rewrite (match_isin_complete g post Hg).
Qed.

Lemma extract_wkn_isin_leftmost_window_witness :
  isin_of (py "WERTPAPIERABRECHNUNG") = Some (py "WERTPAPIERAB").
Proof.
  apply (proj2 (extract_wkn_isin_leftmost_window
                  (py "WERTPAPIERABRECHNUNG") (py "WERTPAPIERAB"))).
  exists [], (py "RECHNUNG"). split; [reflexivity|]. split; [reflexivity|].
  intros pre' g' post' _ _. apply Nat.le_0_l.
Defined.

(** X18. Every WKN that [extract_wkn_isin] returns is a run of six
    capital letters or digits that stands in the description behind "WKN"
    and at least one white space character; a description with such a run
    yields a WKN. *)
Theorem extract_wkn_isin_wkn :
  forall description : str,
    (forall g : str,
        wkn_of description = Some g ->
        exists pre ws post : str,
          description = pre ++ py "WKN" ++ ws ++ g ++ post
          /\ ws <> [] /\ forallb isspace ws = true /\ wkn_shape g = true)
    /\ (forall pre ws g post : str,
           description = pre ++ py "WKN" ++ ws ++ g ++ post ->
           ws <> [] -> forallb isspace ws = true -> wkn_shape g = true ->
           wkn_of description <> None).
Proof.
  intros description.
  change (wkn_of description) with (search wkn_pattern description).
  split.
  - intros g H. apply search_some in H as [pre [rest [-> [Hm _]]]].
    unfold wkn_pattern in Hm. apply match_lit in Hm as [t1 [-> Hm]].
    cbn [app] in Hm. apply match_one in Hm as [x [t2 [-> [Hx Hm]]]].
    apply match_many in Hm as [ws [t3 [-> [Hws Hm]]]].
    apply match_wkn_group in Hm as [post [-> Hg]].
    exists pre, (x :: ws), post. split; [reflexivity|].
    split; [discriminate|]. split; [|exact Hg].
    cbn [forallb]. now rewrite Hx, Hws.
  - intros pre ws g post -> Hne Hws Hg.
    apply search_complete. unfold wkn_pattern.
    rewrite match_lit_complete.
    destruct ws as [|x ws]; [congruence|].
    cbn [forallb] in Hws. apply andb_true_iff in Hws as [Hx Hws].
    cbn [app]. rewrite (match_one_complete isspace _ [] x _ Hx).
    apply (match_many_complete isspace _ false ws [] (g ++ post) Hws).
    change (match_here ([Open] ++ times 6 capital_or_digit ++ [Close])
              false [] (g ++ post) <> None).
    now rewrite (match_wkn_group_complete g post Hg).
Qed.

Lemma extract_wkn_isin_wkn_witness :
  wkn_of (py "Wertp.Abrechn. WKN A1CX3T TESLA INC.") <> None.
Proof.
  apply (proj2 (extract_wkn_isin_wkn (py "Wertp.Abrechn. WKN A1CX3T TESLA INC."))
           (py "Wertp.Abrechn. ") (py " ") (py "A1CX3T") (py " TESLA INC."));
    try reflexivity.
  discriminate.
Defined.

(** ** The German text of a numeric balance *)

Lemma german_separators_swap (s : str) :
  count 88 s = O -> german_separators s = map swap_separator s.
Proof.
  unfold german_separators.
  change (py "X") with [88%N]. change (py ".") with [dot].
  change (py ",") with [comma].
  rewrite !replace_char.
  induction s as [|c t IH]; [reflexivity|].
  cbn [count]. destruct (N.eqb_spec c 88) as [->|Hc]; [discriminate|].
  intros Ht. cbn [flat_map map]. rewrite !flat_map_app, (IH Ht).
  f_equal. unfold swap_separator.
  destruct (N.eqb_spec c comma) as [->|Hcomma]; [reflexivity|].
  cbn [flat_map app].
  destruct (N.eqb_spec c dot) as [->|Hdot]; [reflexivity|].
  cbn [flat_map app].
  destruct (N.eqb_spec c 88); [congruence|reflexivity].
Qed.

Lemma swap_digits (d : str) :
  all_digits d = true -> map swap_separator d = d.
Proof.
  induction d as [|c t IH]; [reflexivity|].
  cbn [all_digits map]. rewrite andb_true_iff. intros [Hc Ht].
  rewrite (IH Ht). f_equal. unfold swap_separator.
  rewrite (digit_not c comma Hc ltac:(unfold comma; lia)).
  now rewrite (digit_not c dot Hc ltac:(unfold dot; lia)).
Qed.

Lemma swap_join (groups : list str) :
  forallb digit_group groups = true ->
  map swap_separator (join_comma groups) = join_dot groups.
Proof.
  induction groups as [|g rest IH]; [reflexivity|].
  cbn [forallb]. rewrite andb_true_iff. intros [Hg Hr].
  apply digit_group_digits in Hg as [Hg _].
  cbn [join_comma join_dot]. destruct rest as [|g' rest'].
  - exact (swap_digits g Hg).
  - rewrite map_app. cbn [map]. rewrite (swap_digits g Hg), (IH Hr).
    reflexivity.
Qed.

Lemma count_join_comma (x : N) (groups : list str) :
  forallb digit_group groups = true -> (x < 44 \/ 57 < x)%N ->
  count x (join_comma groups) = O.
Proof.
  intros H Hx. induction groups as [|g rest IH]; [reflexivity|].
  cbn [forallb] in H. apply andb_true_iff in H as [Hg Hr].
  apply digit_group_digits in Hg as [Hg _].
  pose proof (count_digits x g Hg ltac:(lia)) as Hc.
  cbn [join_comma]. destruct rest as [|g' rest']; [exact Hc|].
  rewrite count_app, Hc. cbn [count].
  destruct (N.eqb_spec comma x) as [E|_]; [unfold comma in E; lia|].
  exact (IH Hr).
Qed.

(** X19. The German text that v7 writes for a numeric balance: on the
    formatted text of a sign, groups separated by commas, a point and
    decimals, followed by " EUR", the three replacements give the German
    format of the same groups, and [parse_german_amount] reads this text
    back as the [Decimal] of the digits with the decimals. *)
Theorem german_separators_round_trip :
  forall (m : sign_mark) (groups : list str) (frac : str),
    groups <> [] ->
    forallb digit_group groups = true ->
    digit_group frac = true ->
    let formatted :=
      sign_text m ++ join_comma groups ++ dot :: frac ++ py " EUR" in
    german_separators formatted = german_text m groups frac SpaceUnitEUR
    /\ parse_german_amount (PyStr (german_separators formatted))
       = Ok (Finite (is_minus m)
                    (digits_value 0 (List.concat groups ++ frac))
                    (- Z.of_nat (List.length frac)), []).
Proof.
  intros m groups frac Hne Hg Hf formatted.
  pose proof (frac_all_digits frac Hf) as Hfd.
  assert (E : german_separators formatted
              = german_text m groups frac SpaceUnitEUR).
  { rewrite german_separators_swap.
    - unfold formatted, german_text, german_body.
      rewrite !map_app. cbn [map]. rewrite !map_app.
      rewrite (swap_join groups Hg), (swap_digits frac Hfd).
      rewrite <- !app_assoc. cbn [app].
      now destruct m.
    - unfold formatted. rewrite !count_app. cbn [count]. rewrite count_app.
      rewrite (count_join_comma 88 groups Hg ltac:(lia)).
      rewrite (count_digits 88 frac Hfd ltac:(lia)).
      now destruct m. }
  split; [exact E|]. rewrite E.
  unfold parse_german_amount. cbn [str_].
  rewrite (clean_german m groups frac Hne Hg Hf SpaceUnitEUR).
  rewrite (detect_format_german m groups frac Hne Hg Hf). cbn [bind].
  unfold Decimal_.
  now rewrite (of_str_converted m groups frac Hne Hg Hf).
Qed.

Lemma german_separators_round_trip_witness :
  german_separators (py "-1,234,567.89 EUR") = py "-1.234.567,89 EUR"
  /\ parse_german_amount (PyStr (german_separators (py "-1,234,567.89 EUR")))
     = Ok (Finite true 123456789 (-2), []).
Proof.
  exact (german_separators_round_trip
           MinusSign [py "1"; py "234"; py "567"] (py "89")
           ltac:(discriminate) eq_refl eq_refl).
Defined.

(** ** Classification of every description and amount *)

(** X20. [classify_transaction_type] returns a class for every
    description when the amount is not a NaN.  When it raises, the amount
    is a NaN and the exception is InvalidOperation.  A class other than
    the two transfers, [Eingang] and [Ausgang] is chosen by the
    description alone. *)
Theorem classify_transaction_type_returns :
  forall (d : str) (a : Decimal),
    (is_nan a = false ->
     exists art : Art, classify_transaction_type d a = Ok art)
    /\ (forall e : pyexc,
           classify_transaction_type d a = Raise e ->
           e = InvalidOperation /\ is_nan a = true)
    /\ (forall art : Art,
           classify_transaction_type d a = Ok art ->
           classified_by_amount art = false ->
           forall a' : Decimal, classify_transaction_type d a' = Ok art).
Proof.
  intros d a.
  assert (Hlt : forall x : Decimal,
             Dec.lt x (Dec.of_int 0)
             = if is_nan x then Raise InvalidOperation
               else Ok (match cmp x (Dec.of_int 0) with
                        | Lt => true | _ => false end)).
  { intros x. unfold Dec.lt. cbn [Dec.of_int is_nan].
    now rewrite orb_false_r. }
  assert (Hgt : forall x : Decimal,
             Dec.gt x (Dec.of_int 0)
             = if is_nan x then Raise InvalidOperation
               else Ok (match cmp x (Dec.of_int 0) with
                        | Gt => true | _ => false end)).
  { intros x. unfold Dec.gt. cbn [Dec.of_int is_nan].
    now rewrite orb_false_r. }
  unfold classify_transaction_type.
  repeat match goal with
         | |- context [if ?b then _ else _] =>
             lazymatch b with
             | context [contains] => destruct b
             end
         end;
    rewrite ?Hlt, ?Hgt;
    (split; [|split]);
    try (intros _; eexists; reflexivity);
    try (intros e H; discriminate H);
    try (intros art H; injection H as <-; intros _ a'; reflexivity).
  all: try (intros Hn; rewrite Hn; cbn [bind]; eexists; reflexivity).
  all: try (intros e H; destruct (is_nan a); cbn [bind] in H;
            [injection H as <-; auto|discriminate H]).
  all: intros art H Hc; destruct (is_nan a); cbn [bind] in H;
    [discriminate H|];
    injection H as <-;
    destruct (cmp a (Dec.of_int 0)); discriminate Hc.
Qed.

(** A fee class for an amount that is not a number. *)
Lemma classify_transaction_type_returns_witness :
  classify_transaction_type (py "Depotentgelt") (NaN false false 0)
  = Ok Depotentgelt.
Proof.
  apply (proj2 (proj2 (classify_transaction_type_returns
                         (py "Depotentgelt") betrag_entgelt))
           Depotentgelt);
    vm_compute; reflexivity.
Defined.

(** ** The audit of the trusted value *)

Lemma sub_self (x : float) :
  Prim2SF (PrimFloat.abs (PrimFloat.sub x x))
  = if finite_float x then S754_zero false else S754_nan.
Proof.
  rewrite abs_spec, sub_spec. unfold finite_float.
  destruct (Prim2SF x) as [s|s| |s m e]; cbn.
  - now destruct s.
  - now destruct s.
  - reflexivity.
  - unfold SF64sub. cbn [SFsub]. rewrite Z.sub_diag. reflexivity.
Qed.

Lemma abs_sub_self (x : float) :
  finite_float x = true -> PrimFloat.abs (PrimFloat.sub x x) = 0%float.
Proof.
  intros H. rewrite <- (SF2Prim_Prim2SF (PrimFloat.abs (PrimFloat.sub x x))).
  now rewrite sub_self, H.
Qed.

Lemma ltb_sub_self (x : float) :
  PrimFloat.ltb (PrimFloat.abs (PrimFloat.sub x x)) cent = finite_float x.
Proof.
  rewrite ltb_spec, sub_self. now destruct (finite_float x).
Qed.

(** X21. The audit of a conversion against the trusted value itself: for
    every original string whose amount is not a signaling NaN, auditing
    the float of that amount reports a match with difference 0 exactly
    when the float is a number; for an infinity or a NaN it reports a
    mismatch. *)
Theorem validate_number_conversion_own_value :
  forall original : str,
    is_signaling (parsed (PyStr original)) = false ->
    let x := to_float (parsed (PyStr original)) in
    validate_number_conversion original x
    = Checked original x x (finite_float x)
              (if finite_float x then 0%float
               else PrimFloat.abs (PrimFloat.sub x x)).
Proof.
  intros original Hs x.
  unfold validate_number_conversion. rewrite returned_parsed_str. cbn [bind].
  assert (Hx : Flt.of_Decimal (parsed (PyStr original)) = Ok x).
  { unfold x, to_float.
    destruct (parsed (PyStr original)) as [s c e|s|s [|] p];
      try reflexivity. discriminate Hs. }
  rewrite Hx, ltb_sub_self.
  destruct (finite_float x) eqn:E; reflexivity.
Qed.

Lemma validate_number_conversion_own_value_witness :
  validate_number_conversion (py "-23.700,00") (-23700)%float
  = Checked (py "-23.700,00") (-23700)%float (-23700)%float true 0%float.
Proof.
  exact (validate_number_conversion_own_value (py "-23.700,00") eq_refl).
Defined.

Module TrailingSign.

Local Open Scope N_scope.

Lemma ends_minus_cons (x : N) (s : str) :
  ends_minus s -> ends_minus (x :: s).
Proof. intros [v ->]. now exists (x :: v). Qed.

Lemma ends_minus_tail (x : N) (s : str) :
  ends_minus (x :: s) -> s = [] /\ x = 45 \/ ends_minus s.
Proof.
  intros [v H]. destruct v as [|y v].
  - injection H as -> ->. now left.
  - injection H as _ ->. right. now exists v.
Qed.

Lemma ends_minus_nil : ~ ends_minus [].
Proof. intros [v H]. now destruct v. Qed.

Lemma ends_minus_app (a b : str) :
  ends_minus (a ++ b) -> b <> [] -> ends_minus b.
Proof.
  intros [v H] Hb.
  destruct (exists_last Hb) as [b' [c ->]].
  rewrite app_assoc in H. apply app_inj_tail in H as [_ ->].
  now exists b'.
Qed.

Lemma ends_minus_last (s : str) : ends_minus s -> last s 0 = 45.
Proof. intros [v ->]. apply last_last. Qed.

Lemma ends_minus_digits (d : str) : ends_minus d -> all_digits d = false.
Proof.
  intros [v ->]. rewrite all_digits_app. cbn. apply andb_false_r.
Qed.

Lemma lstrip_ends_minus (s : str) : ends_minus s -> ends_minus (lstrip s).
Proof.
  induction s as [|x t IH]; intros H; [exact H|].
  cbn [lstrip]. destruct (isspace x) eqn:Hx; [|exact H].
  apply ends_minus_tail in H as [[_ ->]|H]; [discriminate Hx|].
  exact (IH H).
Qed.

Lemma strip_ends_minus (s : str) : ends_minus s -> ends_minus (strip s).
Proof.
  intros H. apply lstrip_ends_minus in H as [v Hv].
  unfold strip. rewrite Hv, rstrip_last by reflexivity. now exists v.
Qed.

Lemma replace_char_ends_minus (x : N) (new s : str) :
  x <> 45 -> ends_minus s -> ends_minus (replace [x] new s).
Proof.
  intros Hx [v ->]. rewrite replace_char_app.
  exists (replace [x] new v). f_equal. rewrite replace_char.
  cbn [flat_map]. rewrite app_nil_r.
  destruct (N.eqb_spec 45 x); [congruence|reflexivity].
Qed.

Lemma startswith_length (p s : str) :
  startswith p s = true -> (List.length p <= List.length s)%nat.
Proof.
  revert s. induction p as [|x p IH]; intros s H; [simpl; lia|].
  destruct s as [|y s]; [discriminate|]. cbn [startswith] in H.
  apply andb_true_iff in H as [_ H]. apply IH in H. simpl. lia.
Qed.

Lemma startswith_shorter (p s : str) (c : N) :
  count c p = O -> startswith p (s ++ [c]) = true ->
  (List.length p <= List.length s)%nat.
Proof.
  revert s. induction p as [|x p IH]; intros s Hc H; [simpl; lia|].
  cbn [count] in Hc. destruct (N.eqb_spec x c) as [->|Hx]; [discriminate|].
  destruct s as [|y s].
  - cbn [app startswith] in H. apply andb_true_iff in H as [H _].
    apply N.eqb_eq in H. congruence.
  - cbn [app startswith] in H. apply andb_true_iff in H as [_ H].
    apply (IH s Hc) in H. simpl. lia.
Qed.

Lemma startswith_prefix (p s r : str) :
  startswith p (s ++ r) = true -> (List.length p <= List.length s)%nat ->
  startswith p s = true.
Proof.
  revert s. induction p as [|z p IH]; intros s H Hl; [reflexivity|].
  destruct s as [|y s]; [simpl in Hl; lia|].
  cbn [app startswith] in H |- *.
  apply andb_true_iff in H as [Hz H]. rewrite Hz. cbn [andb].
  apply IH; [exact H|simpl in Hl; lia].
Qed.

(** A replacement leaves a last character alone that does not occur in
    the old text. *)
Lemma replace_from_last (o : N) (old new : str) (c : N) :
  count c (o :: old) = O ->
  forall (s : str) (skip : nat),
    (skip <= List.length s)%nat ->
    replace_from (o :: old) new skip (s ++ [c])
    = replace_from (o :: old) new skip s ++ [c].
Proof.
  intros Hc. induction s as [|x t IH]; intros skip Hskip.
  - simpl in Hskip. replace skip with O by lia.
    cbn [app replace_from startswith].
    cbn [count] in Hc. destruct (N.eqb_spec o c) as [->|Ho]; [discriminate|].
    destruct (N.eqb_spec o c); [congruence|]. reflexivity.
  - cbn [app replace_from]. destruct skip as [|k].
    + destruct (startswith (o :: old) (x :: t ++ [c])) eqn:Hs.
      * assert (Hlen : (List.length (o :: old) <= List.length (x :: t))%nat)
          by exact (startswith_shorter (o :: old) (x :: t) c Hc Hs).
        assert (Hs' : startswith (o :: old) (x :: t) = true)
          by exact (startswith_prefix (o :: old) (x :: t) [c] Hs Hlen).
        rewrite Hs'. rewrite IH by (simpl in Hlen |- *; lia).
        now rewrite app_assoc.
      * assert (Hs' : startswith (o :: old) (x :: t) = false).
        { destruct (startswith (o :: old) (x :: t)) eqn:E; [|reflexivity].
          apply startswith_iff in E as [b E].
          assert (startswith (o :: old) (x :: t ++ [c]) = true).
          { apply startswith_iff. exists (b ++ [c]).
            change (x :: t ++ [c]) with ((x :: t) ++ [c]).
            now rewrite E, <- app_assoc. }
          congruence. }
        rewrite Hs'. rewrite IH by lia. reflexivity.
    + apply IH. simpl in Hskip. lia.
Qed.

Lemma replace_ends_minus (o : N) (old new s : str) :
  count 45 (o :: old) = O -> ends_minus s ->
  ends_minus (replace (o :: old) new s).
Proof.
  intros Hc [v ->]. unfold replace.
  rewrite (replace_from_last o old new 45 Hc v O) by lia.
  now eexists.
Qed.

Lemma clean_ends_minus (s : str) : ends_minus s -> ends_minus (clean s).
Proof.
  intros H. unfold clean.
  change (py " ") with [32]. change (py "+") with [43].
  change (py "EUR") with [69; 85; 82].
  apply replace_char_ends_minus; [lia|].
  apply replace_char_ends_minus; [lia|].
  apply strip_ends_minus.
  now apply replace_ends_minus.
Qed.

Lemma detect_format_ends_minus (s : str) :
  ends_minus s ->
  exists t : str, detect_format s = Ok t /\ ends_minus t.
Proof.
  intros H.
  assert (H1 : ends_minus (replace [comma] [dot] (replace [dot] [] s))).
  { apply replace_char_ends_minus; [unfold comma; lia|].
    apply replace_char_ends_minus; [unfold dot; lia|exact H]. }
  assert (H2 : ends_minus (replace [comma] [] s))
    by (apply replace_char_ends_minus; [unfold comma; lia|exact H]).
  assert (H3 : ends_minus (replace [comma] [dot] s))
    by (apply replace_char_ends_minus; [unfold comma; lia|exact H]).
  assert (H4 : ends_minus (replace [dot] [] s))
    by (apply replace_char_ends_minus; [unfold dot; lia|exact H]).
  unfold detect_format.
  destruct ((count comma s =? 1)%nat && (count dot s <=? 1)%nat) eqn:E1.
  - destruct (count dot s =? 1)%nat eqn:E2.
    + apply andb_true_iff in E1 as [Ec _].
      apply Nat.eqb_eq in Ec. apply Nat.eqb_eq in E2.
      destruct (index_found dot s ltac:(lia)) as [i Hi].
      destruct (index_found comma s ltac:(lia)) as [j Hj].
      rewrite Hi, Hj. cbn [bind].
      destruct (i <? j)%nat; eexists; (split; [reflexivity|assumption]).
    + eexists; (split; [reflexivity|assumption]).
  - destruct ((count dot s =? 1)%nat && (count comma s =? 0)%nat).
    + repeat match goal with
             | |- context [if ?b then _ else _] => destruct b
             end; eexists; (split; [reflexivity|assumption]).
    + destruct (1 <? count dot s)%nat;
        eexists; (split; [reflexivity|assumption]).
Qed.

Lemma parse_sign_ends_minus (b : str) :
  ends_minus b ->
  snd (parse_sign b) = [] \/ ends_minus (snd (parse_sign b)).
Proof.
  intros H. unfold parse_sign. destruct b as [|x t].
  - now left.
  - destruct (N.eq_dec x 45) as [->|H45].
    + cbn [snd]. apply ends_minus_tail in H as [[-> _]|H]; auto.
    + destruct (N.eq_dec x 43) as [->|H43].
      * cbn [snd]. apply ends_minus_tail in H as [[-> _]|H]; auto.
      * right.
        assert (E : snd (match x with
                         | 45 => (true, t)
                         | 43 => (false, t)
                         | _ => (false, x :: t)
                         end) = x :: t).
        { destruct x as [|p]; [reflexivity|].
          do 6 (destruct p as [p|p|]; try reflexivity); congruence. }
        rewrite E. exact H.
Qed.

Lemma parse_exponent_ends_minus (r : str) :
  ends_minus r -> parse_exponent r = None.
Proof.
  intros H. destruct r as [|c t]; [now apply ends_minus_nil in H|].
  cbn [parse_exponent].
  destruct ((c =? 101) || (c =? 69)) eqn:Hc; [|reflexivity].
  apply ends_minus_tail in H as [[_ ->]|H]; [discriminate Hc|].
  pose proof (parse_sign_ends_minus t H) as Hs.
  destruct (parse_sign t) as [neg ds]. cbn [snd] in Hs.
  destruct Hs as [->|Hs]; [reflexivity|].
  rewrite (ends_minus_digits ds Hs). now destruct ds.
Qed.

Lemma span_digits_ends_minus (s : str) :
  ends_minus s -> ends_minus (snd (span_digits s)).
Proof.
  intros H. destruct (span_digits s) as [d r] eqn:E.
  destruct (span_digits_spec s d r E) as [-> Hd]. cbn [snd].
  destruct r as [|c r'].
  - rewrite app_nil_r in H. apply ends_minus_digits in H. congruence.
  - apply (ends_minus_app d); [exact H|discriminate].
Qed.

Lemma parse_number_ends_minus (body : str) :
  ends_minus body -> parse_number body = None.
Proof.
  intros H. unfold parse_number.
  pose proof (span_digits_ends_minus body H) as H1.
  destruct (span_digits body) as [ip r1]. cbn [snd] in H1.
  assert (Hr2 : forall fp r2,
             match r1 with
             | 46 :: t => span_digits t
             | _ => ([], r1)
             end = (fp, r2) -> ends_minus r2).
  { intros fp r2 E. destruct r1 as [|c t]; [now apply ends_minus_nil in H1|].
    destruct (N.eq_dec c 46) as [->|Hc].
    - apply ends_minus_tail in H1 as [[_ Hx]|H1]; [discriminate Hx|].
      pose proof (span_digits_ends_minus t H1) as H2.
      rewrite E in H2. exact H2.
    - assert (E' : match c :: t with
                   | 46 :: t0 => span_digits t0
                   | _ => ([], c :: t)
                   end = ([], c :: t)).
      { destruct c as [|p]; [reflexivity|].
        do 6 (destruct p as [p|p|]; try reflexivity); congruence. }
      rewrite E' in E. injection E as _ <-. exact H1. }
  destruct (match r1 with
            | 46 :: t => span_digits t
            | _ => ([], r1)
            end) as [fp r2].
  rewrite (parse_exponent_ends_minus r2 (Hr2 fp r2 eq_refl)).
  now destruct (ip ++ fp).
Qed.

Lemma ascii_lower_ends_minus (s : str) :
  ends_minus s -> ends_minus (ascii_lower s).
Proof.
  intros [v ->]. unfold ascii_lower. rewrite map_app. now eexists.
Qed.

Lemma parse_special_ends_minus (neg : bool) (body : str) :
  body = [] \/ ends_minus body -> parse_special neg body = None.
Proof.
  intros [->|H]; [reflexivity|].
  apply ascii_lower_ends_minus in H.
  unfold parse_special. set (l := ascii_lower body) in *. clearbody l.
  destruct (Str.eqb l (py "inf") || Str.eqb l (py "infinity")) eqn:E1.
  { apply orb_true_iff in E1 as [E|E]; apply eqb_eq in E; subst l;
      apply ends_minus_last in H; vm_compute in H; discriminate H. }
  destruct (startswith (py "nan") l && all_digits (skipn 3 l)) eqn:E2.
  { apply andb_true_iff in E2 as [Hs Ha].
    apply startswith_iff in Hs as [b ->].
    change (skipn 3 (py "nan" ++ b)) with b in Ha.
    destruct b as [|c b'].
    - apply ends_minus_last in H. vm_compute in H. discriminate H.
    - apply (ends_minus_app (py "nan")) in H; [|discriminate].
      apply ends_minus_digits in H. congruence. }
  destruct (startswith (py "snan") l && all_digits (skipn 4 l)) eqn:E3;
    [|reflexivity].
  apply andb_true_iff in E3 as [Hs Ha].
  apply startswith_iff in Hs as [b ->].
  change (skipn 4 (py "snan" ++ b)) with b in Ha.
  destruct b as [|c b'].
  - apply ends_minus_last in H. vm_compute in H. discriminate H.
  - apply (ends_minus_app (py "snan")) in H; [|discriminate].
    apply ends_minus_digits in H. congruence.
Qed.

(** The constructor rejects every text that ends in a minus sign. *)
Lemma of_str_ends_minus (s : str) : ends_minus s -> Dec.of_str s = None.
Proof.
  intros H. unfold Dec.of_str. change (py "_") with [95].
  assert (Hb : ends_minus (replace [95] [] (strip s))).
  { apply replace_char_ends_minus; [lia|]. now apply strip_ends_minus. }
  pose proof (parse_sign_ends_minus _ Hb) as Hs.
  destruct (parse_sign (replace [95] [] (strip s))) as [neg body].
  cbn [snd] in Hs.
  assert (Hn : parse_number body = None).
  { destruct Hs as [->|Hs]; [reflexivity|].
    now apply parse_number_ends_minus. }
  rewrite Hn. now apply parse_special_ends_minus.
Qed.

End TrailingSign.

Import TrailingSign.

(** X23. Every string that ends in a minus sign, the way German
    statements print a debit, is an amount that [parse_german_amount]
    cannot read: it returns the zero [Decimal('0')] with one warning. *)
Theorem parse_german_amount_trailing_minus :
  forall s : str,
  exists t : str,
    detect_format (clean (s ++ py "-")) = Ok t
    /\ Dec.of_str t = None
    /\ parse_german_amount (PyStr (s ++ py "-"))
       = Ok (Finite false 0 0, [warning_text t]).
Proof.
  intros s.
  assert (H : ends_minus (clean (s ++ py "-")))
    by (apply clean_ends_minus; now exists s).
  destruct (detect_format_ends_minus _ H) as [t [Ht Hm]].
  pose proof (of_str_ends_minus t Hm) as Hrej.
  exists t. split; [exact Ht|]. split; [exact Hrej|].
  unfold parse_german_amount. cbn [str_]. rewrite Ht. cbn [bind].
  unfold Decimal_. now rewrite Hrej.
Qed.

(** "11,25-" *)
Lemma parse_german_amount_trailing_minus_witness :
  parse_german_amount (PyStr (py "11,25-"))
  = Ok (Finite false 0 0, [warning_text (py "11.25-")]).
Proof.
  destruct (parse_german_amount_trailing_minus (py "11,25"))
    as [t [Ht [_ H]]].
  assert (E : t = py "11.25-")
    by (vm_compute in Ht; injection Ht as <-; reflexivity).
  rewrite E in H. exact H.
Defined.

(** ** Entries that cannot be read *)

Lemma summiere_v8_zero (es : list Decimal) :
  summiere_v8 (Finite false 0 0) (Finite false 0 0 :: es)
  = summiere_v8 (Finite false 0 0) es.
Proof. reflexivity. Qed.

Lemma parsed_rejected (s t : str) :
  detect_format (clean s) = Ok t -> Dec.of_str t = None ->
  parsed (PyStr s) = Finite false 0 0.
Proof.
  intros Ht Hr. unfold parsed, returned, parse_german_amount. cbn [str_].
  rewrite Ht. cbn [bind]. unfold Decimal_. now rewrite Hr.
Qed.

Lemma two_commas_rejected (s : str) :
  (2 <= count comma s)%nat ->
  exists t : str, detect_format (clean s) = Ok t /\ Dec.of_str t = None.
Proof.
  intros Hs.
  rewrite <- (count_clean comma s) in Hs by auto.
  set (c := clean s) in *.
  assert (Hrej : forall t : str,
             (1 <= count comma t \/ 2 <= count dot t)%nat ->
             Dec.of_str t = None).
  { intros t Ht. destruct (Dec.of_str t) as [d|] eqn:E; [|reflexivity].
    apply of_str_counts in E. lia. }
  unfold detect_format.
  destruct (Nat.eqb_spec (count comma c) 1) as [?|_]; [lia|].
  destruct (Nat.eqb_spec (count comma c) 0) as [?|_]; [lia|].
  rewrite andb_false_r. cbn [andb].
  destruct (1 <? count dot c)%nat.
  - eexists. split; [reflexivity|]. apply Hrej. right.
    rewrite count_replace_char by reflexivity.
    rewrite (count_remove_char comma dot) by reflexivity. lia.
  - exists c. split; [reflexivity|]. apply Hrej. left. lia.
Qed.

Lemma unreadable_entry_zero (t : option PyValue) :
  unreadable_entry t -> parsed (get_betrag t) = Finite false 0 0.
Proof.
  destruct t as [[s|n|x|b]|]; cbn [unreadable_entry get_betrag];
    try contradiction; [|intros _; vm_compute; reflexivity].
  intros [Hm|Hc].
  - destruct (detect_format_ends_minus _ (clean_ends_minus s Hm))
      as [t [Ht Hmt]].
    exact (parsed_rejected s t Ht (of_str_ends_minus t Hmt)).
  - destruct (two_commas_rejected s Hc) as [t [Ht Hr]].
    exact (parsed_rejected s t Ht Hr).
Qed.

(** X22. An entry without a number to read counts as zero: an entry
    that has no [betrag] takes the default [0], and an entry whose [betrag]
    is a string that ends in a minus sign or holds two or more commas is
    read as [Decimal('0')] with a warning.  For a statement whose other
    entries are amounts with at most [k] decimal places and of bounded
    magnitude, the balance check returns the same mapping with such an
    entry as without it.  An entry whose [betrag] is a [bool] does not
    count as zero: the check returns the error mapping. *)
Theorem validate_with_python_unreadable_entry :
  (forall (k : Z) (r r' : llm_result) (pre post : list (option PyValue))
          (t : option PyValue),
      (0 <= k <= max_places)%Z ->
      anfangssaldo r = anfangssaldo r' ->
      endsaldo r = endsaldo r' ->
      transaktionen r = pre ++ t :: post ->
      transaktionen r' = pre ++ post ->
      unreadable_entry t ->
      let es := map (fun t => parsed (get_betrag t)) (transaktionen r') in
      Forall (amount k) es ->
      (sum_abs k es < exact_bound)%Z ->
      validate_with_python r = validate_with_python r')
  /\ (forall (r : llm_result) (b : bool),
        In (Some (PyBool b)) (transaktionen r) ->
        exists e : pyexc, validate_with_python r = Fehler e).
Proof.
  split.
  - intros k r r' pre post t Hk Ha He Hr Hr' Hu es Ham Hb.
    pose proof (unreadable_entry_zero t Hu) as Ht.
    assert (Hp : Permutation
                   (Finite false 0 0 :: es)
                   (map (fun t => parsed (get_betrag t)) (transaktionen r))).
    { unfold es. rewrite Hr, Hr', !map_app. cbn [map]. rewrite Ht.
      apply Permutation_middle. }
    assert (Ham0 : Forall (amount k) (Finite false 0 0 :: es))
      by (constructor; [simpl; lia|exact Ham]).
    assert (Hamr : Forall (amount k)
                     (map (fun t => parsed (get_betrag t)) (transaktionen r)))
      by exact (Permutation_Forall Hp Ham0).
    assert (Hl : validate_locals r = validate_locals r').
    { unfold validate_locals.
      rewrite Ha, He, (summiere_parsed k _ Hamr), (summiere_parsed k _ Ham).
      fold es.
      rewrite <- (summiere_v8_perm k Hk (Finite false 0 0 :: es) _ Hp Ham0).
      - now rewrite summiere_v8_zero.
      - cbn [sum_abs fold_right units signed]. fold (sum_abs k es).
        rewrite Z.mul_0_l. simpl Z.abs. lia. }
    unfold validate_with_python. now rewrite Hl.
  - intros r b Hin.
    assert (H7 : exists e : pyexc,
               (l <- validate_locals r ;; bericht l) = Raise e).
    { unfold validate_locals.
      destruct (returned (parse_german_amount (saldo_betrag (anfangssaldo r))))
        as [o|e]; [|eexists; reflexivity].
      destruct (returned (parse_german_amount (saldo_betrag (endsaldo r))))
        as [c|e]; [|eexists; reflexivity].
      cbn [bind].
      assert (Hn : existsb (fun t => is_nan (parsed (get_betrag t)))
                           (transaktionen r) = true).
      { apply existsb_exists. exists (Some (PyBool b)).
        split; [exact Hin|]. destruct b; vm_compute; reflexivity. }
      pose proof (summiere_nan (transaktionen r) (Finite false 0 0)) as Hs.
      cbn [is_nan orb] in Hs. specialize (Hs Hn).
      destruct (summiere (Finite false 0 0) (transaktionen r)) as [s|e];
        [|eexists; reflexivity].
      cbn [bind]. cbn [nan_or_raise] in Hs.
      assert (Hocs : is_nan o || is_nan c || is_nan s = true)
        by (rewrite Hs; apply orb_true_r).
      pose proof (berechne_nan o c s Hocs) as Hb.
      destruct (berechne o c s) as [l|e]; [|eexists; reflexivity].
      cbn [bind]. exact (bericht_nan l Hb). }
    destruct H7 as [e He]. exists e. unfold validate_with_python.
    now rewrite He.
Qed.

(** The example statement with the entry "11,25-". *)
Lemma validate_with_python_unreadable_entry_witness :
  unreadable_entry (betrag_text "11,25-")
  /\ validate_with_python auszug_beispiel_nachgestellt
     = validate_with_python auszug_beispiel.
Proof.
  assert (Hu : unreadable_entry (betrag_text "11,25-"))
    by (left; exists (py "11,25"); reflexivity).
  split; [exact Hu|].
  apply (proj1 validate_with_python_unreadable_entry 2%Z
           auszug_beispiel_nachgestellt auszug_beispiel
           (map betrag_text
                ["-170,86"; "-1,95"; "37.000,00"; "-101.046,00";
                 "-100.480,00"; "103.924,60"; "10.000,00"]%string)
           (map betrag_text
                ["-11,25"; "41.989,54"; "-20.000,00"; "42.689,03"]%string)
           (betrag_text "11,25-")).
  - unfold max_places. lia.
  - reflexivity.
  - reflexivity.
  - reflexivity.
  - reflexivity.
  - exact Hu.
  - cbn [map transaktionen auszug_beispiel]. amounts_by_computation.
  - vm_compute. reflexivity.
Defined.

(** ** The inputs for which [parse_german_amount] returns *)

(** X24. [parse_german_amount] returns, and does not raise, for every
    string, every float and every [int] that is not a [bool] and stays
    within the digit limit of [str].  For a string whose cleaned,
    format-converted text the [Decimal] constructor rejects, it returns
    exactly the zero [Decimal('0')] and logs one warning that quotes the
    text; when the constructor accepts the text it returns the constructed
    value and logs nothing.  An [int] gives its own value. *)
Theorem parse_german_amount_returns_within_limit :
  forall v : PyValue,
    within_limit v ->
    exists (d : Decimal) (w : list str),
      parse_german_amount v = Ok (d, w)
      /\ match v with
         | PyStr s =>
             exists t : str,
               detect_format (clean s) = Ok t
               /\ match Dec.of_str t with
                  | Some d' => d = d' /\ w = []
                  | None => d = Finite false 0 0 /\ w = [warning_text t]
                  end
         | PyInt n => d = Dec.of_int n /\ w = []
         | PyFloat x => Dec.of_str (str_of_float x) = Some d /\ w = []
         | PyBool _ => False
         end.
Proof.
  intros v Hv. pose proof (str_of_within_limit v Hv) as Hs.
  destruct v as [s|n|x|b]; unfold parse_german_amount;
    try rewrite Hs; unfold Decimal_; cbn [str_ bind].
  - destruct (detect_format_returns (clean s)) as [t Ht]. rewrite Ht.
    cbn [bind].
    destruct (Dec.of_str t) as [d'|] eqn:E.
    + exists d', []. split; [reflexivity|]. exists t. rewrite E. auto.
    + exists (Finite false 0 0), [warning_text t]. split; [reflexivity|].
      exists t. rewrite E. auto.
  - rewrite of_str_int. exists (Dec.of_int n), []. auto.
  - destruct (of_str_float x) as [d Hd]. rewrite Hd. exists d, []. auto.
  - contradiction.
Qed.

(** The text "True": zero and a warning. *)
Lemma parse_german_amount_returns_within_limit_witness :
  exists (d : Decimal) (w : list str),
    parse_german_amount (PyStr (py "True")) = Ok (d, w)
    /\ exists t : str,
         detect_format (clean (py "True")) = Ok t
         /\ match Dec.of_str t with
            | Some d' => d = d' /\ w = []
            | None => d = Finite false 0 0 /\ w = [warning_text t]
            end.
Proof.
  exact (parse_german_amount_returns_within_limit (PyStr (py "True")) I).
Defined.
